(** * Driver detection for telecom subscriber series

    A shallow embedding of the two driver-detection engines of the
    repository:

    - [detect_add_churn_drivers.py]: the alignment engine
      (module [AddChurn]);
    - [detect_subscription_drivers.py]: the regime-shift engine
      (module [Subscription]);

    of the preparation of the weekly frames in [run_full_analysis.py]
    (module [FullAnalysis]) and of the two forecast runners (module
    [Forecast]).

    Numbers.  The source computes on IEEE doubles through numpy and
    pandas.  Here a Python float is a value of [float]: either [NaN] or a
    real number [Fin x].  Arithmetic is exact (no rounding), NaN
    propagates through arithmetic and makes every comparison false, as
    in Python.  Infinities are not represented: the only divisions by
    zero the two engines can perform are guarded ([_safe_div], the
    [avg > 0] tests) or of the form 0/0, which is NaN.

    Exceptions.  A Python function that can raise returns an [option];
    [None] is the raised exception.

    Dictionaries.  A result dictionary is an association list from keys
    to Python values ([pyval]), in insertion order.

    Tables.  A data frame is the list of its rows, reduced to the
    columns the engine reads; a column is a list of floats.

    Strings.  Product names are ASCII strings: [lower] folds the letters
    A-Z and a digit is one of 0-9. *)

From Stdlib Require Import Reals Lra Lia String Ascii List ZArith Bool.
From Stdlib Require Import Permutation Sorted.
Import ListNotations.

Set Warnings "-register-all".

Open Scope R_scope.
Open Scope string_scope.

(** ** Python floats *)

Inductive float : Type :=
| NaN : float
| Fin : R -> float.

Definition R_leb (x y : R) : bool := if Rle_dec x y then true else false.
Definition R_ltb (x y : R) : bool := if Rlt_dec x y then true else false.
Definition R_eqb (x y : R) : bool := if Req_dec_T x y then true else false.

(** [a >= b], [a < b], [a > b], [a == b] on floats: false on NaN. *)
Definition fge (a b : float) : bool :=
  match a, b with Fin x, Fin y => R_leb y x | _, _ => false end.
Definition flt (a b : float) : bool :=
  match a, b with Fin x, Fin y => R_ltb x y | _, _ => false end.
Definition fgt (a b : float) : bool :=
  match a, b with Fin x, Fin y => R_ltb y x | _, _ => false end.
Definition feq (a b : float) : bool :=
  match a, b with Fin x, Fin y => R_eqb x y | _, _ => false end.

Definition isnan (a : float) : bool :=
  match a with NaN => true | Fin _ => false end.

Definition fadd (a b : float) : float :=
  match a, b with Fin x, Fin y => Fin (x + y) | _, _ => NaN end.
Definition fsub (a b : float) : float :=
  match a, b with Fin x, Fin y => Fin (x - y) | _, _ => NaN end.
Definition fmul (a b : float) : float :=
  match a, b with Fin x, Fin y => Fin (x * y) | _, _ => NaN end.

(** Quotient of two floats.  With a zero divisor the engines only ever
    divide zero (0/0), which is NaN. *)
Definition fdiv (a b : float) : float :=
  match a, b with
  | Fin x, Fin y => if R_eqb y 0 then NaN else Fin (x / y)
  | _, _ => NaN
  end.

(** ** pandas primitives on columns *)

(** [Series.sum] over a full window: NaN as soon as one observation is
    missing (min_periods is the window size). *)
Fixpoint rsum (xs : list R) : R :=
  match xs with
  | [] => 0
  | x :: r => x + rsum r
  end.

Fixpoint all_fin (xs : list float) : option (list R) :=
  match xs with
  | [] => Some []
  | NaN :: _ => None
  | Fin x :: r =>
      match all_fin r with
      | Some l => Some (x :: l)
      | None => None
      end
  end.

(** A row count as a real number. *)
Definition count (n : nat) : R := IZR (Z.of_nat n).

Definition rmean (xs : list R) : R := rsum xs / count (length xs).

(** The window of width [w] ending at position [i] (inclusive), once it
    is filled. *)
Definition window_at {A : Type} (w i : nat) (xs : list A) : option (list A) :=
  if (w <=? i + 1)%nat then Some (firstn w (skipn (i + 1 - w) xs)) else None.

(** [xs.rolling(w).agg()]: one value per position, NaN until the window
    is filled. *)
Definition rolling {A : Type} (w : nat) (agg : list A -> float) (xs : list A)
  : list float :=
  map (fun i => match window_at w i xs with
                | Some win => agg win
                | None => NaN
                end)
      (seq 0 (length xs)).

Definition window_sum (win : list float) : float :=
  match all_fin win with
  | Some l => Fin (rsum l)
  | None => NaN
  end.

Definition window_mean (win : list float) : float :=
  match all_fin win with
  | Some l => Fin (rmean l)
  | None => NaN
  end.

Definition roll_sum (w : nat) (xs : list float) : list float :=
  rolling w window_sum xs.

Definition roll_mean (w : nat) (xs : list float) : list float :=
  rolling w window_mean xs.

(** Sample variance (ddof = 1) and the numerator of pandas' rolling
    correlation, [(mean(xy) - mean(x) mean(y)) * n / (n - 1)]. *)
Definition sample_var (xs : list R) : R :=
  rsum (map (fun x => (x - rmean xs) * (x - rmean xs)) xs)
  / (count (length xs) - 1).

Definition cov_num (xs ys : list R) : R :=
  (rmean (map (fun p => fst p * snd p) (combine xs ys)) - rmean xs * rmean ys)
  * (count (length xs) / (count (length xs) - 1)).

(** Pearson correlation of one window, as [Rolling.corr] computes it:
    numerator / sqrt(var_x * var_y); a zero denominator gives 0/0. *)
Definition window_corr (win : list (float * float)) : float :=
  match all_fin (map fst win), all_fin (map snd win) with
  | Some xs, Some ys =>
      fdiv (Fin (cov_num xs ys)) (Fin (sqrt (sample_var xs * sample_var ys)))
  | _, _ => NaN
  end.

Definition roll_corr (w : nat) (xs ys : list float) : list float :=
  rolling w window_corr (combine xs ys).

(** [Series.mean()]: NaN entries are skipped; NaN when nothing is left. *)
Fixpoint skipna (xs : list float) : list R :=
  match xs with
  | [] => []
  | NaN :: r => skipna r
  | Fin x :: r => x :: skipna r
  end.

Definition series_mean (xs : list float) : float :=
  match skipna xs with
  | [] => NaN
  | l => Fin (rmean l)
  end.

(** [Series.tail(n)] and [Series.iloc[-1]] (IndexError on empty). *)
Definition tail {A : Type} (n : nat) (xs : list A) : list A :=
  skipn (length xs - n) xs.

Definition iloc_last {A : Type} (xs : list A) : option A :=
  match rev xs with
  | [] => None
  | x :: _ => Some x
  end.

(** ** Python values and result dictionaries *)

Inductive pyval : Type :=
| VNone : pyval
| VBool : bool -> pyval
| VStr : string -> pyval
| VFloat : float -> pyval
| VDict : list (string * pyval) -> pyval.

Definition dict := list (string * pyval).

Fixpoint dict_get (k : string) (d : dict) : option pyval :=
  match d with
  | [] => None
  | (k', v) :: r => if String.eqb k k' then Some v else dict_get k r
  end.

Definition has_key (k : string) (d : dict) : bool :=
  match dict_get k d with Some _ => true | None => false end.

(** [float(x) if not np.isnan(x) else None] *)
Definition float_or_none (x : float) : pyval :=
  if isnan x then VNone else VFloat x.


(** [df.sort_values(key)]: ascending, by insertion. *)
Fixpoint insert_by {A : Type} (key : A -> Z) (a : A) (l : list A) : list A :=
  match l with
  | [] => [a]
  | b :: r => if (key a <=? key b)%Z then a :: b :: r else b :: insert_by key a r
  end.

Fixpoint sort_values {A : Type} (key : A -> Z) (l : list A) : list A :=
  match l with
  | [] => []
  | a :: r => insert_by key a (sort_values key r)
  end.

Fixpoint map2 {A B C : Type} (f : A -> B -> C) (xs : list A) (ys : list B)
  : list C :=
  match xs, ys with
  | x :: xr, y :: yr => f x y :: map2 f xr yr
  | _, _ => []
  end.

(** ** detect_add_churn_drivers.py *)

Module AddChurn.

Definition ROLLING_WINDOW : nat := 4.
Definition CORR_WINDOW : nat := 8.
Definition MIN_POINTS : nat := 12.

Definition CORR_ALIGNED : R := 60 / 100.
Definition SHARE_MIN : R := 10 / 100.
Definition SCORE_ALIGNED : R := 65 / 100.

(** One weekly row of an input table, reduced to the date column, the
    target column and the driver column the check reads. *)
Record row : Type := mk_row
  { week_start : Z;
    target : float;
    driver : float }.

(** The spine after [dropna]: its columns, all of one length. *)
Record spine : Type := mk_spine
  { target_rw : list float;
    driver_rw : list float;
    driver_share : list float;
    rolling_corr : list float }.

Definition len (s : spine) : nat := length (target_rw s).

(** [np.where(d == 0, np.nan, n / d)], element by element. *)
Definition _safe_div (n d : float) : float :=
  if feq d (Fin 0) then NaN else fdiv n d.

(** [corr] and [share] are Python floats or [None]. *)
Definition _alignment_score (corr share : option float) : float :=
  let corr_weight := 7 / 10 in
  let share_weight := 3 / 10 in
  let corr_component :=
    match corr with
    | None | Some NaN => 0
    | Some (Fin c) => (c + 1) / 2
    end in
  let share_component :=
    match share with
    | None | Some NaN => 0
    | Some (Fin s) => Rmin (Rmax s 0) 1
    end in
  Fin (corr_weight * corr_component + share_weight * share_component).

(** Rows that survive [dropna(subset=[target_rw, driver_rw])]. *)
Definition dropna_rw (rows : list (float * float)) : list (float * float) :=
  filter (fun p => negb (isnan (fst p)) && negb (isnan (snd p))) rows.

(** The [(target_rw, driver_rw)] rows of the sorted table that are left
    once the rolling sums are computed and undefined rows dropped. *)
Definition smoothed_rows (df : list row) : list (float * float) :=
  let sorted := sort_values week_start df in
  let t_rw := roll_sum ROLLING_WINDOW (map target sorted) in
  let d_rw := roll_sum ROLLING_WINDOW (map driver sorted) in
  dropna_rw (combine t_rw d_rw).

Definition _build_spine (df : list row) : option spine :=
  let kept := smoothed_rows df in
  if (length kept <? MIN_POINTS)%nat then None
  else
    let t := map fst kept in
    let d := map snd kept in
    Some (mk_spine t d (map2 _safe_div d t) (roll_corr CORR_WINDOW d t)).

(** Returns [(aligned, confidence, metrics)]; [None] is the IndexError
    of [iloc[-1]] on an empty column.  The two column names the source
    passes are the fixed columns [target_rw] and [driver_rw] of [spine]. *)
Definition _summarize_alignment (s : spine) : option (bool * string * dict) :=
  let recent_corr :=
    match iloc_last (rolling_corr s) with
    | Some c => c
    | None => NaN
    end in
  let avg_corr_recent :=
    if (CORR_WINDOW <=? len s)%nat
    then series_mean (tail CORR_WINDOW (rolling_corr s))
    else series_mean (rolling_corr s) in
  let share_recent :=
    if (CORR_WINDOW <=? len s)%nat
    then series_mean (tail CORR_WINDOW (driver_share s))
    else series_mean (driver_share s) in
  match iloc_last (driver_share s) with
  | None => None
  | Some share_latest =>
      let target_level_recent := series_mean (tail CORR_WINDOW (target_rw s)) in
      let driver_level_recent := series_mean (tail CORR_WINDOW (driver_rw s)) in
      let score := _alignment_score (Some avg_corr_recent) (Some share_recent) in
      let aligned :=
        fge avg_corr_recent (Fin CORR_ALIGNED)
        && fge share_recent (Fin SHARE_MIN)
        && fge score (Fin SCORE_ALIGNED) in
      let confidence :=
        if aligned && fge score (Fin (80 / 100)) then "high"
        else if aligned then "medium"
        else "low" in
      Some (aligned, confidence,
            [ ("corr_latest", float_or_none recent_corr);
              ("corr_recent_avg", float_or_none avg_corr_recent);
              ("share_latest", float_or_none share_latest);
              ("share_recent_avg", float_or_none share_recent);
              ("alignment_score", VFloat score);
              ("target_level_recent", VFloat target_level_recent);
              ("driver_level_recent", VFloat driver_level_recent) ])
  end.

(** The body shared by the three spine-based checks; they differ in
    the columns read (already selected in [row]) and the driver name. *)
Definition detect_with (name : string) (df : list row) : option dict :=
  match _build_spine df with
  | None =>
      Some [ ("driver", VStr name); ("aligned", VBool false);
             ("confidence", VStr "low");
             ("reason", VStr "Insufficient data") ]
  | Some s =>
      match _summarize_alignment s with
      | None => None
      | Some (aligned, confidence, metrics) =>
          Some [ ("driver", VStr name); ("aligned", VBool aligned);
                 ("confidence", VStr confidence);
                 ("metrics", VDict metrics) ]
      end
  end.

Definition _detect_postpaid_add_driver : list row -> option dict :=
  detect_with "retail_add_growth".

Definition _detect_postpaid_churn_driver : list row -> option dict :=
  detect_with "competitive_churn_spike".

Definition _detect_prepaid_add_driver : list row -> option dict :=
  detect_with "portin_add_growth".

Definition _detect_prepaid_churn_driver (df : list row) : option dict :=
  Some [ ("driver", VStr "no_structural_driver_detected");
         ("aligned", VBool false);
         ("confidence", VStr "low");
         ("metrics", VDict []) ].

Definition detect_add_churn_drivers
  (postpaid_add_df postpaid_churn_df prepaid_add_df prepaid_churn_df : list row)
  : option dict :=
  match _detect_postpaid_add_driver postpaid_add_df,
        _detect_postpaid_churn_driver postpaid_churn_df,
        _detect_prepaid_add_driver prepaid_add_df,
        _detect_prepaid_churn_driver prepaid_churn_df with
  | Some pa, Some pc, Some ra, Some rc =>
      Some [ ("add_churn_driver_analysis",
              VDict [ ("postpaid", VDict [ ("adds", VDict pa); ("churn", VDict pc) ]);
                      ("prepaid", VDict [ ("adds", VDict ra); ("churn", VDict rc) ]) ]) ]
  | _, _, _, _ => None
  end.

End AddChurn.

(** ** Strings: the operations the tier classifiers use *)

Definition is_digit (c : ascii) : bool :=
  let n := nat_of_ascii c in ((48 <=? n) && (n <=? 57))%nat.

Definition lower_ascii (c : ascii) : ascii :=
  let n := nat_of_ascii c in
  if ((65 <=? n) && (n <=? 90))%nat then ascii_of_nat (n + 32) else c.

(** [str.lower()] *)
Fixpoint lower (s : string) : string :=
  match s with
  | EmptyString => EmptyString
  | String c r => String (lower_ascii c) (lower r)
  end.

(** [sub in s] *)
Fixpoint contains (sub s : string) : bool :=
  String.prefix sub s
  || match s with
     | EmptyString => false
     | String _ r => contains sub r
     end.

(** The longest run of digits at the head of [s], and what follows. *)
Fixpoint span_digits (s : string) : string * string :=
  match s with
  | EmptyString => (EmptyString, EmptyString)
  | String c r =>
      if is_digit c
      then let (ds, rest) := span_digits r in (String c ds, rest)
      else (EmptyString, s)
  end.

(** [re.search(r'(\d+)gb', s)], group 1: start positions are tried from
    the left; at a position the greedy [\d+] takes the whole digit run,
    and giving digits back cannot help, the next character being a
    digit and not [g]. *)
Fixpoint search_gb (s : string) : option string :=
  match s with
  | EmptyString => None
  | String _ r =>
      let (ds, rest) := span_digits s in
      if negb (String.eqb ds EmptyString) && String.prefix "gb" rest
      then Some ds
      else search_gb r
  end.

(** [int(digits)] *)
Definition digit_value (c : ascii) : N := N.of_nat (nat_of_ascii c - 48).

Fixpoint int_of_digits_from (acc : N) (s : string) : N :=
  match s with
  | EmptyString => acc
  | String c r => int_of_digits_from (10 * acc + digit_value c)%N r
  end.

Definition int_of_digits : string -> N := int_of_digits_from 0%N.

(** ** detect_subscription_drivers.py *)

Module Subscription.

Definition PREMIUM_REGIME_THRESHOLD : R := 15 / 100.

Definition PREPAID_STRONG_SHARE_DELTA : R := 10 / 100.
Definition PREPAID_STRONG_ADDS_RATIO : R := 12 / 10.
Definition PREPAID_STRONG_CORR : R := 6 / 10.

Definition POSTPAID_STRONG_SHARE_DELTA : R := 5 / 100.
Definition POSTPAID_STRONG_ADDS_RATIO : R := 12 / 10.
Definition POSTPAID_STRONG_CORR : R := 5 / 10.

(** What [_extract_gb] returns besides [None]. *)
Inductive gb : Type :=
| Unlimited : gb
| Gb : N -> gb.

(** [product_name] is a string or missing ([pd.isna]). *)
Definition _extract_gb (product_name : option string) : option gb :=
  match product_name with
  | None => None
  | Some s =>
      let name := lower s in
      if contains "unlimited" name then Some Unlimited
      else
        match search_gb name with
        | Some ds => Some (Gb (int_of_digits ds))
        | None => None
        end
  end.

Definition _is_high_tier (product_name : option string) : bool :=
  match _extract_gb product_name with
  | Some Unlimited => true
  | Some (Gb n) => (50 <? n)%N
  | None => false
  end.

(** [str.contains(r"(basic|save|4all|lifeline)", case=False, na=False)] *)
Definition value_flag (product_name : option string) : bool :=
  match product_name with
  | None => false
  | Some s =>
      let name := lower s in
      contains "basic" name || contains "save" name
      || contains "4all" name || contains "lifeline" name
  end.

(** One event-level row of the master table. *)
Record record : Type := mk_record
  { week_start : Z;
    unique_subscription_id : string;
    product_name : option string;
    segment : string }.

(** [df.groupby("week_start")["unique_subscription_id"].nunique()]:
    one row per week, weeks ascending. *)
Definition group_weeks (df : list record) : list Z :=
  sort_values (fun w => w) (nodup Z.eq_dec (map week_start df)).

Definition nunique (w : Z) (df : list record) : nat :=
  length (nodup string_dec
            (map unique_subscription_id
               (filter (fun r => (week_start r =? w)%Z) df))).

Definition weekly_nunique (df : list record) : list (Z * nat) :=
  map (fun w => (w, nunique w df)) (group_weeks df).

Fixpoint lookup_week (w : Z) (t : list (Z * nat)) : option nat :=
  match t with
  | [] => None
  | (w', n) :: r => if (w =? w')%Z then Some n else lookup_week w r
  end.

(** The weekly table after [merge(how="left").fillna(0)] and
    [sort_values("week_start")]: week, total count, flagged count. *)
Definition weekly_spine (flag : record -> bool) (df : list record)
  : list (Z * float * float) :=
  let weekly_total := weekly_nunique df in
  let weekly_flag := weekly_nunique (filter flag df) in
  let merged :=
    map (fun p =>
           (fst p, Fin (count (snd p)),
            match lookup_week (fst p) weekly_flag with
            | Some n => Fin (count n)
            | None => Fin 0
            end))
        weekly_total in
  sort_values (fun t => fst (fst t)) merged.

(** The smoothed columns that survive [dropna()]: pairs
    [(adds_4w, share_4w)]. *)
Definition smoothed (weekly : list (Z * float * float)) : list (float * float) :=
  let total_adds := map (fun t => snd (fst t)) weekly in
  let flag_adds := map snd weekly in
  let adds_4w := roll_sum 4 total_adds in
  let share := map2 fdiv flag_adds total_adds in
  let share_4w := roll_mean 4 share in
  map (fun t => (fst (fst t), snd t))
    (filter (fun t => negb (isnan (fst (fst t)))
                      && negb (isnan (snd (fst t)))
                      && negb (isnan (snd t)))
       (combine (combine adds_4w share) share_4w)).

(** [master_df[master_df["segment"] == seg]] *)
Definition segment_rows (seg : string) (master_df : list record) : list record :=
  filter (fun r => String.eqb (segment r) seg) master_df.

(** The spine of the premium check, [(adds_4w, high_4w)] per week, and
    of the value-mix check, [(adds_4w, value_4w)] per week. *)
Definition high_spine (df : list record) : list (float * float) :=
  smoothed (weekly_spine (fun r => _is_high_tier (product_name r)) df).

Definition value_spine (df : list record) : list (float * float) :=
  smoothed (weekly_spine (fun r => value_flag (product_name r)) df).

Definition _detect_prepaid_driver (master_df : list record) : option dict :=
  let df := segment_rows "prepaid" master_df in
  match df with
  | [] =>
      Some [ ("segment", VStr "prepaid"); ("detected", VBool false);
             ("reason", VStr "No prepaid data") ]
  | _ =>
      let spine := high_spine df in
      if (length spine <? 8)%nat then
        Some [ ("segment", VStr "prepaid"); ("detected", VBool false);
               ("reason", VStr "Insufficient data") ]
      else
        let pre := filter (fun p => flt (snd p) (Fin PREMIUM_REGIME_THRESHOLD)) spine in
        let post := filter (fun p => fge (snd p) (Fin PREMIUM_REGIME_THRESHOLD)) spine in
        if (length post <? 4)%nat then
          Some [ ("segment", VStr "prepaid"); ("detected", VBool false);
                 ("reason", VStr "No premium regime") ]
        else
          let avg_adds_pre := series_mean (map fst pre) in
          let avg_adds_post := series_mean (map fst post) in
          let avg_high_pre := series_mean (map snd pre) in
          let avg_high_post := series_mean (map snd post) in
          let adds_ratio :=
            if fgt avg_adds_pre (Fin 0) then fdiv avg_adds_post avg_adds_pre
            else Fin 0 in
          let share_delta := fsub avg_high_post avg_high_pre in
          let rolling_corr := roll_corr 6 (map snd spine) (map fst spine) in
          match iloc_last rolling_corr with
          | None => None
          | Some recent_corr =>
              let detected :=
                fge share_delta (Fin PREPAID_STRONG_SHARE_DELTA)
                && fge adds_ratio (Fin PREPAID_STRONG_ADDS_RATIO)
                && fge recent_corr (Fin PREPAID_STRONG_CORR) in
              Some [ ("segment", VStr "prepaid");
                     ("driver", VStr "premium_shift");
                     ("detected", VBool detected);
                     ("confidence", VStr (if detected then "high" else "low"));
                     ("metrics",
                      VDict [ ("adds_ratio", VFloat adds_ratio);
                              ("share_delta", VFloat share_delta);
                              ("recent_correlation", VFloat recent_corr);
                              ("avg_adds_pre", VFloat avg_adds_pre);
                              ("avg_adds_post", VFloat avg_adds_post);
                              ("high_share_pre", VFloat avg_high_pre);
                              ("high_share_post", VFloat avg_high_post) ]) ]
          end
  end.

Definition _detect_postpaid_driver (master_df : list record) : option dict :=
  let df := segment_rows "postpaid" master_df in
  match df with
  | [] =>
      Some [ ("segment", VStr "postpaid"); ("detected", VBool false);
             ("reason", VStr "No postpaid data") ]
  | _ =>
      let spine := value_spine df in
      if (length spine <? 16)%nat then
        Some [ ("segment", VStr "postpaid"); ("detected", VBool false);
               ("reason", VStr "Insufficient data") ]
      else
        let recent := tail 8 spine in
        let previous := firstn 8 (tail 16 spine) in
        let avg_adds_recent := series_mean (map fst recent) in
        let avg_adds_previous := series_mean (map fst previous) in
        let avg_value_recent := series_mean (map snd recent) in
        let avg_value_previous := series_mean (map snd previous) in
        let adds_ratio :=
          if fgt avg_adds_previous (Fin 0)
          then fdiv avg_adds_recent avg_adds_previous
          else Fin 0 in
        let share_delta := fsub avg_value_recent avg_value_previous in
        let rolling_corr := roll_corr 6 (map snd spine) (map fst spine) in
        match iloc_last rolling_corr with
        | None => None
        | Some recent_corr =>
            let detected :=
              fge share_delta (Fin POSTPAID_STRONG_SHARE_DELTA)
              && fge adds_ratio (Fin POSTPAID_STRONG_ADDS_RATIO)
              && fge recent_corr (Fin POSTPAID_STRONG_CORR) in
            Some [ ("segment", VStr "postpaid");
                   ("driver", VStr "value_mix_shift");
                   ("detected", VBool detected);
                   ("confidence", VStr (if detected then "high" else "low"));
                   ("metrics",
                    VDict [ ("adds_ratio", VFloat adds_ratio);
                            ("share_delta", VFloat share_delta);
                            ("recent_correlation", VFloat recent_corr);
                            ("avg_adds_previous", VFloat avg_adds_previous);
                            ("avg_adds_recent", VFloat avg_adds_recent);
                            ("value_share_previous", VFloat avg_value_previous);
                            ("value_share_recent", VFloat avg_value_recent) ]) ]
        end
  end.

Definition detect_subscription_drivers (master_df : list record) : option dict :=
  match _detect_prepaid_driver master_df, _detect_postpaid_driver master_df with
  | Some pre, Some post =>
      Some [ ("subscription_driver_analysis",
              VDict [ ("prepaid", VDict pre); ("postpaid", VDict post) ]) ]
  | _, _ => None
  end.

End Subscription.

(** ** run_full_analysis.py: the weekly frames of the alignment engine *)

Module FullAnalysis.

(** [load_orders_data]: the order key,
    [orderid.astype(str) + "_" + ordernumber.astype(str)], on the two
    columns as strings. *)
Definition make_order_key (orderid ordernumber : string) : string :=
  (orderid ++ "_" ++ ordernumber)%string.

(** [load_master_data]: the subscription id,
    [df[id_cols].astype(str).agg("|".join, axis=1)], on the four id
    columns as strings. *)
Definition make_unique_subscription_id
  (asset_msisdn asset_id account_id subscription_id : string) : string :=
  String.concat "|" [asset_msisdn; asset_id; account_id; subscription_id].

(** One row of the orders table, reduced to the columns
    [prepare_add_churn_driver_frames] reads.  [week_start] is missing
    (NaT) when the activation date could not be parsed; a text column
    can hold a missing value; [order_key] is a string. *)
Record order : Type := mk_order
  { week_start : option Z;
    order_key : string;
    segment__c : option string;
    vlocity_cmt__accountpaymenttype__c : option string;
    type : option string;
    account_classification_order : option string;
    vlocity_cmt__originatingchannel__c : option string;
    vlocity_cmt__reason__c : option string }.

(** [col == v] and [col.isin(vs)], element by element: false on a
    missing value. *)
Definition eq_str (x : option string) (v : string) : bool :=
  match x with
  | Some s => String.eqb s v
  | None => false
  end.

Definition isin (x : option string) (vs : list string) : bool :=
  match x with
  | Some s => existsb (String.eqb s) vs
  | None => false
  end.

(** [df.groupby("week_start")]: the group keys are the distinct weeks,
    ascending; a row without a week belongs to no group. *)
Fixpoint week_values (df : list order) : list Z :=
  match df with
  | [] => []
  | o :: r =>
      match week_start o with
      | Some w => w :: week_values r
      | None => week_values r
      end
  end.

Definition group_keys (df : list order) : list Z :=
  sort_values (fun w => w) (nodup Z.eq_dec (week_values df)).

Definition in_week (w : Z) (o : order) : bool :=
  match week_start o with
  | Some w' => (w' =? w)%Z
  | None => false
  end.

Definition group (w : Z) (df : list order) : list order :=
  filter (in_week w) df.

(** [df.groupby("week_start")["order_key"].nunique()], one count per
    group. *)
Definition nunique_keys (df : list order) : list nat :=
  map (fun w => length (nodup string_dec (map order_key (group w df))))
      (group_keys df).

(** [df.groupby("week_start")[col].apply(lambda x: flag(x).sum())]: the
    rows of each group that carry the flag. *)
Definition count_rows (flag : order -> bool) (df : list order) : list nat :=
  map (fun w => length (filter flag (group w df))) (group_keys df).

(** A weekly frame: the [week_start] column and the named count
    columns, in the order they are created. *)
Record frame : Type := mk_frame
  { week_col : list Z;
    columns : list (string * list nat) }.

Definition is_retail (o : order) : bool :=
  eq_str (vlocity_cmt__originatingchannel__c o) "Retail".

Definition is_portin (o : order) : bool :=
  eq_str (vlocity_cmt__reason__c o) "Port In".

Definition is_competitive (o : order) : bool :=
  isin (vlocity_cmt__reason__c o) ["Port Out"; "Competitive offer"].

Definition is_financial (o : order) : bool :=
  isin (vlocity_cmt__reason__c o) ["Non-Pay"; "Billing Cancel"; "Cutting back"].

(** The four selections of the orders table. *)
Definition adds_postpaid (orders : list order) : list order :=
  filter (fun o => eq_str (segment__c o) "B2C"
                   && eq_str (vlocity_cmt__accountpaymenttype__c o) "Postpaid"
                   && isin (type o) ["Sales"; "Add"]
                   && eq_str (account_classification_order o) "Prod Accounts")
         orders.

Definition churn_postpaid (orders : list order) : list order :=
  filter (fun o => eq_str (type o) "Disconnect"
                   && eq_str (vlocity_cmt__accountpaymenttype__c o) "Postpaid"
                   && eq_str (segment__c o) "B2C")
         orders.

Definition adds_prepaid (orders : list order) : list order :=
  filter (fun o => eq_str (segment__c o) "B2C"
                   && eq_str (vlocity_cmt__accountpaymenttype__c o) "Prepaid"
                   && isin (type o) ["Sales"; "Add"])
         orders.

Definition churn_prepaid (orders : list order) : list order :=
  filter (fun o => eq_str (type o) "Disconnect"
                   && eq_str (vlocity_cmt__accountpaymenttype__c o) "Prepaid"
                   && eq_str (segment__c o) "B2C")
         orders.

Definition prepare_add_churn_driver_frames (orders : list order)
  : frame * frame * frame * frame :=
  let weekly_postpaid_adds :=
    mk_frame (group_keys (adds_postpaid orders))
      [ ("adds", nunique_keys (adds_postpaid orders));
        ("is_retail", count_rows is_retail (adds_postpaid orders));
        ("is_portin", count_rows is_portin (adds_postpaid orders)) ] in
  let weekly_postpaid_churn :=
    mk_frame (group_keys (churn_postpaid orders))
      [ ("churn", nunique_keys (churn_postpaid orders));
        ("is_competitive", count_rows is_competitive (churn_postpaid orders));
        ("is_financial", count_rows is_financial (churn_postpaid orders)) ] in
  let weekly_prepaid_adds :=
    mk_frame (group_keys (adds_prepaid orders))
      [ ("adds", nunique_keys (adds_prepaid orders));
        ("is_portin", count_rows is_portin (adds_prepaid orders)) ] in
  let weekly_prepaid_churn :=
    mk_frame (group_keys (churn_prepaid orders))
      [ ("churn", nunique_keys (churn_prepaid orders));
        ("is_financial", count_rows is_financial (churn_prepaid orders)) ] in
  (weekly_postpaid_adds, weekly_postpaid_churn,
   weekly_prepaid_adds, weekly_prepaid_churn).

(** [df[name]]: [None] is the KeyError of a missing column. *)
Fixpoint column (name : string) (cols : list (string * list nat))
  : option (list nat) :=
  match cols with
  | [] => None
  | (k, c) :: r => if String.eqb name k then Some c else column name r
  end.

(** A frame as a check of the alignment engine reads it: the date
    column, the target column and the driver column it names. *)
Definition rows_of (target_col driver_col : string) (f : frame)
  : option (list AddChurn.row) :=
  match column target_col (columns f), column driver_col (columns f) with
  | Some t, Some d =>
      Some (map (fun p => AddChurn.mk_row (fst (fst p))
                            (Fin (count (snd (fst p))))
                            (Fin (count (snd p))))
              (combine (combine (week_col f) t) d))
  | _, _ => None
  end.

(** The driver analysis of [run_full_analysis]: the frames are prepared
    and handed to the four checks, each reading its columns.  The fourth
    check reads no column. *)
Definition add_churn_drivers (orders : list order) : option dict :=
  let '(postpaid_add_df, postpaid_churn_df, prepaid_add_df, prepaid_churn_df) :=
    prepare_add_churn_driver_frames orders in
  match rows_of "adds" "is_retail" postpaid_add_df,
        rows_of "churn" "is_competitive" postpaid_churn_df,
        rows_of "adds" "is_portin" prepaid_add_df,
        rows_of "churn" "is_financial" prepaid_churn_df with
  | Some pa, Some pc, Some ra, Some rc =>
      AddChurn.detect_add_churn_drivers pa pc ra rc
  | _, _, _, _ => None
  end.

End FullAnalysis.

(** ** run_subscription_forecast.py and run_add_churn_forecast.py *)

Module Forecast.

(** Dates are day numbers.  The pickled payload and the clock
    ([pd.Timestamp.today().normalize()]) are arguments of the runners;
    [horizon_days] is a number of days. *)

(** A fitted model, as far as the runners use it:
    [model.forecast(steps=n)], the values it predicts for the next [n]
    days. *)
Definition model : Type := nat -> list float.

(** [pd.date_range(start, periods, freq="D")] *)
Definition date_range (start : Z) (periods : nat) : list Z :=
  map (fun i => (start + Z.of_nat i)%Z) (seq 0 periods).

(** [(today - last_train_date).days], raised to zero when negative. *)
Definition gap_days (last_train_date today : Z) : nat :=
  let gap := (today - last_train_date)%Z in
  Z.to_nat (if (gap <? 0)%Z then 0%Z else gap).

Record subscription_payload : Type := mk_subscription_payload
  { prepaid_model : model;
    postpaid_model : model;
    sub_last_train_date : Z }.

Record subscription_row : Type := mk_subscription_row
  { sub_date : Z;
    prepaid_forecast : float;
    postpaid_forecast : float;
    total_forecast : float }.

(** [None] is the ValueError of [pd.DataFrame] on columns of different
    lengths. *)
Definition run_subscription_forecast
  (payload : subscription_payload) (today : Z) (horizon_days : nat)
  : option (list subscription_row) :=
  let last_train_date := sub_last_train_date payload in
  let steps_needed := (gap_days last_train_date today + horizon_days)%nat in
  let prepaid_forecast_full := prepaid_model payload steps_needed in
  let postpaid_forecast_full := postpaid_model payload steps_needed in
  let forecast_index := date_range (last_train_date + 1) steps_needed in
  if ((length prepaid_forecast_full =? length forecast_index)
      && (length postpaid_forecast_full =? length forecast_index))%nat
  then
    let forecast_df :=
      map (fun p => mk_subscription_row (fst (fst p)) (snd (fst p)) (snd p)
                      (fadd (snd (fst p)) (snd p)))
          (combine (combine forecast_index prepaid_forecast_full)
             postpaid_forecast_full) in
    Some (tail horizon_days forecast_df)
  else None.

Record add_churn_payload : Type := mk_add_churn_payload
  { prepaid_adds_model : model;
    prepaid_churn_model : model;
    postpaid_adds_model : model;
    postpaid_churn_model : model;
    ac_last_train_date : Z }.

Record add_churn_row : Type := mk_add_churn_row
  { ac_date : Z;
    prepaid_adds_forecast : float;
    prepaid_churn_forecast : float;
    postpaid_adds_forecast : float;
    postpaid_churn_forecast : float }.

Definition run_add_churn_forecast
  (payload : add_churn_payload) (today : Z) (horizon_days : nat)
  : option (list add_churn_row) :=
  let last_train_date := ac_last_train_date payload in
  let steps_needed := (gap_days last_train_date today + horizon_days)%nat in
  let prepaid_adds := prepaid_adds_model payload steps_needed in
  let prepaid_churn := prepaid_churn_model payload steps_needed in
  let postpaid_adds := postpaid_adds_model payload steps_needed in
  let postpaid_churn := postpaid_churn_model payload steps_needed in
  let forecast_index := date_range (last_train_date + 1) steps_needed in
  if ((length prepaid_adds =? length forecast_index)
      && (length prepaid_churn =? length forecast_index)
      && (length postpaid_adds =? length forecast_index)
      && (length postpaid_churn =? length forecast_index))%nat
  then
    let forecast_df :=
      map (fun p =>
             mk_add_churn_row (fst (fst (fst (fst p)))) (snd (fst (fst (fst p))))
               (snd (fst (fst p))) (snd (fst p)) (snd p))
          (combine (combine (combine (combine forecast_index prepaid_adds)
                               prepaid_churn) postpaid_adds) postpaid_churn) in
    Some (tail horizon_days forecast_df)
  else None.

End Forecast.

(** ** Reading results, and the words of the specification *)

Fixpoint dict_path (ks : list string) (v : pyval) : option pyval :=
  match ks with
  | [] => Some v
  | k :: r =>
      match v with
      | VDict d =>
          match dict_get k d with
          | Some v' => dict_path r v'
          | None => None
          end
      | _ => None
      end
  end.

(** The metric [k] is present in [m], is a number, and is at least [t]. *)
Definition metric_ge (m : dict) (k : string) (t : R) : Prop :=
  exists x, dict_get k m = Some (VFloat (Fin x)) /\ t <= x.

Definition is_confidence (v : pyval) : Prop :=
  v = VStr "high" \/ v = VStr "medium" \/ v = VStr "low".

(** A null metric: Python [None] or NaN. *)
Definition is_null (x : option float) : Prop := x = None \/ x = Some NaN.

(** The two components of the alignment score as the specification
    words them. *)
Definition spec_corr_component (corr : option float) : R :=
  match corr with
  | Some (Fin c) => (c + 1) / 2
  | _ => 0
  end.

Definition clamp01 (s : R) : R :=
  if Rlt_dec s 0 then 0 else if Rlt_dec 1 s then 1 else s.

Definition spec_share_component (share : option float) : R :=
  match share with
  | Some (Fin s) => clamp01 s
  | _ => 0
  end.

(** The three checks of the alignment engine that build a spine, and the
    constant result of the fourth. *)
Definition spine_checks : list (list AddChurn.row -> option dict) :=
  [ AddChurn._detect_postpaid_add_driver;
    AddChurn._detect_postpaid_churn_driver;
    AddChurn._detect_prepaid_add_driver ].

Definition no_driver_stub : dict :=
  [ ("driver", VStr "no_structural_driver_detected");
    ("aligned", VBool false);
    ("confidence", VStr "low");
    ("metrics", VDict []) ].

(** [t] is the driver column scaled by [k], NaN where the driver is. *)
Definition scale (k : R) (x : float) : float :=
  match x with
  | NaN => NaN
  | Fin d => Fin (k * d)
  end.


(** All the values of a window are equal. *)
Definition constant_window (win : list float) : Prop :=
  forall x y, In x win -> In y win -> x = y.

(** The two variants of the regime-shift check and their thresholds. *)
Inductive variant : Type :=
| Premium : variant
| ValueMix : variant.

Definition regime_check (v : variant)
  : list Subscription.record -> option dict :=
  match v with
  | Premium => Subscription._detect_prepaid_driver
  | ValueMix => Subscription._detect_postpaid_driver
  end.

Definition share_delta_threshold (v : variant) : R :=
  match v with Premium => 10 / 100 | ValueMix => 5 / 100 end.

Definition adds_ratio_threshold (v : variant) : R :=
  match v with Premium => 12 / 10 | ValueMix => 12 / 10 end.

Definition corr_threshold (v : variant) : R :=
  match v with Premium => 6 / 10 | ValueMix => 5 / 10 end.

(** The segment a variant reads. *)
Definition segment_of (v : variant) : string :=
  match v with Premium => "prepaid" | ValueMix => "postpaid" end.


Fixpoint all_digits (s : string) : bool :=
  match s with
  | EmptyString => true
  | String c r => is_digit c && all_digits r
  end.

Definition gb_match_at (s pre ds : string) : Prop :=
  ds <> EmptyString /\ all_digits ds = true
  /\ exists post, s = (pre ++ ds ++ "gb" ++ post)%string.

(** The match [re.search] reports: no other match starts further left,
    and none at the same place is longer. *)
Definition first_gb_match (s ds : string) : Prop :=
  exists pre,
    gb_match_at s pre ds
    /\ forall pre' ds', gb_match_at s pre' ds' ->
         (String.length pre < String.length pre'
          \/ (String.length pre = String.length pre'
              /\ String.length ds' <= String.length ds))%nat.

(** The two shapes a result of the regime-shift engine can take. *)
Definition early_result (seg : string) (r : dict) : Prop :=
  exists reason,
    r = [ ("segment", VStr seg); ("detected", VBool false);
          ("reason", VStr reason) ].

Definition full_result (seg name : string) (t_share t_adds t_corr : R)
  (r : dict) : Prop :=
  exists share_delta adds_ratio recent_corr m,
    let detected :=
      fge share_delta (Fin t_share) && fge adds_ratio (Fin t_adds)
      && fge recent_corr (Fin t_corr) in
    r = [ ("segment", VStr seg); ("driver", VStr name);
          ("detected", VBool detected);
          ("confidence", VStr (if detected then "high" else "low"));
          ("metrics",
           VDict (("adds_ratio", VFloat adds_ratio)
                  :: ("share_delta", VFloat share_delta)
                  :: ("recent_correlation", VFloat recent_corr) :: m)) ]
    /\ dict_get "adds_ratio" m = None
    /\ dict_get "share_delta" m = None
    /\ dict_get "recent_correlation" m = None.

(** The four checks of the alignment engine. *)
Inductive add_churn_check : Type :=
| PostpaidAdds : add_churn_check
| PostpaidChurn : add_churn_check
| PrepaidAdds : add_churn_check
| PrepaidChurn : add_churn_check.

Definition run_add_churn_check (c : add_churn_check)
  : list AddChurn.row -> option dict :=
  match c with
  | PostpaidAdds => AddChurn._detect_postpaid_add_driver
  | PostpaidChurn => AddChurn._detect_postpaid_churn_driver
  | PrepaidAdds => AddChurn._detect_prepaid_add_driver
  | PrepaidChurn => AddChurn._detect_prepaid_churn_driver
  end.

(** The character [c] occurs in [s]. *)
Fixpoint occurs (c : ascii) (s : string) : bool :=
  match s with
  | EmptyString => false
  | String a r => Ascii.eqb a c || occurs c r
  end.

(** The selection of orders behind each entry of the driver analysis,
    the flag its driver column counts, and the place of the entry in
    the result. *)
Definition selection (c : add_churn_check)
  : list FullAnalysis.order -> list FullAnalysis.order :=
  match c with
  | PostpaidAdds => FullAnalysis.adds_postpaid
  | PostpaidChurn => FullAnalysis.churn_postpaid
  | PrepaidAdds => FullAnalysis.adds_prepaid
  | PrepaidChurn => FullAnalysis.churn_prepaid
  end.

Definition result_path (c : add_churn_check) : list string :=
  "add_churn_driver_analysis"
  :: match c with
     | PostpaidAdds => ["postpaid"; "adds"]
     | PostpaidChurn => ["postpaid"; "churn"]
     | PrepaidAdds => ["prepaid"; "adds"]
     | PrepaidChurn => ["prepaid"; "churn"]
     end.
(** The rows a check reads from the frame prepared from a selection
    [df] of orders: one row per week, the target the number of distinct
    order keys, the driver the number of rows with [flag]. *)
Definition weekly_rows (flag : FullAnalysis.order -> bool)
  (df : list FullAnalysis.order) : list AddChurn.row :=
  map (fun w =>
         AddChurn.mk_row w
           (Fin (count (length (nodup string_dec
                                  (map FullAnalysis.order_key
                                     (FullAnalysis.group w df))))))
           (Fin (count (length (filter flag (FullAnalysis.group w df))))))
      (FullAnalysis.group_keys df).

Definition driver_flag (c : add_churn_check) : FullAnalysis.order -> bool :=
  match c with
  | PostpaidAdds => FullAnalysis.is_retail
  | PostpaidChurn => FullAnalysis.is_competitive
  | PrepaidAdds => FullAnalysis.is_portin
  | PrepaidChurn => FullAnalysis.is_financial
  end.

(** ** Sample tables *)

(** [n] consecutive weeks; week [i] (from 1) has target [t i] and driver
    [d i]. *)
Definition weekly_table (n : nat) (t d : Z -> Z) : list AddChurn.row :=
  map (fun i => AddChurn.mk_row (Z.of_nat i)
                  (Fin (IZR (t (Z.of_nat i)))) (Fin (IZR (d (Z.of_nat i)))))
      (seq 1 n).

(** Fourteen weeks: eleven rows are left after smoothing. *)
Definition short_table : list AddChurn.row :=
  weekly_table 14 (fun _ => 10%Z) (fun _ => 2%Z).


(** Fifteen weeks of a growing series, the target twice the driver. *)
Definition growing_table : list AddChurn.row :=
  weekly_table 15 (fun i => (2 * i)%Z) (fun i => i).

(** Fifteen weeks of a growing series, the driver a twentieth of the
    target. *)
Definition thin_driver_table : list AddChurn.row :=
  weekly_table 15 (fun i => (20 * i)%Z) (fun i => i).

(** Eleven weeks of prepaid records, one unlimited plan sold each week:
    eight rows are left after smoothing, all in the premium regime. *)
Definition premium_weeks : list Subscription.record :=
  map (fun i => Subscription.mk_record (Z.of_nat i) "s1"
                  (Some "Unlimited Plan") "prepaid")
      (seq 1 11).

(** Nineteen weeks of postpaid records, one value plan sold each week:
    sixteen rows are left after smoothing. *)
Definition value_weeks : list Subscription.record :=
  map (fun i => Subscription.mk_record (Z.of_nat i) "p1"
                  (Some "Basic Saver") "postpaid")
      (seq 1 19).

(** Orders, one a week for [n] weeks: postpaid retail sales of B2C
    production accounts, each with a key of its own. *)
Definition weekly_orders (n : nat) : list FullAnalysis.order :=
  map (fun i => FullAnalysis.mk_order (Some (Z.of_nat i))
                  (String (ascii_of_nat (64 + i)) EmptyString)
                  (Some "B2C") (Some "Postpaid") (Some "Sales")
                  (Some "Prod Accounts") (Some "Retail") (Some "Port In"))
      (seq 1 n).

Definition sample_orders : list FullAnalysis.order := weekly_orders 15.

(** An order whose activation date could not be parsed. *)
Definition undated_order : FullAnalysis.order :=
  FullAnalysis.mk_order None "Z" (Some "B2C") (Some "Postpaid") (Some "Sales")
    (Some "Prod Accounts") (Some "Retail") None.

(** One order entered on two rows of the same week. *)
Definition two_row_order : list FullAnalysis.order :=
  [ FullAnalysis.mk_order (Some 1%Z) "A" (Some "B2C") (Some "Postpaid")
      (Some "Sales") (Some "Prod Accounts") (Some "Retail") None;
    FullAnalysis.mk_order (Some 1%Z) "A" (Some "B2C") (Some "Postpaid")
      (Some "Sales") (Some "Prod Accounts") (Some "Retail") None ].

(** A model that predicts the number of the step, and payloads trained
    up to day 100. *)
Definition counting_model : Forecast.model :=
  fun n => map (fun i => Fin (IZR (Z.of_nat i))) (seq 1 n).

Definition sample_subscription_payload : Forecast.subscription_payload :=
  Forecast.mk_subscription_payload counting_model counting_model 100.

Definition sample_add_churn_payload : Forecast.add_churn_payload :=
  Forecast.mk_add_churn_payload counting_model counting_model counting_model
    counting_model 100.

(** * Properties *)

(** ** Floats *)

Lemma R_leb_true (x y : R) : R_leb x y = true <-> x <= y.
Proof. unfold R_leb. destruct (Rle_dec x y); split; intros; try easy. Qed.


Lemma R_eqb_true (x y : R) : R_eqb x y = true <-> x = y.
Proof. unfold R_eqb. destruct (Req_dec_T x y); split; intros; try easy. Qed.

Lemma R_eqb_refl (x : R) : R_eqb x x = true.
Proof. now apply R_eqb_true. Qed.

Lemma R_eqb_neq (x y : R) : x <> y -> R_eqb x y = false.
Proof. unfold R_eqb. destruct (Req_dec_T x y); intros; easy. Qed.

Lemma R_leb_false (x y : R) : R_leb x y = false <-> y < x.
Proof.
  unfold R_leb. destruct (Rle_dec x y); split; intros; try easy; lra.
Qed.

Lemma fge_true (a : float) (t : R) :
  fge a (Fin t) = true <-> exists x, a = Fin x /\ t <= x.
Proof.
  destruct a as [|x]; simpl.
  - split; [discriminate | intros [x [H _]]; discriminate].
  - rewrite R_leb_true. split.
    + intros H. now exists x.
    + intros [y [H Hy]]. now inversion H; subst.
Qed.

Lemma fge_flt_false (a : float) (t : R) :
  fge a (Fin t) = true -> flt a (Fin t) = false.
Proof.
  destruct a as [|x]; simpl; [easy|].
  rewrite R_leb_true. unfold R_ltb. destruct (Rlt_dec x t); [lra | easy].
Qed.

(** Decide the comparisons of reals that are left in a goal once the
    structure of a concrete table has been computed. *)
Ltac plain_real t :=
  lazymatch t with
  | context [Rle_dec _ _] => fail
  | context [Rlt_dec _ _] => fail
  | context [Req_dec_T _ _] => fail
  | _ => idtac
  end.

Ltac r_decide :=
  repeat match goal with
    | |- context [Rle_dec ?a ?b] =>
        plain_real a; plain_real b; destruct (Rle_dec a b); try lra
    | |- context [Rlt_dec ?a ?b] =>
        plain_real a; plain_real b; destruct (Rlt_dec a b); try lra
    | |- context [Req_dec_T ?a ?b] =>
        plain_real a; plain_real b; destruct (Req_dec_T a b); try lra
    end.

Ltac r_compute :=
  cbv -[Rplus Rmult Rdiv Rminus Rinv Ropp sqrt IZR INR Rle_dec Rlt_dec Req_dec_T
        Rmin Rmax].

(** ** The alignment score (C3) *)

Lemma clamp01_min_max (s : R) : Rmin (Rmax s 0) 1 = clamp01 s.
Proof.
  unfold clamp01, Rmin, Rmax. r_decide; lra.
Qed.

Lemma clamp01_bounds (s : R) : 0 <= clamp01 s <= 1.
Proof. unfold clamp01. r_decide; lra. Qed.

Lemma alignment_score_formula (corr share : option float) :
  AddChurn._alignment_score corr share
  = Fin (7 / 10 * spec_corr_component corr
         + 3 / 10 * spec_share_component share).
Proof.
  unfold AddChurn._alignment_score.
  destruct corr as [[|c]|]; destruct share as [[|s]|]; simpl;
    rewrite ?clamp01_min_max; reflexivity.
Qed.

(** C3 (as amended).  The alignment score is
    0.7 * corr_component + 0.3 * share_component, with corr_component
    (corr + 1) / 2 and share_component the share clamped to [0, 1], both 0
    on a null input.  When the correlation is null or lies in [-1, 1] the
    score lies in [0, 1], whatever the share; it is exactly 0 when both
    inputs are null. *)
Theorem alignment_score_bounded (corr share : option float) :
  (forall c, corr = Some (Fin c) -> -1 <= c <= 1) ->
  exists x,
    AddChurn._alignment_score corr share = Fin x
    /\ x = 7 / 10 * spec_corr_component corr
           + 3 / 10 * spec_share_component share
    /\ 0 <= x <= 1
    /\ (is_null corr -> is_null share -> x = 0).
Proof.
  intros Hc. eexists. split; [apply alignment_score_formula|].
  split; [reflexivity|]. split.
  - assert (Hs : 0 <= spec_share_component share <= 1).
    { destruct share as [[|s]|]; simpl; try lra. apply clamp01_bounds. }
    assert (Hcc : 0 <= spec_corr_component corr <= 1).
    { destruct corr as [[|c]|]; simpl; try lra.
      specialize (Hc c eq_refl). lra. }
    lra.
  - intros [-> | ->] [-> | ->]; simpl; lra.
Qed.

Lemma alignment_score_bounded_witness :
  exists x,
    AddChurn._alignment_score (Some (Fin 1)) (Some (Fin (1 / 2))) = Fin x
    /\ x = 7 / 10 * spec_corr_component (Some (Fin 1))
           + 3 / 10 * spec_share_component (Some (Fin (1 / 2)))
    /\ 0 <= x <= 1
    /\ (is_null (Some (Fin 1)) -> is_null (Some (Fin (1 / 2))) -> x = 0).
Proof.
  apply (alignment_score_bounded (Some (Fin 1)) (Some (Fin (1 / 2)))).
  intros c H. inversion H. lra.
Defined.

(** The bound fails for a finite correlation input outside [-1, 1]:
    the score of corr = 3, share = 0 is 1.4. *)
Lemma alignment_score_above_one :
  AddChurn._alignment_score (Some (Fin 3)) (Some (Fin 0)) = Fin (14 / 10)
  /\ ~ (0 <= 14 / 10 <= 1).
Proof.
  split; [|lra].
  rewrite alignment_score_formula. simpl. f_equal.
  unfold clamp01. r_decide; lra.
Qed.

(** ** Lists and columns *)

Lemma map2_length {A B C : Type} (f : A -> B -> C) (xs : list A) (ys : list B) :
  length (map2 f xs ys) = Nat.min (length xs) (length ys).
Proof.
  revert ys. induction xs as [|x xs IH]; intros [|y ys]; simpl; auto.
Qed.


Lemma rolling_length {A : Type} (w : nat) (agg : list A -> float) (xs : list A) :
  length (rolling w agg xs) = length xs.
Proof. unfold rolling. now rewrite length_map, length_seq. Qed.

Lemma rolling_nth {A : Type} (w : nat) (agg : list A -> float) (xs : list A)
  (i : nat) :
  (i < length xs)%nat ->
  nth i (rolling w agg xs) NaN
  = match window_at w i xs with Some win => agg win | None => NaN end.
Proof.
  intros Hi. unfold rolling.
  set (F := fun i => match window_at w i xs with
                     | Some win => agg win
                     | None => NaN
                     end).
  rewrite nth_indep with (d' := F 0%nat)
    by now rewrite length_map, length_seq.
  rewrite map_nth. now rewrite seq_nth.
Qed.

Lemma iloc_last_some {A : Type} (xs : list A) :
  xs <> [] -> exists x, iloc_last xs = Some x /\ In x xs.
Proof.
  intros H. unfold iloc_last.
  destruct (rev xs) as [|x r] eqn:E.
  - apply (f_equal (@rev A)) in E. rewrite rev_involutive in E. now subst.
  - exists x. split; [reflexivity|].
    apply in_rev. rewrite E. now left.
Qed.

Lemma length_pos_nonnil {A : Type} (xs : list A) :
  (0 < length xs)%nat -> xs <> [].
Proof. destruct xs; simpl; [lia | discriminate]. Qed.

Lemma tail_incl {A : Type} (n : nat) (xs : list A) (x : A) :
  In x (tail n xs) -> In x xs.
Proof.
  unfold tail. intros H.
  rewrite <- (firstn_skipn (length xs - n) xs). apply in_or_app. now right.
Qed.

(** ** Results of the alignment engine *)

Section AlignmentResults.

Import AddChurn.

Lemma metric_float_or_none (a : float) (t : R) :
  (exists x, Some (float_or_none a) = Some (VFloat (Fin x)) /\ t <= x)
  <-> fge a (Fin t) = true.
Proof.
  rewrite fge_true. destruct a as [|y]; unfold float_or_none; simpl.
  - split; intros [x [H _]]; discriminate.
  - split; intros [x [H Hx]]; exists x; split; auto; congruence.
Qed.

Lemma metric_float (a : float) (t : R) :
  (exists x, Some (VFloat a) = Some (VFloat (Fin x)) /\ t <= x)
  <-> fge a (Fin t) = true.
Proof.
  rewrite fge_true.
  split; intros [x [H Hx]]; exists x; split; auto; congruence.
Qed.

Lemma smoothed_rows_fin (df : list row) (p : float * float) :
  In p (smoothed_rows df) -> exists t d, p = (Fin t, Fin d).
Proof.
  unfold smoothed_rows, dropna_rw. intros H.
  apply filter_In in H. destruct H as [_ H].
  destruct p as [[|t] [|d]]; simpl in H; try discriminate.
  now exists t, d.
Qed.

Lemma build_spine_none (df : list row) :
  (length (smoothed_rows df) < MIN_POINTS)%nat -> _build_spine df = None.
Proof.
  intros H. unfold _build_spine.
  apply Nat.ltb_lt in H. now rewrite H.
Qed.

Lemma build_spine_some (df : list row) :
  (MIN_POINTS <= length (smoothed_rows df))%nat ->
  _build_spine df
  = Some (mk_spine (map fst (smoothed_rows df)) (map snd (smoothed_rows df))
            (map2 _safe_div (map snd (smoothed_rows df))
               (map fst (smoothed_rows df)))
            (roll_corr CORR_WINDOW (map snd (smoothed_rows df))
               (map fst (smoothed_rows df)))).
Proof.
  intros H. unfold _build_spine.
  apply Nat.ltb_ge in H. now rewrite H.
Qed.

Lemma build_spine_inv (df : list row) (s : spine) :
  _build_spine df = Some s ->
  (MIN_POINTS <= length (smoothed_rows df))%nat
  /\ target_rw s = map fst (smoothed_rows df)
  /\ driver_rw s = map snd (smoothed_rows df)
  /\ driver_share s = map2 _safe_div (driver_rw s) (target_rw s)
  /\ rolling_corr s = roll_corr CORR_WINDOW (driver_rw s) (target_rw s).
Proof.
  unfold _build_spine.
  destruct (length (smoothed_rows df) <? MIN_POINTS)%nat eqn:E;
    [discriminate|].
  apply Nat.ltb_ge in E. intros H. inversion H; subst; simpl. auto.
Qed.

Lemma build_spine_lengths (df : list row) (s : spine) :
  _build_spine df = Some s ->
  (MIN_POINTS <= len s)%nat
  /\ length (driver_rw s) = len s
  /\ length (driver_share s) = len s
  /\ length (rolling_corr s) = len s.
Proof.
  intros H. apply build_spine_inv in H.
  destruct H as (Hn & Ht & Hd & Hs & Hc). unfold len.
  assert (L : length (driver_rw s) = length (target_rw s))
    by now rewrite Ht, Hd, !length_map.
  rewrite Hs, Hc at 1. unfold roll_corr.
  rewrite map2_length, rolling_length, length_combine, L, Nat.min_id.
  rewrite Ht at 1. rewrite length_map. auto.
Qed.

(** What [_summarize_alignment] returns on a spine with at least one
    row: the classification agrees with the three gates read on the
    metrics it reports. *)
Lemma summarize_facts (s : spine) :
  driver_share s <> [] ->
  exists a c m,
    _summarize_alignment s = Some (a, c, m)
    /\ (a = true <->
        metric_ge m "corr_recent_avg" CORR_ALIGNED
        /\ metric_ge m "share_recent_avg" SHARE_MIN
        /\ metric_ge m "alignment_score" SCORE_ALIGNED)
    /\ (c = "high" \/ c = "medium" \/ c = "low")
    /\ (a = false -> c = "low").
Proof.
  intros Hne. unfold _summarize_alignment.
  destruct (iloc_last_some _ Hne) as [sl [-> _]].
  set (avg := if (CORR_WINDOW <=? len s)%nat
              then series_mean (tail CORR_WINDOW (rolling_corr s))
              else series_mean (rolling_corr s)).
  set (sh := if (CORR_WINDOW <=? len s)%nat
             then series_mean (tail CORR_WINDOW (driver_share s))
             else series_mean (driver_share s)).
  set (score := _alignment_score (Some avg) (Some sh)).
  set (a := fge avg (Fin CORR_ALIGNED) && fge sh (Fin SHARE_MIN)
            && fge score (Fin SCORE_ALIGNED)).
  eexists a, _, _. split; [reflexivity|]. split; [|split].
  - unfold metric_ge. simpl dict_get.
    rewrite !metric_float_or_none, metric_float.
    unfold a. rewrite !andb_true_iff. tauto.
  - clearbody a. destruct a, (fge score (Fin (80 / 100))); simpl; auto.
  - intros ->. reflexivity.
Qed.

Lemma detect_with_insufficient (name : string) (df : list row) :
  (length (smoothed_rows df) < MIN_POINTS)%nat ->
  detect_with name df
  = Some [ ("driver", VStr name); ("aligned", VBool false);
           ("confidence", VStr "low"); ("reason", VStr "Insufficient data") ].
Proof.
  intros H. unfold detect_with. now rewrite (build_spine_none _ H).
Qed.

Lemma detect_with_sufficient (name : string) (df : list row) (s : spine) :
  _build_spine df = Some s ->
  exists a c m,
    _summarize_alignment s = Some (a, c, m)
    /\ detect_with name df
       = Some [ ("driver", VStr name); ("aligned", VBool a);
                ("confidence", VStr c); ("metrics", VDict m) ].
Proof.
  intros H. unfold detect_with. rewrite H.
  destruct (build_spine_lengths _ _ H) as (Hn & _ & Hs & _).
  assert (Hne : driver_share s <> []).
  { apply length_pos_nonnil. rewrite Hs. unfold MIN_POINTS in Hn. lia. }
  destruct (summarize_facts s Hne) as (a & c & m & E & _).
  exists a, c, m. now rewrite E.
Qed.

Lemma spine_checks_detect_with (check : list row -> option dict) :
  In check spine_checks -> exists name, check = detect_with name.
Proof.
  unfold spine_checks. simpl.
  intros [<- | [<- | [<- | []]]]; eexists; reflexivity.
Qed.

End AlignmentResults.

Section AlignmentClaims.

Import AddChurn.

Lemma detect_with_total (name : string) (df : list row) :
  exists r, detect_with name df = Some r
            /\ dict_get "driver" r = Some (VStr name)
            /\ (exists c, dict_get "confidence" r = Some c /\ is_confidence c).
Proof.
  destruct (Nat.lt_ge_cases (length (smoothed_rows df)) MIN_POINTS) as [H|H].
  - rewrite (detect_with_insufficient name df H). eexists.
    split; [reflexivity|]. split; [reflexivity|].
    eexists. split; [reflexivity|]. unfold is_confidence. auto.
  - pose proof (build_spine_some df H) as E.
    destruct (detect_with_sufficient name df _ E) as (a & c & m & Es & ->).
    eexists. split; [reflexivity|]. split; [reflexivity|].
    exists (VStr c). split; [reflexivity|].
    destruct (build_spine_lengths _ _ E) as (Hn & _ & Hs & _).
    assert (Hne : driver_share
                    (mk_spine (map fst (smoothed_rows df))
                       (map snd (smoothed_rows df))
                       (map2 _safe_div (map snd (smoothed_rows df))
                          (map fst (smoothed_rows df)))
                       (roll_corr CORR_WINDOW (map snd (smoothed_rows df))
                          (map fst (smoothed_rows df)))) <> []).
    { apply length_pos_nonnil. rewrite Hs. unfold MIN_POINTS in Hn. lia. }
    destruct (summarize_facts _ Hne) as (a' & c' & m' & E' & _ & Hc & _).
    rewrite E' in Es. inversion Es; subst.
    unfold is_confidence. destruct Hc as [-> | [-> | ->]]; auto.
Qed.

(** C4.  When fewer than MIN_POINTS (12) rows are left once the 4-week
    rolling sums are computed and the undefined rows dropped, each of
    the three spine-based checks returns (and does not raise) a result
    with aligned = false, confidence = "low", a reason string and no
    metrics field.  A table that leaves at least MIN_POINTS rows gets a
    result of the other shape: metrics and no reason. *)
Theorem insufficient_data_result
  (check : list row -> option dict) (df : list row) :
  In check spine_checks ->
  (length (smoothed_rows df) < MIN_POINTS)%nat ->
  (exists r,
      check df = Some r
      /\ dict_get "aligned" r = Some (VBool false)
      /\ dict_get "confidence" r = Some (VStr "low")
      /\ (exists reason, dict_get "reason" r = Some (VStr reason))
      /\ dict_get "metrics" r = None)
  /\ (forall df',
         (MIN_POINTS <= length (smoothed_rows df'))%nat ->
         exists r' m,
           check df' = Some r'
           /\ dict_get "metrics" r' = Some (VDict m)
           /\ dict_get "reason" r' = None).
Proof.
  intros Hc Hlen. destruct (spine_checks_detect_with _ Hc) as [name ->].
  split.
  - rewrite (detect_with_insufficient name df Hlen).
    eexists. split; [reflexivity|]. repeat split; try reflexivity.
    eexists. reflexivity.
  - intros df' H'. pose proof (build_spine_some df' H') as E.
    destruct (detect_with_sufficient name df' _ E) as (a & c & m & _ & ->).
    exists [ ("driver", VStr name); ("aligned", VBool a);
             ("confidence", VStr c); ("metrics", VDict m) ], m.
    repeat split; reflexivity.
Qed.

Lemma short_table_rows : (length (smoothed_rows short_table) < MIN_POINTS)%nat.
Proof. r_compute. lia. Qed.

Lemma insufficient_data_result_witness :
  (exists r,
      _detect_postpaid_add_driver short_table = Some r
      /\ dict_get "aligned" r = Some (VBool false)
      /\ dict_get "confidence" r = Some (VStr "low")
      /\ (exists reason, dict_get "reason" r = Some (VStr reason))
      /\ dict_get "metrics" r = None)
  /\ (forall df',
         (MIN_POINTS <= length (smoothed_rows df'))%nat ->
         exists r' m,
           _detect_postpaid_add_driver df' = Some r'
           /\ dict_get "metrics" r' = Some (VDict m)
           /\ dict_get "reason" r' = None).
Proof.
  apply (insufficient_data_result _detect_postpaid_add_driver short_table).
  - simpl. auto.
  - exact short_table_rows.
Defined.


Lemma growing_table_rows :
  (MIN_POINTS <= length (smoothed_rows growing_table))%nat.
Proof. r_compute. lia. Qed.



Lemma thin_driver_table_rows :
  (MIN_POINTS <= length (smoothed_rows thin_driver_table))%nat.
Proof. r_compute. lia. Qed.


(** C9.  Whatever the four input tables, [detect_add_churn_drivers]
    returns a composite whose prepaid churn entry is the constant stub:
    driver = "no_structural_driver_detected", aligned = false,
    confidence = "low", metrics = {}. *)
Theorem prepaid_churn_is_stub
  (postpaid_add_df postpaid_churn_df prepaid_add_df prepaid_churn_df : list row) :
  exists r,
    detect_add_churn_drivers postpaid_add_df postpaid_churn_df
      prepaid_add_df prepaid_churn_df = Some r
    /\ dict_path ["add_churn_driver_analysis"; "prepaid"; "churn"] (VDict r)
       = Some (VDict no_driver_stub)
    /\ _detect_prepaid_churn_driver prepaid_churn_df = Some no_driver_stub
    /\ dict_get "driver" no_driver_stub
       = Some (VStr "no_structural_driver_detected")
    /\ dict_get "aligned" no_driver_stub = Some (VBool false)
    /\ dict_get "confidence" no_driver_stub = Some (VStr "low")
    /\ dict_get "metrics" no_driver_stub = Some (VDict []).
Proof.
  unfold detect_add_churn_drivers, _detect_postpaid_add_driver,
    _detect_postpaid_churn_driver, _detect_prepaid_add_driver.
  destruct (detect_with_total "retail_add_growth" postpaid_add_df)
    as (r1 & -> & _).
  destruct (detect_with_total "competitive_churn_spike" postpaid_churn_df)
    as (r2 & -> & _).
  destruct (detect_with_total "portin_add_growth" prepaid_add_df)
    as (r3 & -> & _).
  eexists. split; [reflexivity|]. repeat split; reflexivity.
Qed.

End AlignmentClaims.

(** ** Results of the regime-shift engine *)

Section RegimeResults.

Import Subscription.

Lemma roll_corr_length (w : nat) (xs ys : list float) :
  length (roll_corr w xs ys) = Nat.min (length xs) (length ys).
Proof. unfold roll_corr. now rewrite rolling_length, length_combine. Qed.

Lemma roll_corr_spine_last (w : nat) (spine : list (float * float)) :
  (0 < length spine)%nat ->
  exists c, iloc_last (roll_corr w (map snd spine) (map fst spine)) = Some c.
Proof.
  intros H.
  destruct (iloc_last_some (roll_corr w (map snd spine) (map fst spine)))
    as [c [E _]].
  - apply length_pos_nonnil.
    rewrite roll_corr_length, !length_map, Nat.min_id. exact H.
  - now exists c.
Qed.

Lemma prepaid_empty (master_df : list record) :
  segment_rows "prepaid" master_df = [] ->
  _detect_prepaid_driver master_df
  = Some [ ("segment", VStr "prepaid"); ("detected", VBool false);
           ("reason", VStr "No prepaid data") ].
Proof. intros H. unfold _detect_prepaid_driver. now rewrite H. Qed.

Lemma prepaid_short (master_df : list record) :
  segment_rows "prepaid" master_df <> [] ->
  (length (high_spine (segment_rows "prepaid" master_df)) < 8)%nat ->
  _detect_prepaid_driver master_df
  = Some [ ("segment", VStr "prepaid"); ("detected", VBool false);
           ("reason", VStr "Insufficient data") ].
Proof.
  intros Hne H. unfold _detect_prepaid_driver.
  destruct (segment_rows "prepaid" master_df) as [|r0 df]; [easy|].
  apply Nat.ltb_lt in H. now rewrite H.
Qed.

Lemma prepaid_no_regime (master_df : list record) :
  let spine := high_spine (segment_rows "prepaid" master_df) in
  segment_rows "prepaid" master_df <> [] ->
  (8 <= length spine)%nat ->
  (length (filter (fun p => fge (snd p) (Fin PREMIUM_REGIME_THRESHOLD)) spine)
   < 4)%nat ->
  _detect_prepaid_driver master_df
  = Some [ ("segment", VStr "prepaid"); ("detected", VBool false);
           ("reason", VStr "No premium regime") ].
Proof.
  intros spine Hne H8 H4. unfold _detect_prepaid_driver. subst spine.
  destruct (segment_rows "prepaid" master_df) as [|r0 df]; [easy|].
  apply Nat.ltb_ge in H8. rewrite H8.
  apply Nat.ltb_lt in H4. now rewrite H4.
Qed.

Lemma prepaid_full (master_df : list record) :
  let spine := high_spine (segment_rows "prepaid" master_df) in
  let pre := filter (fun p => flt (snd p) (Fin PREMIUM_REGIME_THRESHOLD)) spine in
  let post := filter (fun p => fge (snd p) (Fin PREMIUM_REGIME_THRESHOLD)) spine in
  segment_rows "prepaid" master_df <> [] ->
  (8 <= length spine)%nat ->
  (4 <= length post)%nat ->
  exists r adds_ratio m,
    _detect_prepaid_driver master_df = Some r
    /\ full_result "prepaid" "premium_shift" (10 / 100) (12 / 10) (6 / 10) r
    /\ dict_get "metrics" r = Some (VDict m)
    /\ dict_get "adds_ratio" m = Some (VFloat adds_ratio)
    /\ adds_ratio
       = if fgt (series_mean (map fst pre)) (Fin 0)
         then fdiv (series_mean (map fst post)) (series_mean (map fst pre))
         else Fin 0.
Proof.
  intros spine pre post Hne H8 H4. unfold _detect_prepaid_driver.
  subst pre post spine.
  destruct (segment_rows "prepaid" master_df) as [|r0 df]; [easy|].
  set (spine := high_spine (r0 :: df)) in *.
  destruct (roll_corr_spine_last 6 spine) as [c Ec]; [lia|].
  apply Nat.ltb_ge in H8. rewrite H8.
  apply Nat.ltb_ge in H4. rewrite H4. rewrite Ec.
  eexists _, _, _. split; [reflexivity|]. split.
  - unfold full_result. eexists _, _, _, _. cbv zeta.
    split; [reflexivity|]. repeat split; reflexivity.
  - split; [reflexivity|]. split; reflexivity.
Qed.

Lemma postpaid_empty (master_df : list record) :
  segment_rows "postpaid" master_df = [] ->
  _detect_postpaid_driver master_df
  = Some [ ("segment", VStr "postpaid"); ("detected", VBool false);
           ("reason", VStr "No postpaid data") ].
Proof. intros H. unfold _detect_postpaid_driver. now rewrite H. Qed.

Lemma postpaid_short (master_df : list record) :
  segment_rows "postpaid" master_df <> [] ->
  (length (value_spine (segment_rows "postpaid" master_df)) < 16)%nat ->
  _detect_postpaid_driver master_df
  = Some [ ("segment", VStr "postpaid"); ("detected", VBool false);
           ("reason", VStr "Insufficient data") ].
Proof.
  intros Hne H. unfold _detect_postpaid_driver.
  destruct (segment_rows "postpaid" master_df) as [|r0 df]; [easy|].
  apply Nat.ltb_lt in H. now rewrite H.
Qed.

Lemma postpaid_full (master_df : list record) :
  segment_rows "postpaid" master_df <> [] ->
  (16 <= length (value_spine (segment_rows "postpaid" master_df)))%nat ->
  exists r,
    _detect_postpaid_driver master_df = Some r
    /\ full_result "postpaid" "value_mix_shift" (5 / 100) (12 / 10) (5 / 10) r.
Proof.
  intros Hne H16. unfold _detect_postpaid_driver.
  destruct (segment_rows "postpaid" master_df) as [|r0 df]; [easy|].
  set (spine := value_spine (r0 :: df)) in *.
  destruct (roll_corr_spine_last 6 spine) as [c Ec]; [lia|].
  apply Nat.ltb_ge in H16. rewrite H16. rewrite Ec.
  eexists. split; [reflexivity|].
  unfold full_result. eexists _, _, _, _. cbv zeta.
  split; [reflexivity|]. repeat split; reflexivity.
Qed.

Lemma list_nil_dec {A : Type} (l : list A) : l = [] \/ l <> [].
Proof. destruct l; [now left | now right]. Qed.

(** Each check returns, and returns one of the two shapes. *)
Lemma prepaid_shape (master_df : list record) :
  exists r,
    _detect_prepaid_driver master_df = Some r
    /\ (early_result "prepaid" r
        \/ full_result "prepaid" "premium_shift" (10 / 100) (12 / 10) (6 / 10) r).
Proof.
  destruct (list_nil_dec (segment_rows "prepaid" master_df)) as [E|Hne].
  { eexists. split; [apply (prepaid_empty _ E)|]. left. eexists. reflexivity. }
  destruct (Nat.lt_ge_cases
              (length (high_spine (segment_rows "prepaid" master_df))) 8)
    as [H8|H8].
  { eexists. split; [apply (prepaid_short _ Hne H8)|].
    left. eexists. reflexivity. }
  destruct (Nat.lt_ge_cases
              (length (filter (fun p => fge (snd p) (Fin PREMIUM_REGIME_THRESHOLD))
                         (high_spine (segment_rows "prepaid" master_df)))) 4)
    as [H4|H4].
  { eexists. split; [apply (prepaid_no_regime _ Hne H8 H4)|].
    left. eexists. reflexivity. }
  destruct (prepaid_full _ Hne H8 H4) as (r & _ & _ & E & F & _).
  exists r. split; [exact E|]. now right.
Qed.

Lemma postpaid_shape (master_df : list record) :
  exists r,
    _detect_postpaid_driver master_df = Some r
    /\ (early_result "postpaid" r
        \/ full_result "postpaid" "value_mix_shift" (5 / 100) (12 / 10) (5 / 10) r).
Proof.
  destruct (list_nil_dec (segment_rows "postpaid" master_df)) as [E|Hne].
  { eexists. split; [apply (postpaid_empty _ E)|]. left. eexists. reflexivity. }
  destruct (Nat.lt_ge_cases
              (length (value_spine (segment_rows "postpaid" master_df))) 16)
    as [H16|H16].
  { eexists. split; [apply (postpaid_short _ Hne H16)|].
    left. eexists. reflexivity. }
  destruct (postpaid_full _ Hne H16) as (r & E & F).
  exists r. split; [exact E|]. now right.
Qed.

Lemma regime_check_shape (v : variant) (master_df : list record) :
  exists r seg name,
    regime_check v master_df = Some r
    /\ (early_result seg r
        \/ full_result seg name (share_delta_threshold v)
             (adds_ratio_threshold v) (corr_threshold v) r).
Proof.
  destruct v; simpl.
  - destruct (prepaid_shape master_df) as (r & E & H). eauto.
  - destruct (postpaid_shape master_df) as (r & E & H). eauto.
Qed.

End RegimeResults.

Section RegimeClaims.

Import Subscription.

Lemma filter_all {A : Type} (f : A -> bool) (l : list A) :
  (forall x, In x l -> f x = true) -> filter f l = l.
Proof.
  induction l as [|a l IH]; simpl; intros H; [reflexivity|].
  rewrite (H a) by now left. f_equal. apply IH. intros x Hx. apply H. now right.
Qed.

Lemma filter_none {A : Type} (f : A -> bool) (l : list A) :
  (forall x, In x l -> f x = false) -> filter f l = [].
Proof.
  induction l as [|a l IH]; simpl; intros H; [reflexivity|].
  rewrite (H a) by now left. apply IH. intros x Hx. apply H. now right.
Qed.

Lemma premium_weeks_spine :
  high_spine (segment_rows "prepaid" premium_weeks)
  = repeat (Fin 4, Fin 1) 8.
Proof.
  r_compute. r_decide. repeat (f_equal; try lra).
Qed.

Lemma premium_weeks_rows : segment_rows "prepaid" premium_weeks <> [].
Proof. r_compute. discriminate. Qed.

Lemma premium_weeks_all_post (p : float * float) :
  In p (high_spine (segment_rows "prepaid" premium_weeks)) ->
  fge (snd p) (Fin (15 / 100)) = true.
Proof.
  rewrite premium_weeks_spine. intros H. apply repeat_spec in H. subst p.
  simpl. apply R_leb_true. lra.
Qed.

Lemma full_result_fields (seg name : string) (ts ta tc : R) (r : dict) :
  full_result seg name ts ta tc r ->
  exists m b,
    dict_get "metrics" r = Some (VDict m)
    /\ dict_get "detected" r = Some (VBool b)
    /\ dict_get "confidence" r = Some (VStr (if b then "high" else "low"))
    /\ dict_get "reason" r = None
    /\ (b = true <->
        metric_ge m "share_delta" ts /\ metric_ge m "adds_ratio" ta
        /\ metric_ge m "recent_correlation" tc)
    /\ (forall x, dict_get "adds_ratio" m = Some (VFloat (Fin x)) ->
        x < ta -> b = false).
Proof.
  intros (sd & ar & rc & m & -> & _).
  eexists _, _. split; [reflexivity|]. split; [reflexivity|].
  split; [reflexivity|]. split; [reflexivity|]. split.
  - unfold metric_ge. simpl dict_get.
    rewrite !metric_float, !andb_true_iff. tauto.
  - simpl dict_get. intros x E Hx. inversion E; subst ar.
    simpl. replace (R_leb ta x) with false; [now rewrite andb_false_r|].
    symmetry. now apply R_leb_false.
Qed.

Lemma early_result_fields (seg : string) (r : dict) :
  early_result seg r ->
  dict_get "metrics" r = None
  /\ dict_get "detected" r = Some (VBool false)
  /\ dict_get "confidence" r = None
  /\ exists reason, dict_get "reason" r = Some (VStr reason).
Proof.
  intros [reason ->]. repeat split; try reflexivity. now exists reason.
Qed.




(** C6 (as amended).  Every result of the four alignment checks, on
    every branch, carries a confidence field that is "high", "medium" or
    "low".  A result of a regime-shift check that carries metrics has
    confidence "high" or "low"; the results of its empty-segment,
    insufficient-data and no-regime branches carry a reason and no
    confidence field. *)
Theorem confidence_field :
  (forall (c : add_churn_check) (df : list AddChurn.row),
      exists r conf,
        run_add_churn_check c df = Some r
        /\ dict_get "confidence" r = Some conf
        /\ is_confidence conf)
  /\ (forall (v : variant) (master_df : list record),
        exists r,
          regime_check v master_df = Some r
          /\ (((exists m, dict_get "metrics" r = Some (VDict m))
               /\ (dict_get "confidence" r = Some (VStr "high")
                   \/ dict_get "confidence" r = Some (VStr "low")))
              \/ (dict_get "metrics" r = None
                  /\ (exists reason, dict_get "reason" r = Some (VStr reason))
                  /\ dict_get "confidence" r = None))).
Proof.
  split.
  - intros c df.
    assert (H : forall name, exists r conf,
                 AddChurn.detect_with name df = Some r
                 /\ dict_get "confidence" r = Some conf /\ is_confidence conf).
    { intros name.
      destruct (detect_with_total name df) as (r & E & _ & conf & Hc & Hi).
      now exists r, conf. }
    destruct c; simpl; try apply H.
    eexists _, _. split; [reflexivity|]. split; [reflexivity|].
    unfold is_confidence. auto.
  - intros v master_df.
    destruct (regime_check_shape v master_df) as (r & seg & name & E & H).
    exists r. split; [exact E|]. destruct H as [H|H].
    + right. apply early_result_fields in H. tauto.
    + left. apply full_result_fields in H.
      destruct H as (m & b & Hm & _ & Hc & _). split; [now exists m|].
      destruct b; auto.
Qed.

(** The regime-shift engine returns results without a confidence field:
    on an empty master table the premium check answers "No prepaid data"
    with the fields segment, detected and reason only. *)
Lemma empty_segment_has_no_confidence :
  exists r,
    _detect_prepaid_driver [] = Some r
    /\ dict_get "reason" r = Some (VStr "No prepaid data")
    /\ dict_get "confidence" r = None.
Proof. eexists. repeat split; reflexivity. Qed.



(** On [premium_weeks] the check does compute its metrics. *)
Lemma premium_weeks_adds_ratio :
  exists r m,
    _detect_prepaid_driver premium_weeks = Some r
    /\ dict_get "detected" r = Some (VBool false)
    /\ dict_get "metrics" r = Some (VDict m)
    /\ dict_get "adds_ratio" m = Some (VFloat (Fin 0)).
Proof.
  destruct (prepaid_full premium_weeks) as (r & ar & m & E & F & Hm & Ha & Har).
  - exact premium_weeks_rows.
  - rewrite premium_weeks_spine. simpl. lia.
  - rewrite filter_all by exact premium_weeks_all_post.
    rewrite premium_weeks_spine. simpl. lia.
  - rewrite filter_none in Har.
    2:{ intros p Hp. apply fge_flt_false. unfold PREMIUM_REGIME_THRESHOLD.
        exact (premium_weeks_all_post p Hp). }
    simpl in Har. subst ar. exists r, m.
    apply full_result_fields in F.
    destruct F as (m' & b & Hm' & Hd & _ & _ & _ & Hlow).
    rewrite Hm in Hm'. inversion Hm'; subst m'.
    rewrite (Hlow 0 Ha) in Hd by lra. auto.
Qed.

End RegimeClaims.

(** ** The tier classifier (C5) *)

Section TierClassifier.

Import Subscription.

Open Scope string_scope.

Lemma append_nil_r (s : string) : s ++ "" = s.
Proof. induction s as [|c s IH]; simpl; [reflexivity | now rewrite IH]. Qed.

Lemma prefix_spec (sub s : string) :
  String.prefix sub s = true <-> exists post, s = sub ++ post.
Proof.
  revert s. induction sub as [|a sub IH]; intros s.
  - split; [intros _; now exists s|]. intros _. now destruct s.
  - destruct s as [|b s]; simpl.
    + split; [discriminate | intros [post H]; discriminate].
    + destruct (ascii_dec a b) as [->|Hab].
      * rewrite IH. split; intros [post H]; exists post.
        -- now rewrite H.
        -- now inversion H.
      * split; [discriminate|]. intros [post H]. congruence.
Qed.


Lemma span_digits_app (ds : string) (c : ascii) (r : string) :
  all_digits ds = true -> is_digit c = false ->
  span_digits (ds ++ String c r) = (ds, String c r).
Proof.
  intros Hds Hc. induction ds as [|d ds IH]; simpl.
  - now rewrite Hc.
  - simpl in Hds. apply andb_true_iff in Hds. destruct Hds as [Hd Hds].
    rewrite Hd, (IH Hds). reflexivity.
Qed.

Lemma span_digits_split (s ds rest : string) :
  span_digits s = (ds, rest) -> s = ds ++ rest /\ all_digits ds = true.
Proof.
  revert ds rest. induction s as [|c s IH]; simpl; intros ds rest H.
  - inversion H. auto.
  - destruct (is_digit c) eqn:Hc.
    + destruct (span_digits s) as [ds' rest'] eqn:E. inversion H; subst.
      destruct (IH ds' rest eq_refl) as [-> Hd]. simpl. now rewrite Hc, Hd.
    + inversion H. auto.
Qed.

(** A match that starts at the first character is the one the head test
    of [search_gb] sees. *)
Lemma gb_match_head (s ds : string) :
  gb_match_at s "" ds ->
  exists post, span_digits s = (ds, "gb" ++ post).
Proof.
  intros (_ & Hd & post & ->). exists post. simpl.
  now apply span_digits_app.
Qed.

Lemma gb_head_match (s ds rest : string) :
  span_digits s = (ds, rest) ->
  negb (String.eqb ds "") && String.prefix "gb" rest = true ->
  gb_match_at s "" ds.
Proof.
  intros E H. apply andb_true_iff in H. destruct H as [Hne Hp].
  apply span_digits_split in E. destruct E as [-> Hd].
  apply prefix_spec in Hp. destruct Hp as [post ->].
  split; [|split; [exact Hd | now exists post]].
  intros ->. discriminate.
Qed.

Lemma gb_head_test (ds post : string) :
  ds <> "" ->
  negb (String.eqb ds "") && String.prefix "gb" ("gb" ++ post) = true.
Proof.
  intros Hne. apply andb_true_iff. split.
  - destruct (String.eqb_spec ds ""); [contradiction | reflexivity].
  - apply prefix_spec. now exists post.
Qed.

Lemma gb_match_cons (c : ascii) (s pre ds : string) :
  gb_match_at (String c s) (String c pre) ds <-> gb_match_at s pre ds.
Proof.
  unfold gb_match_at. simpl. split; intros (Hne & Hd & post & H).
  - inversion H. eauto.
  - rewrite H. eauto.
Qed.

Lemma gb_match_cons_inv (c c' : ascii) (s pre ds : string) :
  gb_match_at (String c s) (String c' pre) ds -> c' = c.
Proof. intros (_ & _ & post & H). simpl in H. now inversion H. Qed.

Lemma search_gb_sound (s ds : string) :
  search_gb s = Some ds -> first_gb_match s ds.
Proof.
  induction s as [|c s IH]; [discriminate|].
  change (search_gb (String c s))
    with (let (ds0, rest) := span_digits (String c s) in
          if negb (String.eqb ds0 "") && String.prefix "gb" rest
          then Some ds0 else search_gb s).
  destruct (span_digits (String c s)) as [ds0 rest] eqn:E.
  destruct (negb (String.eqb ds0 "") && String.prefix "gb" rest) eqn:C.
  - intros H. inversion H; subst ds0. exists "". split.
    + exact (gb_head_match _ _ _ E C).
    + intros pre' ds' M. destruct pre' as [|c' pre']; simpl; [|lia].
      right. destruct (gb_match_head _ _ M) as [post E'].
      rewrite E in E'. inversion E'. subst. lia.
  - intros H. destruct (IH H) as (pre & M & Hmin).
    exists (String c pre). split; [exact (proj2 (gb_match_cons c _ _ _) M)|].
    intros pre' ds' M'. destruct pre' as [|c' pre'].
    + exfalso. destruct (gb_match_head _ _ M') as [post E'].
      rewrite E in E'. inversion E'; subst.
      destruct M' as (Hne & _).
      change (String "g" (String "b" post)) with ("gb" ++ post) in C.
      rewrite (gb_head_test _ post Hne) in C. discriminate.
    + pose proof (gb_match_cons_inv _ _ _ _ _ M'). subst c'.
      apply (proj1 (gb_match_cons _ _ _ _)) in M'.
      specialize (Hmin _ _ M'). simpl. lia.
Qed.

Lemma search_gb_complete (s ds : string) :
  first_gb_match s ds -> search_gb s = Some ds.
Proof.
  induction s as [|c s IH]; intros (pre & M & Hmin).
  - exfalso. destruct M as (Hne & _ & post & H).
    destruct pre; [|discriminate]. destruct ds; [contradiction | discriminate].
  - change (search_gb (String c s))
      with (let (ds0, rest) := span_digits (String c s) in
            if negb (String.eqb ds0 "") && String.prefix "gb" rest
            then Some ds0 else search_gb s).
    destruct (span_digits (String c s)) as [ds0 rest] eqn:E.
    destruct (negb (String.eqb ds0 "") && String.prefix "gb" rest) eqn:C.
    + pose proof (gb_head_match _ _ _ E C) as M0.
      destruct (Hmin _ _ M0) as [Hlt | [Hlen _]]; [simpl in Hlt; lia|].
      destruct pre; [|discriminate].
      destruct (gb_match_head _ _ M) as [post E'].
      rewrite E in E'. now inversion E'.
    + destruct pre as [|c' pre].
      * exfalso. destruct (gb_match_head _ _ M) as [post E'].
        rewrite E in E'. inversion E'; subst.
        destruct M as (Hne & _).
        change (String "g" (String "b" post)) with ("gb" ++ post) in C.
        rewrite (gb_head_test _ post Hne) in C. discriminate.
      * pose proof (gb_match_cons_inv _ _ _ _ _ M). subst c'.
        apply IH. exists pre.
        split; [exact (proj1 (gb_match_cons c _ _ _) M)|].
        intros pre' ds' M'. apply (proj2 (gb_match_cons c _ _ _)) in M'.
        specialize (Hmin _ _ M'). simpl in Hmin. lia.
Qed.

Lemma search_gb_spec (s ds : string) :
  search_gb s = Some ds <-> first_gb_match s ds.
Proof. split; [apply search_gb_sound | apply search_gb_complete]. Qed.



(** The extracted integer is the first match, not the largest: the
    allowance of "5GB + 100GB bonus" is read as 5. *)
Example first_match_wins :
  _extract_gb (Some "5GB + 100GB bonus") = Some (Gb 5)
  /\ _is_high_tier (Some "5GB + 100GB bonus") = false.
Proof. split; reflexivity. Qed.

End TierClassifier.

(** ** Correlation of a series with a multiple of itself *)

Section Correlation.

Lemma count_S (n : nat) : count (S n) = count n + 1.
Proof. unfold count. rewrite Nat2Z.inj_succ, succ_IZR. reflexivity. Qed.

Lemma count_nonneg (n : nat) : 0 <= count n.
Proof. unfold count. apply IZR_le. lia. Qed.

Lemma count_pos (n : nat) : (0 < n)%nat -> 0 < count n.
Proof. intros H. unfold count. apply IZR_lt. lia. Qed.

Lemma count_gt_1 (n : nat) : (2 <= n)%nat -> 0 < count n - 1.
Proof.
  intros H. unfold count.
  assert (1 < IZR (Z.of_nat n)) by (apply IZR_lt; lia). lra.
Qed.

Lemma rsum_map_mult (c : R) {A : Type} (f : A -> R) (l : list A) :
  rsum (map (fun x => c * f x) l) = c * rsum (map f l).
Proof. induction l as [|a l IH]; simpl; [ring | rewrite IH; ring]. Qed.

Lemma rsum_scale (k : R) (xs : list R) :
  rsum (map (Rmult k) xs) = k * rsum xs.
Proof. induction xs as [|x xs IH]; simpl; [ring | rewrite IH; ring]. Qed.

Lemma rmean_scale (k : R) (xs : list R) :
  rmean (map (Rmult k) xs) = k * rmean xs.
Proof.
  unfold rmean. rewrite rsum_scale, length_map. unfold Rdiv. ring.
Qed.

(** Sum of squared deviations from any centre [m]. *)
Lemma rsum_sq_dev (m : R) (xs : list R) :
  rsum (map (fun x => (x - m) * (x - m)) xs)
  = rsum (map (fun x => x * x) xs) - 2 * m * rsum xs
    + count (length xs) * (m * m).
Proof.
  induction xs as [|x xs IH].
  - simpl. unfold count. simpl. ring.
  - simpl map. simpl rsum. simpl length. rewrite count_S, IH. ring.
Qed.

Lemma rsum_sq_nonneg {A : Type} (f : A -> R) (l : list A) :
  0 <= rsum (map (fun x => f x * f x) l).
Proof.
  induction l as [|a l IH]; simpl; [lra|].
  pose proof (Rle_0_sqr (f a)) as H. unfold Rsqr in H. lra.
Qed.

Lemma rsum_sq_zero {A : Type} (f : A -> R) (l : list A) :
  rsum (map (fun x => f x * f x) l) = 0 -> forall x, In x l -> f x = 0.
Proof.
  induction l as [|a l IH]; simpl; intros H x Hx; [contradiction|].
  pose proof (Rle_0_sqr (f a)) as Ha. unfold Rsqr in Ha.
  pose proof (rsum_sq_nonneg f l) as Hl.
  destruct Hx as [<- | Hx].
  - apply Rsqr_0_uniq. unfold Rsqr. lra.
  - apply IH; [lra | exact Hx].
Qed.

Lemma sample_var_nonneg (xs : list R) :
  (2 <= length xs)%nat -> 0 <= sample_var xs.
Proof.
  intros H. unfold sample_var.
  apply Rmult_le_pos.
  - apply (rsum_sq_nonneg (fun x => x - rmean xs)).
  - apply Rlt_le, Rinv_0_lt_compat, count_gt_1, H.
Qed.

Lemma sample_var_scale (k : R) (xs : list R) :
  sample_var (map (Rmult k) xs) = k * k * sample_var xs.
Proof.
  unfold sample_var. rewrite rmean_scale, length_map, map_map.
  rewrite (map_ext (fun x => (k * x - k * rmean xs) * (k * x - k * rmean xs))
             (fun x => (k * k) * ((x - rmean xs) * (x - rmean xs))))
    by (intros; ring).
  rewrite (rsum_map_mult (k * k)
             (fun x => (x - rmean xs) * (x - rmean xs))).
  unfold Rdiv. ring.
Qed.

Lemma combine_map_r {A B : Type} (f : A -> B) (xs : list A) :
  combine xs (map f xs) = map (fun x => (x, f x)) xs.
Proof. induction xs as [|x xs IH]; simpl; [reflexivity | now rewrite IH]. Qed.

Lemma cov_num_scale (k : R) (xs : list R) :
  (2 <= length xs)%nat ->
  cov_num xs (map (Rmult k) xs) = k * sample_var xs.
Proof.
  intros Hn. unfold cov_num, sample_var.
  rewrite rsum_sq_dev, rmean_scale, combine_map_r, map_map.
  rewrite (map_ext (fun x => fst (x, k * x) * snd (x, k * x))
             (fun x => k * (x * x))) by (intros; simpl; ring).
  unfold rmean. rewrite length_map, (rsum_map_mult k (fun x => x * x)).
  assert (Hc : 0 < count (length xs)) by (apply count_pos; lia).
  pose proof (count_gt_1 _ Hn) as Hc1.
  field. lra.
Qed.

Lemma rsum_const {A : Type} (f : A -> R) (c : R) (l : list A) :
  (forall x, In x l -> f x = c) ->
  rsum (map f l) = count (length l) * c.
Proof.
  induction l as [|a l IH]; intros H.
  - simpl. unfold count. simpl. ring.
  - simpl map. simpl rsum. simpl length.
    rewrite count_S, (H a) by now left.
    rewrite IH by (intros x Hx; apply H; now right). ring.
Qed.

Lemma rmean_const (c : R) (xs : list R) :
  (0 < length xs)%nat -> (forall x, In x xs -> x = c) -> rmean xs = c.
Proof.
  intros Hn H. unfold rmean.
  rewrite <- (map_id xs) at 1. rewrite (rsum_const (fun x => x) c) by exact H.
  pose proof (count_pos _ Hn). field. lra.
Qed.

(** A window has zero variance exactly when it is constant. *)
Lemma sample_var_zero_iff (xs : list R) :
  (2 <= length xs)%nat ->
  sample_var xs = 0 <-> (forall x y, In x xs -> In y xs -> x = y).
Proof.
  intros Hn. pose proof (count_gt_1 _ Hn) as Hc1. unfold sample_var. split.
  - intros H x y Hx Hy.
    assert (H0 : rsum (map (fun x => (x - rmean xs) * (x - rmean xs)) xs) = 0).
    { apply Rmult_integral in H. destruct H as [H|H]; [exact H|].
      exfalso. apply (Rinv_neq_0_compat (count (length xs) - 1)); lra. }
    pose proof (rsum_sq_zero (fun x => x - rmean xs) xs H0) as Hz.
    pose proof (Hz x Hx). pose proof (Hz y Hy). simpl in *. lra.
  - intros H. destruct xs as [|c xs]; [simpl in Hn; lia|].
    assert (Hall : forall x, In x (c :: xs) -> x = c).
    { intros x Hx. apply H; [exact Hx | now left]. }
    assert (Hm : rmean (c :: xs) = c) by (apply rmean_const; [simpl; lia | exact Hall]).
    rewrite (rsum_const _ 0).
    + unfold Rdiv. ring.
    + intros x Hx. rewrite Hm, (Hall x Hx). ring.
Qed.

Lemma all_fin_map_Fin (xs : list R) : all_fin (map Fin xs) = Some xs.
Proof. induction xs as [|x xs IH]; simpl; [reflexivity | now rewrite IH]. Qed.

Lemma all_fin_some (l : list float) (xs : list R) :
  all_fin l = Some xs -> l = map Fin xs.
Proof.
  revert xs. induction l as [|[|x] l IH]; simpl; intros xs H.
  - now inversion H.
  - discriminate.
  - destruct (all_fin l) as [ys|]; [|discriminate].
    inversion H. now rewrite (IH ys eq_refl).
Qed.

Lemma all_fin_forall (l : list float) :
  (forall x, In x l -> x <> NaN) -> exists xs, all_fin l = Some xs.
Proof.
  induction l as [|[|x] l IH]; simpl; intros H.
  - now exists [].
  - exfalso. now apply (H NaN); [left|].
  - destruct IH as [xs E]; [intros y Hy; apply H; now right|].
    rewrite E. now exists (x :: xs).
Qed.

Lemma map_scale_Fin (k : R) (xs : list R) :
  map (scale k) (map Fin xs) = map Fin (map (Rmult k) xs).
Proof. rewrite !map_map. reflexivity. Qed.

Lemma constant_window_Fin (xs : list R) :
  constant_window (map Fin xs) <-> (forall x y, In x xs -> In y xs -> x = y).
Proof.
  unfold constant_window. split.
  - intros H x y Hx Hy.
    assert (E : Fin x = Fin y) by (apply H; now apply in_map).
    now inversion E.
  - intros H a b Ha Hb.
    apply in_map_iff in Ha. destruct Ha as (x & <- & Hx).
    apply in_map_iff in Hb. destruct Hb as (y & <- & Hy).
    f_equal. now apply H.
Qed.

(** The correlation of a window of finite drivers with its [k]-fold,
    [k > 0]: null on a constant window, 1 otherwise. *)
Lemma window_corr_scalar (k : R) (win : list (float * float)) (xs : list R) :
  0 < k ->
  (2 <= length win)%nat ->
  map fst win = map Fin xs ->
  map snd win = map (scale k) (map fst win) ->
  (constant_window (map fst win) -> window_corr win = NaN)
  /\ (~ constant_window (map fst win) -> window_corr win = Fin 1).
Proof.
  intros Hk Hn Hx Hy.
  assert (Hlen : (2 <= length xs)%nat).
  { rewrite <- (length_map Fin xs), <- Hx, length_map. exact Hn. }
  unfold window_corr.
  rewrite Hy, Hx, map_scale_Fin, !all_fin_map_Fin.
  rewrite cov_num_scale, sample_var_scale by exact Hlen.
  pose proof (sample_var_nonneg xs Hlen) as Hv.
  replace (sample_var xs * (k * k * sample_var xs))
    with ((k * sample_var xs) * (k * sample_var xs)) by ring.
  rewrite sqrt_square by nra.
  rewrite constant_window_Fin, <- (sample_var_zero_iff xs Hlen).
  simpl. split; intros H.
  - rewrite H, Rmult_0_r, R_eqb_refl. reflexivity.
  - rewrite R_eqb_neq by nra. f_equal. field. nra.
Qed.

End Correlation.

(** ** A target that is a positive multiple of the driver (C8) *)

Section ScalarMultiple.

Import AddChurn.

Lemma insert_by_In {A : Type} (key : A -> Z) (a x : A) (l : list A) :
  In x (insert_by key a l) -> x = a \/ In x l.
Proof.
  induction l as [|b l IH]; simpl.
  - intros [<- | []]. now left.
  - destruct (key a <=? key b)%Z; simpl.
    + intros [<- | [<- | H]]; auto.
    + intros [<- | H]; auto. destruct (IH H); auto.
Qed.

Lemma sort_values_In {A : Type} (key : A -> Z) (x : A) (l : list A) :
  In x (sort_values key l) -> In x l.
Proof.
  induction l as [|a l IH]; simpl; [auto|].
  intros H. apply insert_by_In in H. destruct H as [-> | H]; auto.
Qed.

Lemma window_at_map {A B : Type} (f : A -> B) (w i : nat) (xs : list A) :
  window_at w i (map f xs)
  = match window_at w i xs with
    | Some win => Some (map f win)
    | None => None
    end.
Proof.
  unfold window_at. destruct (w <=? i + 1)%nat; [|reflexivity].
  now rewrite skipn_map, firstn_map.
Qed.

Lemma window_at_length {A : Type} (w i : nat) (xs win : list A) :
  (i < length xs)%nat -> window_at w i xs = Some win -> length win = w.
Proof.
  unfold window_at. intros Hi.
  destruct (w <=? i + 1)%nat eqn:E; [|discriminate].
  apply Nat.leb_le in E. intros H. inversion H.
  rewrite length_firstn, length_skipn. lia.
Qed.

Lemma window_at_incl {A : Type} (w i : nat) (xs win : list A) (x : A) :
  window_at w i xs = Some win -> In x win -> In x xs.
Proof.
  unfold window_at. destruct (w <=? i + 1)%nat; [|discriminate].
  intros H Hx. inversion H; subst win.
  apply (In_nth _ _ x) in Hx. destruct Hx as (n & Hn & <-).
  rewrite length_firstn, length_skipn in Hn.
  rewrite nth_firstn. replace (n <? w)%nat with true
    by (symmetry; apply Nat.ltb_lt; lia).
  rewrite nth_skipn. apply nth_In. lia.
Qed.

Lemma window_sum_scale (k : R) (win : list float) :
  window_sum (map (scale k) win) = scale k (window_sum win).
Proof.
  unfold window_sum.
  assert (H : all_fin (map (scale k) win)
              = match all_fin win with
                | Some l => Some (map (Rmult k) l)
                | None => None
                end).
  { induction win as [|[|x] win IH]; simpl; try reflexivity.
    rewrite IH. now destruct (all_fin win). }
  rewrite H. destruct (all_fin win); simpl; [|reflexivity].
  now rewrite rsum_scale.
Qed.

Lemma roll_sum_scale (k : R) (w : nat) (xs : list float) :
  roll_sum w (map (scale k) xs) = map (scale k) (roll_sum w xs).
Proof.
  unfold roll_sum, rolling. rewrite length_map, map_map.
  apply map_ext. intros i. rewrite window_at_map.
  destruct (window_at w i xs); [apply window_sum_scale | reflexivity].
Qed.

Lemma in_combine_map_l {A B : Type} (f : A -> B) (xs : list A) (p : B * A) :
  In p (combine (map f xs) xs) -> fst p = f (snd p).
Proof.
  induction xs as [|x xs IH]; simpl; [contradiction|].
  intros [<- | H]; [reflexivity | now apply IH].
Qed.

Context (k : R) (df : list row).
Hypothesis k_pos : 0 < k.
Hypothesis multiple : forall r, In r df -> target r = scale k (driver r).

(** Every smoothed row pairs a finite driver sum with its [k]-fold. *)
Lemma smoothed_rows_multiple (p : float * float) :
  In p (smoothed_rows df) -> exists d, p = (Fin (k * d), Fin d).
Proof.
  unfold smoothed_rows, dropna_rw. intros H.
  apply filter_In in H. destruct H as [H Hfin].
  rewrite (map_ext_in target (fun r => scale k (driver r))) in H
    by (intros r Hr; apply multiple; now apply sort_values_In in Hr).
  rewrite <- (map_map driver (scale k)), roll_sum_scale in H.
  apply in_combine_map_l in H.
  destruct p as [t [|d]]; simpl in *.
  - rewrite andb_false_r in Hfin. discriminate.
  - exists d. now rewrite H.
Qed.

Lemma smoothed_rows_columns :
  exists ds,
    map snd (smoothed_rows df) = map Fin ds
    /\ map fst (smoothed_rows df) = map (scale k) (map Fin ds).
Proof.
  pose proof smoothed_rows_multiple as H.
  induction (smoothed_rows df) as [|p l IH].
  - exists []. auto.
  - destruct IH as (ds & Hs & Hf); [intros q Hq; apply H; now right|].
    destruct (H p) as [d ->]; [now left|].
    exists (d :: ds). simpl. now rewrite Hs, Hf.
Qed.

(** The value of the rolling correlation at a position of the spine. *)
Lemma multiple_corr_at (s : spine) (i : nat) :
  _build_spine df = Some s ->
  (i < len s)%nat ->
  match window_at CORR_WINDOW i (driver_rw s) with
  | None => nth i (rolling_corr s) NaN = NaN
  | Some win =>
      (constant_window win -> nth i (rolling_corr s) NaN = NaN)
      /\ (~ constant_window win -> nth i (rolling_corr s) NaN = Fin 1)
      /\ (nth i (rolling_corr s) NaN = NaN
          \/ nth i (rolling_corr s) NaN = Fin 1)
  end.
Proof.
  intros Hs Hi.
  destruct (build_spine_lengths _ _ Hs) as (_ & Ld & _ & _).
  destruct (build_spine_inv _ _ Hs) as (_ & Ht & Hd & _ & Hc).
  destruct smoothed_rows_columns as (ds & Es & Ef).
  rewrite <- Hd in Es. rewrite <- Ht, <- Es in Ef.
  rewrite Hc, Ef. unfold roll_corr. rewrite combine_map_r.
  rewrite rolling_nth by (rewrite length_map; lia).
  rewrite window_at_map.
  destruct (window_at CORR_WINDOW i (driver_rw s)) as [win|] eqn:W;
    [|reflexivity].
  assert (Lw : length win = CORR_WINDOW)
    by (apply (window_at_length _ i (driver_rw s)); [lia | exact W]).
  assert (Hfin : exists xs, win = map Fin xs).
  { destruct (all_fin_forall win) as [xs Hx].
    - intros x Hx ->. apply (window_at_incl _ _ _ _ _ W) in Hx.
      rewrite Es in Hx. apply in_map_iff in Hx.
      destruct Hx as (y & Hy & _). discriminate.
    - exists xs. now apply all_fin_some. }
  destruct Hfin as [xs Hxs].
  set (pairs := map (fun x => (x, scale k x)) win).
  assert (Hfst : map fst pairs = win).
  { unfold pairs. rewrite map_map. simpl. apply map_id. }
  assert (Hsnd : map snd pairs = map (scale k) (map fst pairs)).
  { rewrite Hfst. unfold pairs. now rewrite map_map. }
  destruct (window_corr_scalar k pairs xs k_pos) as [Hconst Hvar].
  - unfold pairs. rewrite length_map, Lw. unfold CORR_WINDOW. lia.
  - now rewrite Hfst.
  - exact Hsnd.
  - rewrite Hfst in Hconst, Hvar. split; [exact Hconst|]. split; [exact Hvar|].
    assert (Lx : (2 <= length xs)%nat).
    { rewrite <- (length_map Fin), <- Hxs, Lw. unfold CORR_WINDOW. lia. }
    destruct (Req_dec_T (sample_var xs) 0) as [E|E].
    + left. apply Hconst. rewrite Hxs.
      apply (proj2 (constant_window_Fin xs)).
      exact (proj1 (sample_var_zero_iff xs Lx) E).
    + right. apply Hvar. rewrite Hxs. intros Hc'. apply E.
      apply (proj2 (sample_var_zero_iff xs Lx)).
      exact (proj1 (constant_window_Fin xs) Hc').
Qed.

End ScalarMultiple.

Section ScalarMultipleClaims.

Import AddChurn.

Lemma tail_In_nth {A : Type} (n : nat) (l : list A) (d x : A) :
  In x (tail n l) ->
  exists i, (length l - n <= i < length l)%nat /\ nth i l d = x.
Proof.
  unfold tail. intros H. apply (In_nth _ _ d) in H.
  destruct H as (j & Hj & E). rewrite length_skipn in Hj.
  rewrite nth_skipn in E. exists (length l - n + j)%nat. split; [lia | exact E].
Qed.

Lemma nth_In_tail {A : Type} (n i : nat) (l : list A) (d : A) :
  (length l - n <= i < length l)%nat -> In (nth i l d) (tail n l).
Proof.
  intros H. unfold tail.
  replace i with (length l - n + (i - (length l - n)))%nat by lia.
  rewrite <- nth_skipn. apply nth_In. rewrite length_skipn. lia.
Qed.

Lemma skipna_In (y : R) (l : list float) : In y (skipna l) <-> In (Fin y) l.
Proof.
  induction l as [|[|x] l IH]; simpl.
  - tauto.
  - rewrite IH. split; [auto | intros [H|H]; [discriminate | exact H]].
  - rewrite IH. split; intros [H|H]; auto.
    + left. now f_equal.
    + left. now inversion H.
Qed.

(** The mean of a column whose defined entries are all 1. *)
Lemma series_mean_ones (l : list float) :
  (forall x, In x l -> x = NaN \/ x = Fin 1) ->
  (In (Fin 1) l -> series_mean l = Fin 1)
  /\ ((forall x, In x l -> x = NaN) -> series_mean l = NaN).
Proof.
  intros H. unfold series_mean. split.
  - intros H1. apply skipna_In in H1.
    destruct (skipna l) as [|y ys] eqn:E; [contradiction|].
    f_equal. apply rmean_const; [simpl; lia|].
    intros x Hx. rewrite <- E in Hx. apply skipna_In in Hx.
    destruct (H _ Hx) as [F|F]; [discriminate | now inversion F].
  - intros Hn. destruct (skipna l) as [|y ys] eqn:E; [reflexivity|].
    assert (Hy : In y (skipna l)) by (rewrite E; now left).
    apply skipna_In in Hy. apply Hn in Hy. discriminate.
Qed.


(** The recent average of the rolling correlation when the target is
    [k] times the driver: 1 as soon as one of the last eight windows is
    not constant, null otherwise. *)
Lemma multiple_recent_avg (k : R) (df : list row) (s : spine) :
  0 < k ->
  (forall r, In r df -> target r = scale k (driver r)) ->
  _build_spine df = Some s ->
  let avg := series_mean (tail 8 (rolling_corr s)) in
  ((exists i win,
       (len s - 8 <= i < len s)%nat
       /\ window_at 8 i (driver_rw s) = Some win
       /\ ~ constant_window win) -> avg = Fin 1)
  /\ ((forall i win,
          (len s - 8 <= i < len s)%nat ->
          window_at 8 i (driver_rw s) = Some win ->
          constant_window win) -> avg = NaN).
Proof.
  intros Hk Hm Hs avg.
  destruct (build_spine_lengths _ _ Hs) as (_ & _ & _ & Lc).
  assert (Hval : forall x, In x (tail 8 (rolling_corr s)) ->
                           x = NaN \/ x = Fin 1).
  { intros x Hx. apply (tail_In_nth _ _ NaN) in Hx.
    destruct Hx as (i & Hi & <-).
    pose proof (multiple_corr_at k df Hk Hm s i Hs ltac:(lia)) as H.
    destruct (window_at CORR_WINDOW i (driver_rw s)); [tauto | now left]. }
  destruct (series_mean_ones _ Hval) as [Hone Hnan]. split.
  - intros (i & win & Hi & W & Hnc). apply Hone.
    pose proof (multiple_corr_at k df Hk Hm s i Hs ltac:(lia)) as H.
    change 8%nat with CORR_WINDOW in W. rewrite W in H.
    destruct H as (_ & H & _). rewrite <- (H Hnc).
    apply nth_In_tail. lia.
  - intros Hall. apply Hnan. intros x Hx.
    apply (tail_In_nth _ _ NaN) in Hx. destruct Hx as (i & Hi & <-).
    pose proof (multiple_corr_at k df Hk Hm s i Hs ltac:(lia)) as H.
    destruct (window_at CORR_WINDOW i (driver_rw s)) as [win|] eqn:W;
      [|exact H].
    destruct H as (H & _). apply H. apply (Hall i win); [lia | exact W].
Qed.



Lemma weekly_table_multiple (n : nat) (a : Z) (d : Z -> Z) (r : row) :
  In r (weekly_table n (fun i => (a * d i)%Z) d) ->
  target r = scale (IZR a) (driver r).
Proof.
  unfold weekly_table. intros H. apply in_map_iff in H.
  destruct H as (i & <- & _). simpl. now rewrite mult_IZR.
Qed.

Lemma growing_table_multiple (r : row) :
  In r growing_table -> target r = scale 2 (driver r).
Proof.
  intros H. exact (weekly_table_multiple 15 2 (fun i => i) r H).
Qed.






(** ** Two worked tables *)

Lemma summarize_values (s : spine) :
  (CORR_WINDOW <= len s)%nat ->
  driver_share s <> [] ->
  let avg := series_mean (tail CORR_WINDOW (rolling_corr s)) in
  let sh := series_mean (tail CORR_WINDOW (driver_share s)) in
  let score := _alignment_score (Some avg) (Some sh) in
  let a := fge avg (Fin CORR_ALIGNED) && fge sh (Fin SHARE_MIN)
           && fge score (Fin SCORE_ALIGNED) in
  exists m,
    _summarize_alignment s
    = Some (a,
            if a && fge score (Fin (80 / 100)) then "high"
            else if a then "medium" else "low",
            m)
    /\ dict_get "corr_recent_avg" m = Some (float_or_none avg)
    /\ dict_get "share_recent_avg" m = Some (float_or_none sh)
    /\ dict_get "alignment_score" m = Some (VFloat score).
Proof.
  intros Hn Hne. unfold _summarize_alignment.
  apply Nat.leb_le in Hn. rewrite Hn.
  destruct (iloc_last_some _ Hne) as [sl [-> _]].
  eexists. split; [reflexivity|]. repeat split; reflexivity.
Qed.

Lemma thin_driver_table_smoothed :
  smoothed_rows thin_driver_table
  = [ (Fin 200, Fin 10); (Fin 280, Fin 14); (Fin 360, Fin 18);
      (Fin 440, Fin 22); (Fin 520, Fin 26); (Fin 600, Fin 30);
      (Fin 680, Fin 34); (Fin 760, Fin 38); (Fin 840, Fin 42);
      (Fin 920, Fin 46); (Fin 1000, Fin 50); (Fin 1080, Fin 54) ].
Proof. r_compute. repeat (f_equal; try lra). Qed.

Lemma growing_table_smoothed :
  smoothed_rows growing_table
  = [ (Fin 20, Fin 10); (Fin 28, Fin 14); (Fin 36, Fin 18);
      (Fin 44, Fin 22); (Fin 52, Fin 26); (Fin 60, Fin 30);
      (Fin 68, Fin 34); (Fin 76, Fin 38); (Fin 84, Fin 42);
      (Fin 92, Fin 46); (Fin 100, Fin 50); (Fin 108, Fin 54) ].
Proof. r_compute. repeat (f_equal; try lra). Qed.

Lemma thin_driver_table_multiple (r : row) :
  In r thin_driver_table -> target r = scale 20 (driver r).
Proof.
  intros H. exact (weekly_table_multiple 15 20 (fun i => i) r H).
Qed.

(** A window of driver sums that is not constant. *)
Lemma rising_window_not_constant :
  ~ constant_window
      [Fin 26; Fin 30; Fin 34; Fin 38; Fin 42; Fin 46; Fin 50; Fin 54].
Proof.
  intros H.
  assert (E : Fin 26 = Fin 30) by (apply H; simpl; auto).
  inversion E. lra.
Qed.

(** The crafted input of the specification: the target is twenty times
    the driver, so the correlation gate and the score gate pass
    (corr_recent_avg = 1, alignment_score = 0.715) while
    share_recent_avg = 0.05 is under 0.10; the check answers
    aligned = false. *)
Example thin_driver_not_aligned :
  exists r m,
    _detect_prepaid_add_driver thin_driver_table = Some r
    /\ dict_get "aligned" r = Some (VBool false)
    /\ dict_get "confidence" r = Some (VStr "low")
    /\ dict_get "metrics" r = Some (VDict m)
    /\ dict_get "corr_recent_avg" m = Some (VFloat (Fin 1))
    /\ dict_get "share_recent_avg" m = Some (VFloat (Fin (5 / 100)))
    /\ dict_get "alignment_score" m = Some (VFloat (Fin (715 / 1000))).
Proof.
  pose proof (build_spine_some thin_driver_table thin_driver_table_rows) as Hs.
  set (s := mk_spine _ _ _ _) in Hs.
  assert (Hk : 0 < 20) by lra.
  assert (Hlen : len s = 12%nat)
    by (unfold len, s; cbn [target_rw]; now rewrite thin_driver_table_smoothed).
  destruct (build_spine_lengths _ _ Hs) as (_ & _ & Lsh & _).
  assert (Hne : driver_share s <> [])
    by (apply length_pos_nonnil; rewrite Lsh, Hlen; lia).
  assert (Havg : series_mean (tail CORR_WINDOW (rolling_corr s)) = Fin 1).
  { apply (multiple_recent_avg 20 thin_driver_table s Hk
             thin_driver_table_multiple Hs).
    exists 11%nat, [Fin 26; Fin 30; Fin 34; Fin 38; Fin 42; Fin 46; Fin 50; Fin 54].
    split; [lia|]. split; [|exact rising_window_not_constant].
    unfold s. cbn [driver_rw]. now rewrite thin_driver_table_smoothed. }
  assert (Hsh : series_mean (tail CORR_WINDOW (driver_share s)) = Fin (5 / 100)).
  { unfold s. cbn [driver_share]. rewrite thin_driver_table_smoothed.
    r_compute. r_decide. f_equal. lra. }
  destruct (summarize_values s) as (m & Em & Hc & Hsr & Hsc);
    [rewrite Hlen; unfold CORR_WINDOW; lia | exact Hne |].
  rewrite Havg, Hsh in Em. rewrite Havg in Hc. rewrite Hsh in Hsr.
  rewrite Havg, Hsh in Hsc.
  assert (Hscore : _alignment_score (Some (Fin 1)) (Some (Fin (5 / 100)))
                   = Fin (715 / 1000)).
  { rewrite alignment_score_formula. simpl. f_equal.
    unfold clamp01. r_decide; lra. }
  rewrite Hscore in Em, Hsc.
  assert (Ha : fge (Fin 1) (Fin CORR_ALIGNED) && fge (Fin (5 / 100)) (Fin SHARE_MIN)
               && fge (Fin (715 / 1000)) (Fin SCORE_ALIGNED) = false).
  { unfold CORR_ALIGNED, SHARE_MIN, SCORE_ALIGNED. simpl. unfold R_leb.
    r_decide; reflexivity. }
  rewrite Ha in Em. simpl in Em.
  eexists _, m. split.
  - unfold _detect_prepaid_add_driver, detect_with. rewrite Hs, Em. reflexivity.
  - repeat split; auto.
Qed.

(** A table the engine aligns: the target is twice the driver, so
    corr_recent_avg = 1, share_recent_avg = 0.5, alignment_score = 0.85,
    and the check answers aligned = true with confidence "high". *)
Example growing_table_aligned :
  exists r m,
    _detect_postpaid_add_driver growing_table = Some r
    /\ dict_get "aligned" r = Some (VBool true)
    /\ dict_get "confidence" r = Some (VStr "high")
    /\ dict_get "metrics" r = Some (VDict m)
    /\ dict_get "corr_recent_avg" m = Some (VFloat (Fin 1))
    /\ dict_get "share_recent_avg" m = Some (VFloat (Fin (5 / 10)))
    /\ dict_get "alignment_score" m = Some (VFloat (Fin (85 / 100))).
Proof.
  pose proof (build_spine_some growing_table growing_table_rows) as Hs.
  set (s := mk_spine _ _ _ _) in Hs.
  assert (Hk : 0 < 2) by lra.
  assert (Hlen : len s = 12%nat)
    by (unfold len, s; cbn [target_rw]; now rewrite growing_table_smoothed).
  destruct (build_spine_lengths _ _ Hs) as (_ & _ & Lsh & _).
  assert (Hne : driver_share s <> [])
    by (apply length_pos_nonnil; rewrite Lsh, Hlen; lia).
  assert (Havg : series_mean (tail CORR_WINDOW (rolling_corr s)) = Fin 1).
  { apply (multiple_recent_avg 2 growing_table s Hk growing_table_multiple Hs).
    exists 11%nat, [Fin 26; Fin 30; Fin 34; Fin 38; Fin 42; Fin 46; Fin 50; Fin 54].
    split; [lia|]. split; [|exact rising_window_not_constant].
    unfold s. cbn [driver_rw]. now rewrite growing_table_smoothed. }
  assert (Hsh : series_mean (tail CORR_WINDOW (driver_share s)) = Fin (5 / 10)).
  { unfold s. cbn [driver_share]. rewrite growing_table_smoothed.
    r_compute. r_decide. f_equal. lra. }
  destruct (summarize_values s) as (m & Em & Hc & Hsr & Hsc);
    [rewrite Hlen; unfold CORR_WINDOW; lia | exact Hne |].
  rewrite Havg, Hsh in Em. rewrite Havg in Hc. rewrite Hsh in Hsr.
  rewrite Havg, Hsh in Hsc.
  assert (Hscore : _alignment_score (Some (Fin 1)) (Some (Fin (5 / 10)))
                   = Fin (85 / 100)).
  { rewrite alignment_score_formula. simpl. f_equal.
    unfold clamp01. r_decide; lra. }
  rewrite Hscore in Em, Hsc.
  assert (Ha : fge (Fin 1) (Fin CORR_ALIGNED) && fge (Fin (5 / 10)) (Fin SHARE_MIN)
               && fge (Fin (85 / 100)) (Fin SCORE_ALIGNED) = true).
  { unfold CORR_ALIGNED, SHARE_MIN, SCORE_ALIGNED. simpl. unfold R_leb.
    r_decide; reflexivity. }
  assert (Hh : fge (Fin (85 / 100)) (Fin (80 / 100)) = true).
  { simpl. unfold R_leb. r_decide; reflexivity. }
  rewrite Ha, Hh in Em. simpl in Em.
  eexists _, m. split.
  - unfold _detect_postpaid_add_driver, detect_with. rewrite Hs, Em. reflexivity.
  - repeat split; auto.
Qed.

End ScalarMultipleClaims.

(** ** No division of a non-zero number by zero

    [fdiv] answers NaN on a zero divisor, which is what the source
    computes for 0/0.  The two lemmas below show that the unguarded
    quotients of the engines never have a zero divisor with a non-zero
    dividend: a correlation window with a zero denominator has a zero
    numerator, and every week of a weekly table has at least one
    subscription. *)

Section ZeroDivisors.

Lemma products_const_l (c : R) (xs ys : list R) :
  length xs = length ys ->
  (forall x, In x xs -> x = c) ->
  map (fun p => fst p * snd p) (combine xs ys) = map (Rmult c) ys.
Proof.
  revert ys. induction xs as [|x xs IH]; intros [|y ys] L H; simpl in *;
    try discriminate; [reflexivity|].
  rewrite (H x) by now left. f_equal. apply IH; [lia|].
  intros z Hz. apply H. now right.
Qed.

Lemma products_const_r (c : R) (xs ys : list R) :
  length xs = length ys ->
  (forall y, In y ys -> y = c) ->
  map (fun p => fst p * snd p) (combine xs ys) = map (Rmult c) xs.
Proof.
  revert ys. induction xs as [|x xs IH]; intros [|y ys] L H; simpl in *;
    try discriminate; [reflexivity|].
  rewrite (H y) by now left. f_equal; [ring|]. apply IH; [lia|].
  intros z Hz. apply H. now right.
Qed.

Lemma zero_denominator_zero_numerator (xs ys : list R) :
  (2 <= length xs)%nat ->
  length xs = length ys ->
  sqrt (sample_var xs * sample_var ys) = 0 ->
  cov_num xs ys = 0.
Proof.
  intros Hn L H.
  assert (Hy : (2 <= length ys)%nat) by lia.
  pose proof (sample_var_nonneg xs Hn) as Vx.
  pose proof (sample_var_nonneg ys Hy) as Vy.
  apply sqrt_eq_0 in H; [|now apply Rmult_le_pos].
  unfold cov_num. apply Rmult_integral in H. destruct H as [H|H].
  - pose proof (proj1 (sample_var_zero_iff xs Hn) H) as Hc.
    destruct xs as [|c xs]; [simpl in Hn; lia|].
    assert (Hall : forall x, In x (c :: xs) -> x = c)
      by (intros x Hx; apply Hc; [exact Hx | now left]).
    rewrite (products_const_l c) by assumption.
    rewrite rmean_scale, (rmean_const c (c :: xs)) by (simpl; auto; lia).
    ring.
  - pose proof (proj1 (sample_var_zero_iff ys Hy) H) as Hc.
    destruct ys as [|c ys]; [simpl in Hy; lia|].
    assert (Hall : forall y, In y (c :: ys) -> y = c)
      by (intros y Hy'; apply Hc; [exact Hy' | now left]).
    rewrite (products_const_r c) by assumption.
    rewrite rmean_scale, (rmean_const c (c :: ys)) by (simpl; auto; lia).
    ring.
Qed.

Lemma weekly_spine_total_positive
  (flag : Subscription.record -> bool) (df : list Subscription.record)
  (t : Z * float * float) :
  In t (Subscription.weekly_spine flag df) ->
  exists n, snd (fst t) = Fin (count n) /\ (1 <= n)%nat.
Proof.
  unfold Subscription.weekly_spine. intros H.
  apply sort_values_In in H. apply in_map_iff in H.
  destruct H as ([w n] & <- & H). simpl.
  exists n. split; [reflexivity|].
  unfold Subscription.weekly_nunique in H. apply in_map_iff in H.
  destruct H as (w' & E & Hw). inversion E; subst w' n. clear E.
  unfold Subscription.group_weeks in Hw.
  apply sort_values_In in Hw. apply nodup_In in Hw.
  apply in_map_iff in Hw. destruct Hw as (r & Hr & Hin).
  unfold Subscription.nunique.
  assert (Hid : In (Subscription.unique_subscription_id r)
                  (nodup string_dec
                     (map Subscription.unique_subscription_id
                        (filter (fun r => (Subscription.week_start r =? w)%Z)
                           df)))).
  { apply nodup_In. apply in_map. apply filter_In. split; [exact Hin|].
    apply Z.eqb_eq. exact Hr. }
  destruct (nodup string_dec _); [contradiction | simpl; lia].
Qed.

End ZeroDivisors.

(** * Further properties of the alignment engine *)

Section SpineSize.

Import AddChurn.

Lemma insert_by_length {A : Type} (key : A -> Z) (a : A) (l : list A) :
  length (insert_by key a l) = S (length l).
Proof.
  induction l as [|b l IH]; simpl; [reflexivity|].
  destruct (key a <=? key b)%Z; simpl; [reflexivity | now rewrite IH].
Qed.

Lemma sort_values_length {A : Type} (key : A -> Z) (l : list A) :
  length (sort_values key l) = length l.
Proof.
  induction l as [|a l IH]; simpl; [reflexivity|].
  now rewrite insert_by_length, IH.
Qed.

Lemma window_at_early {A : Type} (w i : nat) (xs : list A) :
  (i + 1 < w)%nat -> window_at w i xs = None.
Proof.
  intros H. unfold window_at.
  destruct (w <=? i + 1)%nat eqn:E; [|reflexivity].
  apply Nat.leb_le in E. lia.
Qed.

Lemma rolling_early {A : Type} (w : nat) (agg : list A -> float)
  (xs : list A) (i : nat) :
  (i + 1 < w)%nat -> nth i (rolling w agg xs) NaN = NaN.
Proof.
  intros H. destruct (Nat.lt_ge_cases i (length xs)) as [Hi|Hi].
  - now rewrite rolling_nth, window_at_early.
  - apply nth_overflow. now rewrite rolling_length.
Qed.

(** A filter that rejects the elements at the first [k] positions keeps
    at most the others. *)
Lemma filter_skips {A : Type} (f : A -> bool) (k : nat) (l : list A) (d : A) :
  (forall i, (i < k)%nat -> (i < length l)%nat -> f (nth i l d) = false) ->
  (length (filter f l) <= length l - k)%nat.
Proof.
  intros H. rewrite <- (firstn_skipn k l) at 1. rewrite filter_app, length_app.
  rewrite (filter_none f (firstn k l)).
  - simpl. etransitivity; [apply filter_length_le|]. now rewrite length_skipn.
  - intros x Hx. apply (In_nth _ _ d) in Hx. destruct Hx as (i & Hi & <-).
    rewrite length_firstn in Hi. rewrite nth_firstn.
    replace (i <? k)%nat with true by (symmetry; apply Nat.ltb_lt; lia).
    apply H; lia.
Qed.

(** The 4-week rolling sums are undefined on the first three rows, so
    smoothing costs a table at least three rows. *)
Lemma smoothed_rows_length (df : list row) :
  (length (smoothed_rows df) <= length df - 3)%nat.
Proof.
  unfold smoothed_rows, dropna_rw.
  set (sorted := sort_values week_start df).
  set (t_rw := roll_sum ROLLING_WINDOW (map target sorted)).
  set (d_rw := roll_sum ROLLING_WINDOW (map driver sorted)).
  assert (L : length (combine t_rw d_rw) = length df).
  { unfold t_rw, d_rw, roll_sum.
    rewrite length_combine, !rolling_length, !length_map, Nat.min_id.
    apply sort_values_length. }
  rewrite <- L. apply (filter_skips _ 3 _ (NaN, NaN)).
  intros i Hi Hl. rewrite combine_nth.
  - unfold t_rw, roll_sum. rewrite rolling_early; [reflexivity|].
    unfold ROLLING_WINDOW. lia.
  - unfold t_rw, d_rw, roll_sum. now rewrite !rolling_length, !length_map.
Qed.

(** X1.  A table of fewer than fifteen weekly rows never yields a spine:
    each spine-based check answers "Insufficient data", whatever the
    values in the table. *)
Theorem fewer_than_fifteen_weeks
  (check : list row -> option dict) (df : list row) :
  In check spine_checks ->
  (length df < 15)%nat ->
  _build_spine df = None
  /\ exists r,
      check df = Some r
      /\ dict_get "aligned" r = Some (VBool false)
      /\ dict_get "reason" r = Some (VStr "Insufficient data").
Proof.
  intros Hc Hn.
  assert (H : (length (smoothed_rows df) < MIN_POINTS)%nat).
  { pose proof (smoothed_rows_length df). unfold MIN_POINTS. lia. }
  split; [exact (build_spine_none df H)|].
  destruct (spine_checks_detect_with _ Hc) as [name ->].
  rewrite (detect_with_insufficient name df H).
  eexists. repeat split; reflexivity.
Qed.

Lemma fewer_than_fifteen_weeks_witness :
  _build_spine short_table = None
  /\ exists r,
      _detect_postpaid_churn_driver short_table = Some r
      /\ dict_get "aligned" r = Some (VBool false)
      /\ dict_get "reason" r = Some (VStr "Insufficient data").
Proof.
  apply (fewer_than_fifteen_weeks _detect_postpaid_churn_driver short_table).
  - simpl. auto.
  - unfold short_table, weekly_table. rewrite length_map, length_seq. lia.
Defined.

End SpineSize.

Section RowOrder.

Import AddChurn.

Lemma insert_by_perm {A : Type} (key : A -> Z) (a : A) (l : list A) :
  Permutation (insert_by key a l) (a :: l).
Proof.
  induction l as [|b l IH]; simpl; [reflexivity|].
  destruct (key a <=? key b)%Z; [reflexivity|].
  rewrite IH. apply perm_swap.
Qed.

Lemma sort_values_perm {A : Type} (key : A -> Z) (l : list A) :
  Permutation (sort_values key l) l.
Proof.
  induction l as [|a l IH]; simpl; [reflexivity|].
  rewrite insert_by_perm. now constructor.
Qed.

Lemma insert_by_sorted {A : Type} (key : A -> Z) (a : A) (l : list A) :
  StronglySorted (fun x y => (key x <= key y)%Z) l ->
  StronglySorted (fun x y => (key x <= key y)%Z) (insert_by key a l).
Proof.
  induction l as [|b l IH]; intros H; simpl.
  - constructor; constructor.
  - inversion H as [|? ? Hs Hf]; subst.
    destruct (key a <=? key b)%Z eqn:E.
    + apply Z.leb_le in E. constructor; [exact H|].
      constructor; [exact E|].
      rewrite Forall_forall in *. intros y Hy. specialize (Hf y Hy). lia.
    + apply Z.leb_gt in E. constructor; [now apply IH|].
      rewrite Forall_forall in *. intros y Hy.
      apply insert_by_In in Hy. destruct Hy as [-> | Hy]; [lia | now apply Hf].
Qed.

Lemma sort_values_sorted {A : Type} (key : A -> Z) (l : list A) :
  StronglySorted (fun x y => (key x <= key y)%Z) (sort_values key l).
Proof.
  induction l as [|a l IH]; simpl; [constructor | now apply insert_by_sorted].
Qed.

(** Two sorted arrangements of the same rows with distinct keys are the
    same list. *)
Lemma sorted_unique {A : Type} (key : A -> Z) (l1 l2 : list A) :
  StronglySorted (fun x y => (key x <= key y)%Z) l1 ->
  StronglySorted (fun x y => (key x <= key y)%Z) l2 ->
  NoDup (map key l1) ->
  Permutation l1 l2 ->
  l1 = l2.
Proof.
  revert l2. induction l1 as [|a t1 IH]; intros l2 S1 S2 N P.
  - apply Permutation_nil in P. now subst.
  - destruct l2 as [|b t2].
    { apply Permutation_sym, Permutation_nil in P. discriminate. }
    inversion S1 as [|? ? S1' F1]; inversion S2 as [|? ? S2' F2]; subst.
    inversion N as [|? ? Na N']; subst.
    rewrite Forall_forall in F1, F2.
    assert (E : a = b).
    { assert (Ha : In a (b :: t2))
        by (apply (Permutation_in _ P); now left).
      assert (Hb : In b (a :: t1))
        by (apply (Permutation_in _ (Permutation_sym P)); now left).
      destruct Ha as [Ha|Ha]; [now subst|].
      destruct Hb as [Hb|Hb]; [now subst|].
      exfalso. apply Na.
      pose proof (F1 b Hb). pose proof (F2 a Ha).
      replace (key a) with (key b) by lia. now apply in_map. }
    subst b. f_equal. apply IH; auto.
    now apply Permutation_cons_inv in P.
Qed.

Lemma sort_values_permutation {A : Type} (key : A -> Z) (l l' : list A) :
  NoDup (map key l) ->
  Permutation l l' ->
  sort_values key l' = sort_values key l.
Proof.
  intros N P. symmetry. apply (sorted_unique key).
  - apply sort_values_sorted.
  - apply sort_values_sorted.
  - apply (Permutation_NoDup (l := map key l)); [|exact N].
    apply Permutation_map, Permutation_sym, sort_values_perm.
  - rewrite sort_values_perm, P. apply Permutation_sym, sort_values_perm.
Qed.

(** X2.  The order of the rows of a weekly table does not matter: when
    no two rows share a week, every spine-based check returns the same
    result on any rearrangement of the table. *)
Theorem row_order_is_irrelevant
  (check : list row -> option dict) (df df' : list row) :
  In check spine_checks ->
  NoDup (map week_start df) ->
  Permutation df df' ->
  _build_spine df' = _build_spine df /\ check df' = check df.
Proof.
  intros Hc N P.
  assert (E : smoothed_rows df' = smoothed_rows df).
  { unfold smoothed_rows. now rewrite (sort_values_permutation _ df df' N P). }
  assert (B : _build_spine df' = _build_spine df)
    by (unfold _build_spine; now rewrite E).
  split; [exact B|].
  destruct (spine_checks_detect_with _ Hc) as [name ->].
  unfold detect_with. now rewrite B.
Qed.

Lemma weekly_table_weeks (n : nat) (t d : Z -> Z) :
  map week_start (weekly_table n t d) = map Z.of_nat (seq 1 n).
Proof. unfold weekly_table. rewrite map_map. reflexivity. Qed.

Lemma row_order_is_irrelevant_witness :
  _build_spine (rev growing_table) = _build_spine growing_table
  /\ _detect_postpaid_add_driver (rev growing_table)
     = _detect_postpaid_add_driver growing_table.
Proof.
  apply (row_order_is_irrelevant _detect_postpaid_add_driver growing_table).
  - simpl. auto.
  - unfold growing_table. rewrite weekly_table_weeks.
    apply Finite.Injective_map_NoDup; [|apply seq_NoDup].
    intros x y H. now apply Nat2Z.inj.
  - apply Permutation_rev.
Defined.

End RowOrder.

Section CorrelationBounds.

Lemma cauchy_schwarz {A : Type} (f g : A -> R) (l : list A) :
  rsum (map (fun x => f x * g x) l) * rsum (map (fun x => f x * g x) l)
  <= rsum (map (fun x => f x * f x) l) * rsum (map (fun x => g x * g x) l).
Proof.
  induction l as [|a l IH]; simpl; [lra|].
  set (B := rsum (map (fun x => f x * g x) l)) in *.
  set (P := rsum (map (fun x => f x * f x) l)) in *.
  set (Q := rsum (map (fun x => g x * g x) l)) in *.
  assert (HP : 0 <= P) by apply rsum_sq_nonneg.
  assert (HQ : 0 <= Q) by apply rsum_sq_nonneg.
  assert (H : 2 * B * (f a * g a) <= P * (g a * g a) + Q * (f a * f a)).
  { destruct (Req_dec_T P 0) as [E|E].
    - assert (B = 0) by nra. subst. nra.
    - assert (0 <= P * (P * (g a * g a) + Q * (f a * f a)
                        - 2 * B * (f a * g a))).
      { replace (P * (P * (g a * g a) + Q * (f a * f a) - 2 * B * (f a * g a)))
          with ((P * g a - B * f a) * (P * g a - B * f a)
                + (P * Q - B * B) * (f a * f a)) by ring.
        pose proof (Rle_0_sqr (P * g a - B * f a)) as S1.
        pose proof (Rle_0_sqr (f a)) as S2. unfold Rsqr in *. nra. }
      nra. }
  nra.
Qed.

Lemma rsum_cross_dev {A : Type} (f g : A -> R) (a b : R) (l : list A) :
  rsum (map (fun x => (f x - a) * (g x - b)) l)
  = rsum (map (fun x => f x * g x) l) - a * rsum (map g l)
    - b * rsum (map f l) + count (length l) * (a * b).
Proof.
  induction l as [|x l IH].
  - simpl. unfold count. simpl. ring.
  - simpl map. simpl rsum. simpl length. rewrite count_S, IH. ring.
Qed.

Lemma combine_map_map {A B C : Type} (f : A -> B) (g : A -> C) (l : list A) :
  combine (map f l) (map g l) = map (fun x => (f x, g x)) l.
Proof. induction l as [|x l IH]; simpl; [reflexivity | now rewrite IH]. Qed.

(** The three sums of pandas' formula, read on one list of rows. *)
Lemma cov_num_centered {A : Type} (f g : A -> R) (l : list A) :
  (2 <= length l)%nat ->
  cov_num (map f l) (map g l)
  = rsum (map (fun x => (f x - rmean (map f l)) * (g x - rmean (map g l))) l)
    / (count (length l) - 1).
Proof.
  intros Hn. unfold cov_num.
  rewrite combine_map_map, map_map. simpl.
  rewrite (rsum_cross_dev f g). unfold rmean. rewrite !length_map.
  assert (Hc : 0 < count (length l)) by (apply count_pos; lia).
  pose proof (count_gt_1 _ Hn). field. lra.
Qed.

Lemma sample_var_centered {A : Type} (f : A -> R) (l : list A) :
  sample_var (map f l)
  = rsum (map (fun x => (f x - rmean (map f l)) * (f x - rmean (map f l))) l)
    / (count (length l) - 1).
Proof. unfold sample_var. now rewrite map_map, length_map. Qed.

Lemma cov_sq_le_var {A : Type} (f g : A -> R) (l : list A) :
  (2 <= length l)%nat ->
  cov_num (map f l) (map g l) * cov_num (map f l) (map g l)
  <= sample_var (map f l) * sample_var (map g l).
Proof.
  intros Hn. rewrite cov_num_centered, !sample_var_centered by exact Hn.
  pose proof (count_gt_1 _ Hn) as Hc.
  pose proof (cauchy_schwarz (fun x => f x - rmean (map f l))
                (fun x => g x - rmean (map g l)) l) as CS.
  set (d := count (length l) - 1) in *.
  assert (Hi : 0 < / d) by now apply Rinv_0_lt_compat.
  unfold Rdiv.
  match goal with
  | |- ?b * / d * (?b * / d) <= ?p * / d * (?q * / d) =>
      replace (b * / d * (b * / d)) with (b * b * (/ d * / d)) by ring;
      replace (p * / d * (q * / d)) with (p * q * (/ d * / d)) by ring
  end.
  apply Rmult_le_compat_r; [nra | exact CS].
Qed.

(** A defined correlation lies in [-1, 1]. *)
Lemma corr_quotient_bounds (c vx vy : R) :
  0 <= vx -> 0 <= vy -> c * c <= vx * vy ->
  sqrt (vx * vy) <> 0 ->
  -1 <= c / sqrt (vx * vy) <= 1.
Proof.
  intros Hx Hy Hc Hd.
  assert (Hp : 0 <= vx * vy) by now apply Rmult_le_pos.
  pose proof (sqrt_pos (vx * vy)) as Hs.
  pose proof (sqrt_sqrt _ Hp) as Hq.
  set (d := sqrt (vx * vy)) in *.
  assert (Hd0 : 0 < d) by lra.
  assert (Hb : - d <= c <= d) by nra.
  split.
  - apply Rmult_le_reg_r with d; [exact Hd0|].
    unfold Rdiv. rewrite Rmult_assoc, Rinv_l by lra. lra.
  - apply Rmult_le_reg_r with d; [exact Hd0|].
    unfold Rdiv. rewrite Rmult_assoc, Rinv_l by lra. lra.
Qed.

(** The correlation of a window of finite pairs. *)
Lemma window_corr_reals {A : Type} (fx fy : A -> R) (win : list A) :
  window_corr (map (fun a => (Fin (fx a), Fin (fy a))) win)
  = fdiv (Fin (cov_num (map fx win) (map fy win)))
      (Fin (sqrt (sample_var (map fx win) * sample_var (map fy win)))).
Proof.
  unfold window_corr. rewrite !map_map. simpl.
  rewrite <- (map_map fx Fin), <- (map_map fy Fin), !all_fin_map_Fin.
  reflexivity.
Qed.

Lemma window_corr_bounded {A : Type} (fx fy : A -> R) (win : list A) :
  (2 <= length win)%nat ->
  let c := window_corr (map (fun a => (Fin (fx a), Fin (fy a))) win) in
  (c = NaN
   <-> sample_var (map fx win) = 0 \/ sample_var (map fy win) = 0)
  /\ (forall x, c = Fin x -> -1 <= x <= 1).
Proof.
  intros Hn c. unfold c. rewrite window_corr_reals.
  assert (Lx : (2 <= length (map fx win))%nat) by now rewrite length_map.
  assert (Ly : (2 <= length (map fy win))%nat) by now rewrite length_map.
  pose proof (sample_var_nonneg _ Lx) as Vx.
  pose proof (sample_var_nonneg _ Ly) as Vy.
  assert (Hp : 0 <= sample_var (map fx win) * sample_var (map fy win))
    by now apply Rmult_le_pos.
  simpl. unfold R_eqb.
  destruct (Req_dec_T (sqrt (sample_var (map fx win) * sample_var (map fy win))) 0)
    as [E|E].
  - split; [|discriminate]. split; [intros _|reflexivity].
    apply sqrt_eq_0 in E; [|exact Hp]. now apply Rmult_integral.
  - split.
    + split; [discriminate|]. intros H. exfalso. apply E.
      destruct H as [H|H]; rewrite H, ?Rmult_0_l, ?Rmult_0_r; apply sqrt_0.
    + intros x H. inversion H; subst x.
      apply corr_quotient_bounds; auto. now apply cov_sq_le_var.
Qed.

End CorrelationBounds.

Section SpineCorrelation.

Import AddChurn.

Lemma finite_pairs (l : list (float * float)) :
  (forall p, In p l -> exists t d, p = (Fin t, Fin d)) ->
  exists Q : list (R * R), l = map (fun q => (Fin (fst q), Fin (snd q))) Q.
Proof.
  induction l as [|p l IH]; intros H.
  - now exists [].
  - destruct IH as [Q ->]; [intros q Hq; apply H; now right|].
    destruct (H p) as (t & d & ->); [now left|].
    now exists ((t, d) :: Q).
Qed.

Lemma map2_map_map {A B C D : Type} (f : B -> C -> D) (a : A -> B) (b : A -> C)
  (l : list A) :
  map2 f (map a l) (map b l) = map (fun x => f (a x) (b x)) l.
Proof. induction l as [|x l IH]; simpl; [reflexivity | now rewrite IH]. Qed.

(** The columns of a spine, read on the list [Q] of its rows
    [(target_rw, driver_rw)], which are all defined. *)
Lemma spine_reals (df : list row) (s : spine) :
  _build_spine df = Some s ->
  exists Q : list (R * R),
    (MIN_POINTS <= length Q)%nat
    /\ len s = length Q
    /\ target_rw s = map (fun q => Fin (fst q)) Q
    /\ driver_rw s = map (fun q => Fin (snd q)) Q
    /\ driver_share s = map (fun q => _safe_div (Fin (snd q)) (Fin (fst q))) Q
    /\ rolling_corr s
       = rolling CORR_WINDOW window_corr
           (map (fun q => (Fin (snd q), Fin (fst q))) Q).
Proof.
  intros H. destruct (build_spine_inv _ _ H) as (Hn & Ht & Hd & Hs & Hc).
  destruct (finite_pairs (smoothed_rows df) (smoothed_rows_fin df)) as [Q E].
  rewrite E, map_map in Ht, Hd. simpl in Ht, Hd.
  rewrite E, length_map in Hn.
  exists Q. split; [exact Hn|]. split.
  { unfold len. now rewrite Ht, length_map. }
  split; [exact Ht|]. split; [exact Hd|]. split.
  - rewrite Hs, Hd, Ht. apply map2_map_map.
  - rewrite Hc, Hd, Ht. unfold roll_corr. now rewrite combine_map_map.
Qed.

Lemma constant_window_var {A : Type} (f : A -> R) (w : list A) :
  (2 <= length w)%nat ->
  constant_window (map (fun a => Fin (f a)) w) <-> sample_var (map f w) = 0.
Proof.
  intros Hn. rewrite <- (map_map f Fin), constant_window_Fin.
  symmetry. apply sample_var_zero_iff. now rewrite length_map.
Qed.

(** The rolling correlation at one position of a spine. *)
Lemma spine_corr_at (df : list row) (s : spine) (i : nat) :
  _build_spine df = Some s ->
  (i < len s)%nat ->
  match window_at CORR_WINDOW i (driver_rw s),
        window_at CORR_WINDOW i (target_rw s) with
  | Some wd, Some wt =>
      (nth i (rolling_corr s) NaN = NaN
       <-> constant_window wd \/ constant_window wt)
      /\ (forall c, nth i (rolling_corr s) NaN = Fin c -> -1 <= c <= 1)
  | _, _ => nth i (rolling_corr s) NaN = NaN
  end.
Proof.
  intros H Hi. destruct (spine_reals df s H) as (Q & Hn & Hl & Ht & Hd & _ & Hc).
  rewrite Hc, rolling_nth by (rewrite length_map; lia).
  rewrite Hd, Ht, !window_at_map.
  destruct (window_at CORR_WINDOW i Q) as [w|] eqn:W; [|reflexivity].
  assert (Lw : (2 <= length w)%nat).
  { assert (E : length w = CORR_WINDOW)
      by (apply (window_at_length CORR_WINDOW i Q w); [lia | exact W]).
    rewrite E. unfold CORR_WINDOW. lia. }
  destruct (window_corr_bounded snd fst w Lw) as [Hnan Hb].
  rewrite !constant_window_var by exact Lw. split; assumption.
Qed.

(** X3.  On every spine, the rolling correlation is null on the first
    seven rows; from the eighth row on it is null exactly when the
    driver's or the target's rolling sums are all equal over the 8-row
    window, and otherwise a number. *)
Theorem rolling_corr_null_pattern (df : list row) (s : spine) (i : nat) :
  _build_spine df = Some s ->
  (i < len s)%nat ->
  ((i < 7)%nat -> nth i (rolling_corr s) NaN = NaN)
  /\ ((7 <= i)%nat ->
      exists wd wt,
        window_at 8 i (driver_rw s) = Some wd
        /\ window_at 8 i (target_rw s) = Some wt
        /\ (nth i (rolling_corr s) NaN = NaN
            <-> constant_window wd \/ constant_window wt)).
Proof.
  intros H Hi. pose proof (spine_corr_at df s i H Hi) as P.
  destruct (build_spine_inv _ _ H) as (_ & _ & _ & _ & Hc).
  split.
  - intros H7. rewrite Hc. unfold roll_corr. apply rolling_early.
    unfold CORR_WINDOW. lia.
  - intros H7. change 8%nat with CORR_WINDOW.
    unfold window_at in *.
    replace (CORR_WINDOW <=? i + 1)%nat with true in *
      by (symmetry; apply Nat.leb_le; unfold CORR_WINDOW; lia).
    eexists _, _. split; [reflexivity|]. split; [reflexivity|]. apply P.
Qed.

Lemma rolling_corr_null_pattern_witness :
  exists s,
    _build_spine growing_table = Some s
    /\ ((7 < 7)%nat -> nth 7 (rolling_corr s) NaN = NaN)
    /\ ((7 <= 7)%nat ->
        exists wd wt,
          window_at 8 7 (driver_rw s) = Some wd
          /\ window_at 8 7 (target_rw s) = Some wt
          /\ (nth 7 (rolling_corr s) NaN = NaN
              <-> constant_window wd \/ constant_window wt)).
Proof.
  pose proof (build_spine_some growing_table growing_table_rows) as E.
  eexists. split; [exact E|].
  apply (rolling_corr_null_pattern growing_table _ 7 E).
  destruct (build_spine_lengths _ _ E) as (Hn & _). unfold MIN_POINTS in Hn. lia.
Defined.


End SpineCorrelation.

Section ReportedMetrics.

Import AddChurn.

Lemma rsum_bounds (a b : R) (l : list R) :
  (forall x, In x l -> a <= x <= b) ->
  count (length l) * a <= rsum l <= count (length l) * b.
Proof.
  induction l as [|x l IH]; intros H.
  - simpl. unfold count. simpl. lra.
  - simpl rsum. simpl length. rewrite count_S.
    assert (a <= x <= b) by (apply H; now left).
    assert (count (length l) * a <= rsum l <= count (length l) * b)
      by (apply IH; intros y Hy; apply H; now right).
    lra.
Qed.

Lemma rmean_bounds (a b : R) (l : list R) :
  l <> [] -> (forall x, In x l -> a <= x <= b) -> a <= rmean l <= b.
Proof.
  intros Hne H. pose proof (rsum_bounds a b l H) as [Hlo Hhi].
  assert (Hc : 0 < count (length l)).
  { apply count_pos. destruct l; [contradiction | simpl; lia]. }
  unfold rmean. split.
  - apply Rmult_le_reg_r with (count (length l)); [exact Hc|].
    unfold Rdiv. rewrite Rmult_assoc, Rinv_l by lra. lra.
  - apply Rmult_le_reg_r with (count (length l)); [exact Hc|].
    unfold Rdiv. rewrite Rmult_assoc, Rinv_l by lra. lra.
Qed.

Lemma series_mean_bounds (a b : R) (l : list float) (m : R) :
  (forall x, In (Fin x) l -> a <= x <= b) ->
  series_mean l = Fin m -> a <= m <= b.
Proof.
  intros H. unfold series_mean.
  destruct (skipna l) as [|y ys] eqn:E; [discriminate|].
  intros Hm. inversion Hm. apply rmean_bounds; [discriminate|].
  intros x Hx. apply H. apply skipna_In. now rewrite E.
Qed.

(** A result that carries metrics comes from a spine, and its fields
    are the values [_summarize_alignment] computes on that spine. *)
Lemma check_with_metrics
  (check : list row -> option dict) (df : list row) (r m : dict) :
  In check spine_checks ->
  check df = Some r ->
  dict_get "metrics" r = Some (VDict m) ->
  exists s name,
    _build_spine df = Some s
    /\ let avg := series_mean (tail CORR_WINDOW (rolling_corr s)) in
       let sh := series_mean (tail CORR_WINDOW (driver_share s)) in
       let score := _alignment_score (Some avg) (Some sh) in
       let a := fge avg (Fin CORR_ALIGNED) && fge sh (Fin SHARE_MIN)
                && fge score (Fin SCORE_ALIGNED) in
       r = [ ("driver", VStr name); ("aligned", VBool a);
             ("confidence",
              VStr (if a && fge score (Fin (80 / 100)) then "high"
                    else if a then "medium" else "low"));
             ("metrics", VDict m) ]
       /\ dict_get "corr_recent_avg" m = Some (float_or_none avg)
       /\ dict_get "share_recent_avg" m = Some (float_or_none sh)
       /\ dict_get "alignment_score" m = Some (VFloat score).
Proof.
  intros Hc Hr Hm. destruct (spine_checks_detect_with _ Hc) as [name ->].
  destruct (Nat.lt_ge_cases (length (smoothed_rows df)) MIN_POINTS) as [H|H].
  { rewrite (detect_with_insufficient name df H) in Hr.
    inversion Hr; subst r. discriminate. }
  assert (Hex : exists s, _build_spine df = Some s)
    by (eexists; apply (build_spine_some df H)).
  destruct Hex as [s Hs].
  destruct (build_spine_lengths _ _ Hs) as (Hn & _ & Lsh & _).
  destruct (summarize_values s) as (m' & Em & Hv).
  { unfold MIN_POINTS, CORR_WINDOW in *. lia. }
  { apply length_pos_nonnil. rewrite Lsh. unfold MIN_POINTS in Hn. lia. }
  unfold detect_with in Hr. rewrite Hs, Em in Hr.
  injection Hr as Er. subst r.
  cbn [dict_get String.eqb Ascii.eqb Bool.eqb] in Hm.
  injection Hm as Em'. subst m'.
  exists s, name. split; [exact Hs|]. cbv zeta. split; [reflexivity | exact Hv].
Qed.




(** X6.  How a check grades its confidence: "low" exactly when the
    result is not aligned, "high" exactly when it is aligned with an
    alignment_score of at least 0.80, "medium" exactly when it is
    aligned with a lower score. *)
Theorem confidence_grades
  (check : list row -> option dict) (df : list row) (r m : dict) :
  In check spine_checks ->
  check df = Some r ->
  dict_get "metrics" r = Some (VDict m) ->
  exists b conf score,
    dict_get "aligned" r = Some (VBool b)
    /\ dict_get "confidence" r = Some (VStr conf)
    /\ dict_get "alignment_score" m = Some (VFloat (Fin score))
    /\ (conf = "high" <-> b = true /\ 80 / 100 <= score)
    /\ (conf = "medium" <-> b = true /\ score < 80 / 100)
    /\ (conf = "low" <-> b = false).
Proof.
  intros Hc Hr Hm.
  destruct (check_with_metrics check df r m Hc Hr Hm)
    as (s & name & Hs & Er & _ & _ & Hscore).
  rewrite alignment_score_formula in Hscore, Er.
  set (x := 7 / 10 * _ + 3 / 10 * _) in *.
  set (a := _ && _ && _) in Er.
  exists a, (if a && fge (Fin x) (Fin (80 / 100)) then "high"
             else if a then "medium" else "low"), x.
  subst r. split; [reflexivity|]. split; [reflexivity|].
  split; [exact Hscore|].
  simpl fge. unfold R_leb.
  destruct a, (Rle_dec (80 / 100) x); simpl;
    repeat split; intros; try discriminate; try tauto; try lra;
    try (destruct H; discriminate); try (destruct H; lra).
Qed.




Lemma confidence_grades_witness :
  exists r m b conf score,
    _detect_postpaid_add_driver growing_table = Some r
    /\ dict_get "metrics" r = Some (VDict m)
    /\ dict_get "aligned" r = Some (VBool b)
    /\ dict_get "confidence" r = Some (VStr conf)
    /\ dict_get "alignment_score" m = Some (VFloat (Fin score))
    /\ (conf = "high" <-> b = true /\ 80 / 100 <= score)
    /\ (conf = "medium" <-> b = true /\ score < 80 / 100)
    /\ (conf = "low" <-> b = false).
Proof.
  destruct growing_table_aligned as (r & m & Er & _ & _ & Hm & _).
  destruct (confidence_grades _detect_postpaid_add_driver growing_table r m)
    as (b & conf & score & H); [simpl; auto | exact Er | exact Hm |].
  exists r, m, b, conf, score. tauto.
Defined.


End ReportedMetrics.

Section ShareBounds.

Import AddChurn.

Lemma rolling_pair {A : Type} (w : nat) (a1 a2 : list float -> float)
  (f g : A -> float) (P : list A) :
  combine (rolling w a1 (map f P)) (rolling w a2 (map g P))
  = map (fun i => match window_at w i P with
                  | Some win => (a1 (map f win), a2 (map g win))
                  | None => (NaN, NaN)
                  end)
        (seq 0 (length P)).
Proof.
  unfold rolling. rewrite !length_map, combine_map_map.
  apply map_ext. intros i. rewrite !window_at_map.
  now destruct (window_at w i P).
Qed.

Lemma window_sum_reals {A : Type} (f : A -> R) (win : list A) :
  window_sum (map (fun a => Fin (f a)) win) = Fin (rsum (map f win)).
Proof.
  unfold window_sum. now rewrite <- (map_map f Fin), all_fin_map_Fin.
Qed.

Lemma rsum_le {A : Type} (f g : A -> R) (l : list A) :
  (forall x, In x l -> 0 <= f x <= g x) ->
  0 <= rsum (map f l) <= rsum (map g l).
Proof.
  induction l as [|a l IH]; intros H; simpl; [lra|].
  assert (0 <= f a <= g a) by (apply H; now left).
  assert (0 <= rsum (map f l) <= rsum (map g l))
    by (apply IH; intros x Hx; apply H; now right).
  lra.
Qed.

Lemma counted_rows (l : list row) :
  (forall r, In r l ->
             exists t d, target r = Fin t /\ driver r = Fin d /\ 0 <= d <= t) ->
  exists P : list (R * R),
    map target l = map (fun p => Fin (fst p)) P
    /\ map driver l = map (fun p => Fin (snd p)) P
    /\ forall p, In p P -> 0 <= snd p <= fst p.
Proof.
  induction l as [|r l IH]; intros H.
  - exists []. split; [reflexivity|]. split; [reflexivity|]. intros q [].
  - destruct IH as (P & Ht & Hd & Hp); [intros x Hx; apply H; now right|].
    destruct (H r) as (t & d & Et & Ed & Hb); [now left|].
    exists ((t, d) :: P). simpl. rewrite Et, Ed, Ht, Hd.
    split; [reflexivity|]. split; [reflexivity|].
    intros q [<- | Hin]; [exact Hb | now apply Hp].
Qed.

(** When every week's driver count is between 0 and the target count,
    so is every pair of rolling sums the spine keeps. *)
Lemma smoothed_rows_ordered (df : list row) (p : float * float) :
  (forall r, In r df ->
             exists t d, target r = Fin t /\ driver r = Fin d /\ 0 <= d <= t) ->
  In p (smoothed_rows df) ->
  exists T D, p = (Fin T, Fin D) /\ 0 <= D <= T.
Proof.
  intros H Hin. unfold smoothed_rows, dropna_rw in Hin.
  apply filter_In in Hin. destruct Hin as [Hin Hf].
  destruct (counted_rows (sort_values week_start df)) as (P & Ht & Hd & Hp).
  { intros r Hr. apply H. now apply sort_values_In in Hr. }
  unfold roll_sum in Hin. rewrite Ht, Hd, rolling_pair in Hin.
  apply in_map_iff in Hin. destruct Hin as (i & <- & _).
  destruct (window_at ROLLING_WINDOW i P) as [win|] eqn:W.
  - rewrite !window_sum_reals. eexists _, _. split; [reflexivity|].
    apply rsum_le. intros q Hq. apply Hp.
    exact (window_at_incl _ _ _ _ _ W Hq).
  - discriminate.
Qed.

Lemma safe_div_ordered (T D x : R) :
  0 <= D <= T -> _safe_div (Fin D) (Fin T) = Fin x -> 0 <= x <= 1.
Proof.
  intros Hb. unfold _safe_div. simpl. unfold R_eqb.
  destruct (Req_dec_T T 0) as [E|E]; [discriminate|].
  intros H. inversion H; subst x.
  assert (HT : 0 < T) by lra. split.
  - apply Rmult_le_reg_r with T; [exact HT|].
    unfold Rdiv. rewrite Rmult_assoc, Rinv_l by lra. lra.
  - apply Rmult_le_reg_r with T; [exact HT|].
    unfold Rdiv. rewrite Rmult_assoc, Rinv_l by lra. lra.
Qed.

(** X8.  When every week's driver count is finite and between 0 and the
    target count, every defined driver share of the spine lies in
    [0, 1], and the share_recent_avg a check reports is null or lies in
    [0, 1]. *)
Theorem share_in_unit_interval
  (check : list row -> option dict) (df : list row) (r m : dict) :
  In check spine_checks ->
  (forall w, In w df ->
             exists t d, target w = Fin t /\ driver w = Fin d /\ 0 <= d <= t) ->
  check df = Some r ->
  dict_get "metrics" r = Some (VDict m) ->
  exists s,
    _build_spine df = Some s
    /\ (forall x, In (Fin x) (driver_share s) -> 0 <= x <= 1)
    /\ (dict_get "share_recent_avg" m = Some VNone
        \/ exists x, dict_get "share_recent_avg" m = Some (VFloat (Fin x))
                     /\ 0 <= x <= 1).
Proof.
  intros Hc Hrows Hr Hm.
  destruct (check_with_metrics check df r m Hc Hr Hm)
    as (s & name & Hs & _ & _ & Hshare & _).
  assert (Hentries : forall x, In (Fin x) (driver_share s) -> 0 <= x <= 1).
  { destruct (build_spine_inv _ _ Hs) as (_ & Ht & Hd & Hsh & _).
    rewrite Hsh, Hd, Ht, map2_map_map. intros x Hx.
    apply in_map_iff in Hx. destruct Hx as (p & E & Hp).
    destruct (smoothed_rows_ordered df p Hrows Hp) as (T & D & -> & Hb).
    exact (safe_div_ordered T D x Hb E). }
  exists s. split; [exact Hs|]. split; [exact Hentries|].
  destruct (series_mean (tail CORR_WINDOW (driver_share s))) as [|x] eqn:E.
  - left. exact Hshare.
  - right. exists x. split; [exact Hshare|].
    apply (series_mean_bounds 0 1 (tail CORR_WINDOW (driver_share s)));
      [|exact E].
    intros y Hy. apply Hentries. now apply tail_incl in Hy.
Qed.

Lemma growing_table_ordered (w : row) :
  In w growing_table ->
  exists t d, target w = Fin t /\ driver w = Fin d /\ 0 <= d <= t.
Proof.
  unfold growing_table, weekly_table. intros H.
  apply in_map_iff in H. destruct H as (i & <- & _). cbn [target driver].
  eexists _, _. split; [reflexivity|]. split; [reflexivity|].
  rewrite mult_IZR. assert (0 <= IZR (Z.of_nat i)) by (apply IZR_le; lia).
  lra.
Qed.

Lemma share_in_unit_interval_witness :
  exists r m s,
    _detect_postpaid_add_driver growing_table = Some r
    /\ dict_get "metrics" r = Some (VDict m)
    /\ _build_spine growing_table = Some s
    /\ (forall x, In (Fin x) (driver_share s) -> 0 <= x <= 1)
    /\ (dict_get "share_recent_avg" m = Some VNone
        \/ exists x, dict_get "share_recent_avg" m = Some (VFloat (Fin x))
                     /\ 0 <= x <= 1).
Proof.
  destruct growing_table_aligned as (r & m & Er & _ & _ & Hm & _).
  destruct (share_in_unit_interval _detect_postpaid_add_driver growing_table r m)
    as (s & H);
    [simpl; auto | exact growing_table_ordered | exact Er | exact Hm |].
  exists r, m, s. tauto.
Defined.

(** X9.  The alignment score never decreases when the correlation or
    the share increases. *)
Theorem alignment_score_monotone (c1 c2 s1 s2 : R) :
  c1 <= c2 -> s1 <= s2 ->
  exists x1 x2,
    _alignment_score (Some (Fin c1)) (Some (Fin s1)) = Fin x1
    /\ _alignment_score (Some (Fin c2)) (Some (Fin s2)) = Fin x2
    /\ x1 <= x2.
Proof.
  intros Hc Hs. rewrite !alignment_score_formula.
  eexists _, _. split; [reflexivity|]. split; [reflexivity|].
  simpl. assert (clamp01 s1 <= clamp01 s2).
  { unfold clamp01. r_decide; lra. }
  lra.
Qed.

Lemma alignment_score_monotone_witness :
  exists x1 x2,
    _alignment_score (Some (Fin 0)) (Some (Fin (1 / 10))) = Fin x1
    /\ _alignment_score (Some (Fin 1)) (Some (Fin (1 / 2))) = Fin x2
    /\ x1 <= x2.
Proof.
  apply (alignment_score_monotone 0 1 (1 / 10) (1 / 2)); lra.
Defined.

End ShareBounds.

(** * Further properties of the regime-shift engine *)

Section RegimeSpine.

Import Subscription.

Lemma lookup_weekly_nunique (w : Z) (df : list record) (ws : list Z) (k : nat) :
  lookup_week w (map (fun w' => (w', nunique w' df)) ws) = Some k ->
  k = nunique w df.
Proof.
  induction ws as [|w' ws IH]; simpl; [discriminate|].
  destruct (w =? w')%Z eqn:E.
  - apply Z.eqb_eq in E. subst w'. intros H. now inversion H.
  - exact IH.
Qed.

Lemma nunique_filter_le (flag : record -> bool) (w : Z) (df : list record) :
  (nunique w (filter flag df) <= nunique w df)%nat.
Proof.
  unfold nunique. apply NoDup_incl_length; [apply NoDup_nodup|].
  intros x Hx. apply nodup_In in Hx. apply nodup_In.
  apply in_map_iff in Hx. destruct Hx as (r & <- & Hr).
  apply in_map. apply filter_In in Hr. destruct Hr as [Hr Hw].
  apply filter_In in Hr. destruct Hr as [Hr _].
  apply filter_In. now split.
Qed.

(** A week of the weekly table has at least one subscription, and no
    more flagged subscriptions than subscriptions. *)
Lemma weekly_spine_counts (flag : record -> bool) (df : list record)
  (t : Z * float * float) :
  In t (weekly_spine flag df) ->
  exists n h, snd (fst t) = Fin (count n) /\ snd t = Fin (count h)
              /\ (1 <= n)%nat /\ (h <= n)%nat.
Proof.
  intros H. destruct (weekly_spine_total_positive flag df t H) as (n & En & Hn).
  unfold weekly_spine in H. apply sort_values_In in H.
  apply in_map_iff in H. destruct H as ([w n'] & <- & H). simpl in *.
  unfold weekly_nunique in H. apply in_map_iff in H.
  destruct H as (w' & E & _). inversion E; subst w' n'. clear E.
  exists (nunique w df).
  destruct (lookup_week w (weekly_nunique (filter flag df))) as [h|] eqn:L.
  - exists h. apply lookup_weekly_nunique in L. subst h.
    repeat split; auto.
    + inversion En. apply eq_IZR in H0. apply Nat2Z.inj in H0. lia.
    + apply nunique_filter_le.
  - exists 0%nat. repeat split; auto; [|lia].
    inversion En. apply eq_IZR in H0. apply Nat2Z.inj in H0. lia.
Qed.

Lemma weekly_columns (flag : record -> bool) (df : list record) :
  exists Q : list (R * R),
    length Q = length (group_weeks df)
    /\ map (fun t => snd (fst t)) (weekly_spine flag df)
       = map (fun q => Fin (fst q)) Q
    /\ map snd (weekly_spine flag df) = map (fun q => Fin (snd q)) Q
    /\ forall q, In q Q -> 1 <= fst q /\ 0 <= snd q <= fst q.
Proof.
  assert (L : length (weekly_spine flag df) = length (group_weeks df)).
  { unfold weekly_spine, weekly_nunique.
    now rewrite sort_values_length, !length_map. }
  rewrite <- L. clear L.
  pose proof (weekly_spine_counts flag df) as H.
  induction (weekly_spine flag df) as [|t l IH].
  - exists []. split; [reflexivity|]. split; [reflexivity|].
    split; [reflexivity|]. intros q [].
  - destruct IH as (Q & HL & Ht & Hh & Hq); [intros x Hx; apply H; now right|].
    destruct (H t) as (n & h & En & Eh & Hn & Hh'); [now left|].
    exists ((count n, count h) :: Q). simpl. rewrite En, Eh, Ht, Hh, HL.
    split; [reflexivity|]. split; [reflexivity|]. split; [reflexivity|].
    intros q [<- | Hin]; [|now apply Hq]. simpl. unfold count.
    assert (1 <= IZR (Z.of_nat n)) by (apply IZR_le; lia).
    assert (0 <= IZR (Z.of_nat h)) by (apply IZR_le; lia).
    assert (IZR (Z.of_nat h) <= IZR (Z.of_nat n)) by (apply IZR_le; lia).
    lra.
Qed.

Lemma list_as_map_nth {A : Type} (d : A) (l : list A) :
  l = map (fun i => nth i l d) (seq 0 (length l)).
Proof.
  assert (L : length l = length (map (fun i => nth i l d) (seq 0 (length l))))
    by now rewrite length_map, length_seq.
  apply (nth_ext _ _ d d L).
  intros n Hn.
  set (F := fun i => nth i l d).
  rewrite (nth_indep (map F (seq 0 (length l))) d (F 0%nat))
    by (rewrite length_map, length_seq; exact Hn).
  rewrite map_nth. now rewrite seq_nth.
Qed.

Lemma filter_map_comm {A B : Type} (f : B -> bool) (g : A -> B) (l : list A) :
  filter f (map g l) = map g (filter (fun x => f (g x)) l).
Proof.
  induction l as [|a l IH]; simpl; [reflexivity|].
  destruct (f (g a)); simpl; now rewrite IH.
Qed.

Lemma filter_seq_from (f : nat -> bool) (k n : nat) :
  (forall i, (i < k)%nat -> f i = false) ->
  (forall i, (k <= i < n)%nat -> f i = true) ->
  filter f (seq 0 n) = seq k (n - k).
Proof.
  intros Hlo Hhi. destruct (Nat.le_gt_cases k n) as [Hk|Hk].
  - replace n with (k + (n - k))%nat at 1 by lia.
    rewrite seq_app, filter_app. simpl.
    rewrite filter_none, filter_all; [reflexivity| |].
    + intros i Hi. apply in_seq in Hi. apply Hhi. lia.
    + intros i Hi. apply in_seq in Hi. apply Hlo. lia.
  - replace (n - k)%nat with 0%nat by lia. simpl.
    apply filter_none. intros i Hi. apply in_seq in Hi. apply Hlo. lia.
Qed.

Lemma window_mean_reals {A : Type} (f : A -> R) (win : list A) :
  window_mean (map (fun a => Fin (f a)) win) = Fin (rmean (map f win)).
Proof.
  unfold window_mean. now rewrite <- (map_map f Fin), all_fin_map_Fin.
Qed.

Lemma nth_map_Fin {A : Type} (f : A -> R) (l : list A) (i : nat) (d : A) :
  (i < length l)%nat ->
  nth i (map (fun a => Fin (f a)) l) NaN = Fin (f (nth i l d)).
Proof.
  intros Hi. set (F := fun a => Fin (f a)).
  rewrite (nth_indep (map F l) NaN (F d)) by now rewrite length_map.
  now rewrite map_nth.
Qed.

(** The spine of a regime check, row by row: the weekly table has one
    row [(total, flagged)] per week in [Q]; the spine has one row for each
    position from the fourth on, made of the sum of the totals and the
    mean of the shares over the four weeks that end there. *)
Lemma smoothed_spec (flag : record -> bool) (df : list record) :
  exists Q : list (R * R),
    length Q = length (group_weeks df)
    /\ (forall q, In q Q -> 1 <= fst q /\ 0 <= snd q <= fst q)
    /\ smoothed (weekly_spine flag df)
       = map (fun i =>
                let win := firstn 4 (skipn (i - 3) Q) in
                (Fin (rsum (map fst win)),
                 Fin (rmean (map (fun q => snd q / fst q) win))))
           (seq 3 (length Q - 3)).
Proof.
  destruct (weekly_columns flag df) as (Q & HL & Ht & Hh & Hq).
  exists Q. split; [exact HL|]. split; [exact Hq|].
  unfold smoothed. rewrite Ht, Hh, map2_map_map.
  rewrite (map_ext_in (fun q => fdiv (Fin (snd q)) (Fin (fst q)))
             (fun q => Fin (snd q / fst q))).
  2:{ intros q Hin. destruct (Hq q Hin) as [H1 _]. simpl.
      rewrite R_eqb_neq by lra. reflexivity. }
  unfold roll_sum, roll_mean, rolling. rewrite !length_map.
  rewrite (list_as_map_nth NaN (map (fun q => Fin (snd q / fst q)) Q)) at 1.
  rewrite length_map, !combine_map_map, filter_map_comm, map_map.
  rewrite (filter_seq_from _ 3).
  - apply map_ext_in. intros i Hi. apply in_seq in Hi.
    rewrite !window_at_map. unfold window_at.
    replace (4 <=? i + 1)%nat with true by (symmetry; apply Nat.leb_le; lia).
    replace (i + 1 - 4)%nat with (i - 3)%nat by lia.
    cbv zeta. simpl fst. simpl snd.
    now rewrite window_sum_reals, window_mean_reals.
  - intros i Hi. rewrite !window_at_map. unfold window_at.
    replace (4 <=? i + 1)%nat with false by (symmetry; apply Nat.leb_gt; lia).
    reflexivity.
  - intros i Hi. rewrite !window_at_map. unfold window_at.
    replace (4 <=? i + 1)%nat with true by (symmetry; apply Nat.leb_le; lia).
    rewrite window_sum_reals, window_mean_reals.
    rewrite (nth_map_Fin (fun q => snd q / fst q) Q i (0, 0)) by lia.
    reflexivity.
Qed.

End RegimeSpine.

Section RegimeInvariants.

Import Subscription.

Lemma rsum_lower (a : R) (l : list R) :
  (forall x, In x l -> a <= x) -> count (length l) * a <= rsum l.
Proof.
  induction l as [|x l IH]; intros H.
  - simpl. unfold count. simpl. lra.
  - simpl rsum. simpl length. rewrite count_S.
    assert (a <= x) by (apply H; now left).
    assert (count (length l) * a <= rsum l)
      by (apply IH; intros y Hy; apply H; now right).
    lra.
Qed.

Lemma rmean_lower (a : R) (l : list R) :
  l <> [] -> (forall x, In x l -> a <= x) -> a <= rmean l.
Proof.
  intros Hne H. pose proof (rsum_lower a l H) as Hlo.
  assert (Hc : 0 < count (length l)).
  { apply count_pos. destruct l; [contradiction | simpl; lia]. }
  unfold rmean. apply Rmult_le_reg_r with (count (length l)); [exact Hc|].
  unfold Rdiv. rewrite Rmult_assoc, Rinv_l by lra. lra.
Qed.



Lemma series_mean_map_Fin {A : Type} (g : A -> R) (l : list A) :
  series_mean (map (fun a => Fin (g a)) l)
  = match l with
    | [] => NaN
    | _ => Fin (rmean (map g l))
    end.
Proof.
  unfold series_mean.
  assert (E : skipna (map (fun a => Fin (g a)) l) = map g l)
    by (induction l as [|a l IH]; simpl; [reflexivity | now rewrite IH]).
  rewrite E. now destruct l.
Qed.

(** Every row of the spine of a regime check is defined; its 4-week
    volume is at least 4 (one subscription a week at least) and its
    4-week share lies in [0, 1]. *)
Lemma regime_spine_reals (flag : record -> bool) (df : list record) :
  exists I : list (R * R),
    smoothed (weekly_spine flag df)
    = map (fun q => (Fin (fst q), Fin (snd q))) I
    /\ length I = (length (nodup Z.eq_dec (map week_start df)) - 3)%nat
    /\ forall q, In q I -> 4 <= fst q /\ 0 <= snd q <= 1.
Proof.
  destruct (smoothed_spec flag df) as (Q & HL & Hq & E).
  set (W := fun i => firstn 4 (skipn (i - 3) Q)).
  exists (map (fun i => (rsum (map fst (W i)),
                         rmean (map (fun q => snd q / fst q) (W i))))
            (seq 3 (length Q - 3))).
  split; [rewrite E, map_map; reflexivity|]. split.
  { rewrite length_map, length_seq, HL. unfold group_weeks.
    now rewrite sort_values_length. }
  intros q Hin. apply in_map_iff in Hin. destruct Hin as (i & <- & Hi).
  apply in_seq in Hi. simpl fst. simpl snd.
  assert (LW : length (W i) = 4%nat).
  { unfold W. rewrite length_firstn, length_skipn. lia. }
  assert (HW : forall q, In q (W i) -> In q Q).
  { unfold W. intros q Hq'. apply (In_nth _ _ (0, 0)) in Hq'.
    destruct Hq' as (n & Hn & <-). rewrite length_firstn, length_skipn in Hn.
    rewrite nth_firstn.
    replace (n <? 4)%nat with true by (symmetry; apply Nat.ltb_lt; lia).
    rewrite nth_skipn. apply nth_In. lia. }
  assert (Hne : forall (f : R * R -> R), map f (W i) <> []).
  { intros f Hf. apply (f_equal (@length R)) in Hf.
    rewrite length_map, LW in Hf. discriminate. }
  split.
  - pose proof (rsum_lower 1 (map fst (W i))) as H.
    rewrite length_map, LW in H. unfold count in H. simpl in H.
    assert (4 * 1 <= rsum (map fst (W i))); [|lra].
    apply H. intros x Hx. apply in_map_iff in Hx.
    destruct Hx as (q & <- & Hq'). now apply Hq, HW.
  - apply rmean_bounds; [apply Hne|].
    intros x Hx. apply in_map_iff in Hx. destruct Hx as (q & <- & Hq').
    destruct (Hq q (HW q Hq')) as (H1 & H0 & Hle).
    assert (0 < fst q) by lra. split.
    + apply Rmult_le_reg_r with (fst q); [assumption|].
      unfold Rdiv. rewrite Rmult_assoc, Rinv_l by lra. lra.
    + apply Rmult_le_reg_r with (fst q); [assumption|].
      unfold Rdiv. rewrite Rmult_assoc, Rinv_l by lra. lra.
Qed.

Lemma regime_spine_length (flag : record -> bool) (df : list record) :
  length (smoothed (weekly_spine flag df))
  = (length (nodup Z.eq_dec (map week_start df)) - 3)%nat.
Proof.
  destruct (regime_spine_reals flag df) as (I & E & L & _).
  now rewrite E, length_map.
Qed.

(** X10.  In the spines of both regime checks every row is defined, its
    4-week volume adds_4w is at least 4 and its 4-week share lies in
    [0, 1]; the spine has three rows fewer than the segment has distinct
    weeks. *)
Theorem regime_spine_rows (df : list record) :
  (forall p, In p (high_spine df) \/ In p (value_spine df) ->
             exists a sh, p = (Fin a, Fin sh) /\ 4 <= a /\ 0 <= sh <= 1)
  /\ length (high_spine df)
     = (length (nodup Z.eq_dec (map week_start df)) - 3)%nat
  /\ length (value_spine df)
     = (length (nodup Z.eq_dec (map week_start df)) - 3)%nat.
Proof.
  unfold high_spine, value_spine.
  destruct (regime_spine_reals (fun r => _is_high_tier (product_name r)) df)
    as (I1 & E1 & L1 & H1).
  destruct (regime_spine_reals (fun r => value_flag (product_name r)) df)
    as (I2 & E2 & L2 & H2).
  rewrite E1, E2, !length_map. split; [|split; assumption].
  intros p [Hp|Hp]; apply in_map_iff in Hp; destruct Hp as (q & <- & Hq);
    eexists _, _; (split; [reflexivity|]); [now apply H1 | now apply H2].
Qed.

End RegimeInvariants.

Section RegimeMetrics.

Import Subscription.


Lemma postpaid_metrics_inv (master_df : list record) (r m : dict) :
  _detect_postpaid_driver master_df = Some r ->
  dict_get "metrics" r = Some (VDict m) ->
  segment_rows "postpaid" master_df <> []
  /\ (16 <= length (value_spine (segment_rows "postpaid" master_df)))%nat.
Proof.
  intros Hr Hm.
  destruct (list_nil_dec (segment_rows "postpaid" master_df)) as [E|Hne].
  { rewrite (postpaid_empty _ E) in Hr. injection Hr as <-. discriminate. }
  destruct (Nat.lt_ge_cases
              (length (value_spine (segment_rows "postpaid" master_df))) 16)
    as [H16|H16].
  { rewrite (postpaid_short _ Hne H16) in Hr. injection Hr as <-. discriminate. }
  auto.
Qed.




Lemma postpaid_values (master_df : list record) :
  let spine := value_spine (segment_rows "postpaid" master_df) in
  let recent := tail 8 spine in
  let previous := firstn 8 (tail 16 spine) in
  segment_rows "postpaid" master_df <> [] ->
  (16 <= length spine)%nat ->
  exists recent_corr avg_adds_recent avg_adds_previous avg_value_recent
         avg_value_previous adds_ratio share_delta detected,
    avg_adds_recent = series_mean (map fst recent)
    /\ avg_adds_previous = series_mean (map fst previous)
    /\ avg_value_recent = series_mean (map snd recent)
    /\ avg_value_previous = series_mean (map snd previous)
    /\ adds_ratio
       = (if fgt avg_adds_previous (Fin 0)
          then fdiv avg_adds_recent avg_adds_previous
          else Fin 0)
    /\ share_delta = fsub avg_value_recent avg_value_previous
    /\ detected
       = fge share_delta (Fin POSTPAID_STRONG_SHARE_DELTA)
         && fge adds_ratio (Fin POSTPAID_STRONG_ADDS_RATIO)
         && fge recent_corr (Fin POSTPAID_STRONG_CORR)
    /\ _detect_postpaid_driver master_df
       = Some [ ("segment", VStr "postpaid");
                ("driver", VStr "value_mix_shift");
                ("detected", VBool detected);
                ("confidence", VStr (if detected then "high" else "low"));
                ("metrics",
                 VDict [ ("adds_ratio", VFloat adds_ratio);
                         ("share_delta", VFloat share_delta);
                         ("recent_correlation", VFloat recent_corr);
                         ("avg_adds_previous", VFloat avg_adds_previous);
                         ("avg_adds_recent", VFloat avg_adds_recent);
                         ("value_share_previous", VFloat avg_value_previous);
                         ("value_share_recent", VFloat avg_value_recent) ]) ].
Proof.
  cbv zeta. intros Hne H16. unfold _detect_postpaid_driver.
  destruct (segment_rows "postpaid" master_df) as [|r0 df]; [easy|].
  set (spine := value_spine (r0 :: df)) in *.
  destruct (roll_corr_spine_last 6 spine) as [c Ec]; [lia|].
  apply Nat.ltb_ge in H16. rewrite H16. rewrite Ec.
  exists c. eexists _, _, _, _, _, _, _.
  repeat (split; [reflexivity|]). reflexivity.
Qed.

(** The means of the two columns over a non-empty set of spine rows. *)
Lemma regime_means (I : list (R * R)) (lo hi : R) :
  I <> [] ->
  (forall q, In q I -> 4 <= fst q /\ lo <= snd q <= hi) ->
  let rows := map (fun q => (Fin (fst q), Fin (snd q))) I in
  exists a sh,
    series_mean (map fst rows) = Fin a
    /\ series_mean (map snd rows) = Fin sh
    /\ 4 <= a /\ lo <= sh <= hi.
Proof.
  intros Hne H rows. unfold rows. rewrite !map_map. simpl.
  rewrite !series_mean_map_Fin.
  destruct I as [|q0 I']; [contradiction|].
  eexists _, _. split; [reflexivity|]. split; [reflexivity|].
  assert (N : forall f : R * R -> R, map f (q0 :: I') <> [])
    by (intros f; discriminate).
  split.
  - apply rmean_lower; [apply N|]. intros x Hx.
    apply in_map_iff in Hx. destruct Hx as (q & <- & Hq). now apply H.
  - apply rmean_bounds; [apply N|]. intros x Hx.
    apply in_map_iff in Hx. destruct Hx as (q & <- & Hq). now apply H.
Qed.




Lemma tail_map {A B : Type} (f : A -> B) (n : nat) (l : list A) :
  tail n (map f l) = map f (tail n l).
Proof. unfold tail. now rewrite length_map, skipn_map. Qed.

Lemma tail_length {A : Type} (n : nat) (l : list A) :
  (n <= length l)%nat -> length (tail n l) = n.
Proof. intros H. unfold tail. rewrite length_skipn. lia. Qed.

Lemma firstn_incl {A : Type} (n : nat) (l : list A) (x : A) :
  In x (firstn n l) -> In x l.
Proof.
  intros H. rewrite <- (firstn_skipn n l). apply in_or_app. now left.
Qed.

(** X14.  What the value-mix check reports when it computes metrics:
    adds_ratio is a positive number (the fallback to 0 is never taken,
    every 4-week volume being at least 4) and share_delta is a number in
    [-1, 1]. *)
Theorem value_mix_metric_values (master_df : list record) (r m : dict) :
  _detect_postpaid_driver master_df = Some r ->
  dict_get "metrics" r = Some (VDict m) ->
  exists x d prev,
    dict_get "adds_ratio" m = Some (VFloat (Fin x))
    /\ 0 < x
    /\ dict_get "share_delta" m = Some (VFloat (Fin d))
    /\ -1 <= d <= 1
    /\ dict_get "avg_adds_previous" m = Some (VFloat (Fin prev))
    /\ 4 <= prev.
Proof.
  intros Hr Hm.
  destruct (postpaid_metrics_inv master_df r m Hr Hm) as (Hne & H16).
  destruct (postpaid_values master_df Hne H16)
    as (rc & ar' & ap & vr & vp & ar & sd & det
        & Ear' & Eap & Evr & Evp & Ear & Esd & Edet & E).
  rewrite Hr in E. injection E as Er. subst r.
  cbn [dict_get String.eqb Ascii.eqb Bool.eqb] in Hm. injection Hm as Em.
  subst m. cbn [dict_get String.eqb Ascii.eqb Bool.eqb]. clear Hr.
  destruct (regime_spine_reals (fun r => value_flag (product_name r))
              (segment_rows "postpaid" master_df)) as (I & ES & _ & HI).
  unfold value_spine in *. rewrite ES in *. clear ES.
  rewrite length_map in H16.
  rewrite !tail_map in Ear', Eap, Evr, Evp.
  rewrite firstn_map in Eap, Evp.
  remember (tail 8 I) as Irec eqn:DIrec.
  remember (firstn 8 (tail 16 I)) as Iprev eqn:DIprev.
  assert (Hrec : forall q, In q Irec -> 4 <= fst q /\ 0 <= snd q <= 1).
  { intros q Hq. rewrite DIrec in Hq. apply tail_incl in Hq. now apply HI. }
  assert (Hprev : forall q, In q Iprev -> 4 <= fst q /\ 0 <= snd q <= 1).
  { intros q Hq. rewrite DIprev in Hq. apply firstn_incl, tail_incl in Hq.
    now apply HI. }
  assert (Nrec : Irec <> []).
  { intros E. apply (f_equal (@length (R * R))) in E.
    rewrite DIrec, tail_length in E by lia. discriminate. }
  assert (Nprev : Iprev <> []).
  { intros E. apply (f_equal (@length (R * R))) in E.
    rewrite DIprev, length_firstn, tail_length in E by lia. discriminate. }
  destruct (regime_means Irec 0 1 Nrec Hrec) as (a1 & h1 & Ea1 & Eh1 & Ha1 & Hh1).
  destruct (regime_means Iprev 0 1 Nprev Hprev)
    as (a0 & h0 & Ea0 & Eh0 & Ha0 & Hh0).
  cbv zeta in Ea1, Eh1, Ea0, Eh0.
  rewrite Ea1 in Ear'. rewrite Eh1 in Evr. rewrite Ea0 in Eap. rewrite Eh0 in Evp.
  subst ar' ap vr vp. simpl in Ear, Esd. unfold R_ltb, R_eqb in Ear.
  destruct (Rlt_dec 0 a0); [|lra]. destruct (Req_dec_T a0 0); [lra|].
  subst ar sd. exists (a1 / a0), (h1 - h0), a0.
  split; [reflexivity|]. split; [apply Rdiv_lt_0_compat; lra|].
  split; [reflexivity|]. split; [lra|]. split; [reflexivity | exact Ha0].
Qed.

Lemma value_weeks_full :
  exists r m,
    _detect_postpaid_driver value_weeks = Some r
    /\ dict_get "metrics" r = Some (VDict m).
Proof.
  assert (H19 : (19 <= length (nodup Z.eq_dec
                                (map week_start
                                   (segment_rows "postpaid" value_weeks))))%nat)
    by (vm_compute; lia).
  assert (Hne : segment_rows "postpaid" value_weeks <> [])
    by (intros E; rewrite E in H19; simpl in H19; lia).
  assert (H16 : (16 <= length (value_spine
                                 (segment_rows "postpaid" value_weeks)))%nat).
  { unfold value_spine. rewrite regime_spine_length.
    generalize dependent (length (nodup Z.eq_dec
                                    (map week_start
                                       (segment_rows "postpaid" value_weeks)))).
    intros n Hn. lia. }
  destruct (postpaid_full value_weeks Hne H16) as (r & Er & F).
  apply full_result_fields in F. destruct F as (m & _ & Hm & _).
  exists r, m. split; assumption.
Qed.

Lemma value_mix_metric_values_witness :
  exists r m x d prev,
    _detect_postpaid_driver value_weeks = Some r
    /\ dict_get "metrics" r = Some (VDict m)
    /\ dict_get "adds_ratio" m = Some (VFloat (Fin x))
    /\ 0 < x
    /\ dict_get "share_delta" m = Some (VFloat (Fin d))
    /\ -1 <= d <= 1
    /\ dict_get "avg_adds_previous" m = Some (VFloat (Fin prev))
    /\ 4 <= prev.
Proof.
  destruct value_weeks_full as (r & m & Er & Hm).
  destruct (value_mix_metric_values value_weeks r m Er Hm)
    as (x & d & prev & H).
  exists r, m, x, d, prev. tauto.
Defined.

End RegimeMetrics.

Section RegimeInputs.

Import Subscription.

Lemma segment_rows_app (seg : string) (a b : list record) :
  segment_rows seg (a ++ b)%list
  = (segment_rows seg a ++ segment_rows seg b)%list.
Proof. unfold segment_rows. apply filter_app. Qed.

Lemma segment_rows_none (seg : string) (l : list record) :
  (forall r, In r l -> segment r <> seg) -> segment_rows seg l = [].
Proof.
  intros H. unfold segment_rows. apply filter_none.
  intros r Hr. apply String.eqb_neq. now apply H.
Qed.

(** A check reads the master table through its segment only. *)
Lemma regime_check_segment (v : variant) (m1 m2 : list record) :
  segment_rows (segment_of v) m1 = segment_rows (segment_of v) m2 ->
  regime_check v m1 = regime_check v m2.
Proof.
  intros H. destruct v; simpl in *.
  - unfold _detect_prepaid_driver. now rewrite H.
  - unfold _detect_postpaid_driver. now rewrite H.
Qed.

(** X15.  Records of other segments do not influence a check: adding
    records whose segment is not the one the check reads (the comparison
    is exact, so "Prepaid" is not "prepaid"), before or after the table,
    leaves its result unchanged. *)
Theorem other_segments_are_ignored
  (v : variant) (master_df extra : list record) :
  (forall r, In r extra -> segment r <> segment_of v) ->
  regime_check v (master_df ++ extra)%list = regime_check v master_df
  /\ regime_check v (extra ++ master_df)%list = regime_check v master_df.
Proof.
  intros H. split; apply regime_check_segment;
    rewrite segment_rows_app, (segment_rows_none _ extra H).
  - apply app_nil_r.
  - reflexivity.
Qed.

Lemma other_segments_are_ignored_witness :
  regime_check Premium (premium_weeks ++ value_weeks)%list
  = regime_check Premium premium_weeks
  /\ regime_check Premium (value_weeks ++ premium_weeks)%list
     = regime_check Premium premium_weeks.
Proof.
  apply (other_segments_are_ignored Premium premium_weeks value_weeks).
  intros r Hr. unfold value_weeks in Hr. apply in_map_iff in Hr.
  destruct Hr as (i & <- & _). simpl. discriminate.
Defined.

Lemma nodup_dup {A : Type} (dec : forall x y : A, {x = y} + {x <> y})
  (x : A) (l : list A) :
  In x l -> nodup dec (x :: l) = nodup dec l.
Proof. intros H. simpl. destruct (in_dec dec x l); [reflexivity | contradiction]. Qed.

Lemma weekly_nunique_dup (r : record) (df : list record) :
  In r df -> weekly_nunique (r :: df) = weekly_nunique df.
Proof.
  intros H. unfold weekly_nunique.
  assert (G : group_weeks (r :: df) = group_weeks df).
  { unfold group_weeks. cbn [map]. rewrite nodup_dup; [reflexivity|].
    now apply in_map. }
  rewrite G. apply map_ext. intros w. f_equal.
  unfold nunique. cbn [filter].
  destruct (week_start r =? w)%Z eqn:E; [|reflexivity].
  cbn [map]. rewrite nodup_dup; [reflexivity|].
  apply in_map. apply filter_In. now split.
Qed.

Lemma weekly_spine_dup (flag : record -> bool) (r : record) (df : list record) :
  In r df -> weekly_spine flag (r :: df) = weekly_spine flag df.
Proof.
  intros H. unfold weekly_spine. rewrite (weekly_nunique_dup r df H).
  cbn [filter]. destruct (flag r) eqn:F; [|reflexivity].
  rewrite weekly_nunique_dup; [reflexivity|].
  apply filter_In. now split.
Qed.

(** X16.  Subscriptions are counted once: repeating a record that is
    already in the master table leaves the result of both checks
    unchanged. *)
Theorem repeated_record_is_ignored
  (v : variant) (r : record) (master_df : list record) :
  In r master_df ->
  regime_check v (r :: master_df) = regime_check v master_df.
Proof.
  intros H.
  assert (S : forall seg,
             segment_rows seg (r :: master_df) = segment_rows seg master_df
             \/ (segment_rows seg (r :: master_df)
                 = r :: segment_rows seg master_df
                 /\ In r (segment_rows seg master_df))).
  { intros seg. unfold segment_rows. cbn [filter].
    destruct (String.eqb (segment r) seg) eqn:E; [right | now left].
    split; [reflexivity|]. apply filter_In. now split. }
  destruct v; simpl.
  - unfold _detect_prepaid_driver.
    destruct (S "prepaid") as [-> | [-> Hin]]; [reflexivity|].
    destruct (segment_rows "prepaid" master_df) as [|r0 df] eqn:E;
      [contradiction|].
    unfold high_spine. now rewrite (weekly_spine_dup _ r (r0 :: df) Hin).
  - unfold _detect_postpaid_driver.
    destruct (S "postpaid") as [-> | [-> Hin]]; [reflexivity|].
    destruct (segment_rows "postpaid" master_df) as [|r0 df] eqn:E;
      [contradiction|].
    unfold value_spine. now rewrite (weekly_spine_dup _ r (r0 :: df) Hin).
Qed.

Lemma repeated_record_is_ignored_witness :
  regime_check Premium
    (mk_record 1 "s1" (Some "Unlimited Plan") "prepaid" :: premium_weeks)
  = regime_check Premium premium_weeks.
Proof.
  apply (repeated_record_is_ignored Premium). unfold premium_weeks.
  simpl. auto.
Defined.


End RegimeInputs.

(** * Properties of the prepared frames *)

Section PreparedFrames.

Import FullAnalysis.

Lemma week_values_In (w : Z) (df : list order) :
  In w (week_values df) <-> exists o, In o df /\ week_start o = Some w.
Proof.
  induction df as [|o df IH]; simpl.
  - split; [intros [] | intros (o & [] & _)].
  - destruct (week_start o) as [w'|] eqn:E; simpl; rewrite IH; split.
    + intros [<- | (x & Hx & Ex)]; [exists o; auto | exists x; auto].
    + intros (x & [<- | Hx] & Ex); [left; congruence | right; exists x; auto].
    + intros (x & Hx & Ex). exists x; auto.
    + intros (x & [<- | Hx] & Ex); [congruence | exists x; auto].
Qed.

Lemma group_keys_In (w : Z) (df : list order) :
  In w (group_keys df) <-> exists o, In o df /\ week_start o = Some w.
Proof.
  unfold group_keys. rewrite <- week_values_In. split; intros H.
  - apply sort_values_In in H. now apply nodup_In in H.
  - apply (Permutation_in _ (Permutation_sym (sort_values_perm _ _))).
    now apply nodup_In.
Qed.

Lemma group_keys_NoDup (df : list order) : NoDup (group_keys df).
Proof.
  unfold group_keys.
  apply (Permutation_NoDup (Permutation_sym (sort_values_perm _ _))).
  apply NoDup_nodup.
Qed.

Lemma sorted_strict (l : list Z) :
  StronglySorted Z.le l -> NoDup l -> StronglySorted Z.lt l.
Proof.
  induction 1 as [|a l S IH F]; intros N; constructor.
  - apply IH. now inversion N.
  - inversion N as [|? ? Na _]; subst. rewrite Forall_forall in *.
    intros x Hx. pose proof (F x Hx).
    assert (a <> x) by (intros ->; contradiction). lia.
Qed.

Lemma group_keys_increasing (df : list order) :
  StronglySorted Z.lt (group_keys df).
Proof.
  apply sorted_strict; [|apply group_keys_NoDup].
  unfold group_keys. exact (sort_values_sorted (fun w => w) _).
Qed.

Lemma group_nonempty (w : Z) (df : list order) :
  In w (group_keys df) -> group w df <> [].
Proof.
  intros H. apply group_keys_In in H. destruct H as (o & Ho & E).
  assert (In o (group w df)).
  { unfold group. apply filter_In. split; [exact Ho|].
    unfold in_week. rewrite E. apply Z.eqb_refl. }
  intros N. now rewrite N in *.
Qed.

Lemma nodup_length_pos {A : Type} (dec : forall x y : A, {x = y} + {x <> y})
  (l : list A) :
  l <> [] -> (1 <= length (nodup dec l))%nat.
Proof.
  destruct l as [|a l]; [congruence|]. intros _.
  assert (In a (nodup dec (a :: l))) by (apply nodup_In; now left).
  destruct (nodup dec (a :: l)); [contradiction | simpl; lia].
Qed.

Lemma nodup_length_le {A : Type} (dec : forall x y : A, {x = y} + {x <> y})
  (l : list A) :
  (length (nodup dec l) <= length l)%nat.
Proof.
  induction l as [|a l IH]; simpl; [lia|].
  destruct (in_dec dec a l); simpl; lia.
Qed.

Lemma filter_length_bound {A : Type} (f : A -> bool) (l : list A) :
  (length (filter f l) <= length l)%nat.
Proof.
  induction l as [|a l IH]; simpl; [lia|]. destruct (f a); simpl; lia.
Qed.

Lemma NoDup_filter_map {A B : Type} (g : A -> B) (f : A -> bool) (l : list A) :
  NoDup (map g l) -> NoDup (map g (filter f l)).
Proof.
  induction l as [|a l IH]; simpl; intros N; [constructor|].
  inversion N as [|? ? Na N']; subst.
  destruct (f a); simpl; [constructor|]; auto.
  intros H. apply Na. apply in_map_iff in H. destruct H as (x & E & Hx).
  apply filter_In in Hx. apply in_map_iff. exists x. tauto.
Qed.

(** With one row per order key, the distinct keys of a group are its
    rows. *)
Lemma nunique_is_rows (w : Z) (df : list order) :
  NoDup (map order_key df) ->
  length (nodup string_dec (map order_key (group w df))) = length (group w df).
Proof.
  intros N. unfold group.
  rewrite nodup_fixed_point by now apply NoDup_filter_map.
  apply length_map.
Qed.

Lemma nunique_keys_length (df : list order) :
  length (nunique_keys df) = length (group_keys df).
Proof. unfold nunique_keys. apply length_map. Qed.

Lemma count_rows_length (flag : order -> bool) (df : list order) :
  length (count_rows flag df) = length (group_keys df).
Proof. unfold count_rows. apply length_map. Qed.

Lemma nunique_keys_pos (df : list order) (n : nat) :
  In n (nunique_keys df) -> (1 <= n)%nat.
Proof.
  unfold nunique_keys. intros H. apply in_map_iff in H.
  destruct H as (w & <- & Hw). apply nodup_length_pos.
  pose proof (group_nonempty w df Hw) as Hne.
  destruct (group w df); [contradiction | discriminate].
Qed.

Lemma Forall2_map_same {A B C : Type} (R : B -> C -> Prop) (f : A -> B)
  (g : A -> C) (l : list A) :
  (forall x, In x l -> R (f x) (g x)) -> Forall2 R (map f l) (map g l).
Proof.
  induction l as [|a l IH]; intros H; simpl; constructor.
  - apply H. now left.
  - apply IH. intros x Hx. apply H. now right.
Qed.

Lemma count_rows_le_nunique (flag : order -> bool) (df : list order) :
  NoDup (map order_key df) ->
  Forall2 le (count_rows flag df) (nunique_keys df).
Proof.
  intros N. unfold count_rows, nunique_keys. apply Forall2_map_same.
  intros w _. rewrite (nunique_is_rows w df N). apply filter_length_bound.
Qed.

Lemma Forall2_le_refl (l : list nat) : Forall2 le l l.
Proof. induction l; constructor; auto. Qed.

Lemma selection_keys (c : add_churn_check) (orders : list order) :
  NoDup (map order_key orders) -> NoDup (map order_key (selection c orders)).
Proof. destruct c; apply NoDup_filter_map. Qed.

End PreparedFrames.

Section PreparedFramesClaims.

Import FullAnalysis.

(** X18.  The four frames [prepare_add_churn_driver_frames] returns are
    well formed: the weeks are strictly increasing, every column is as
    long as the week column, and every week of a frame has a target
    count (adds or churn) of at least one. *)
Theorem prepared_frames_shape (orders : list order) (a b c d f : frame) :
  prepare_add_churn_driver_frames orders = (a, b, c, d) ->
  In f [a; b; c; d] ->
  StronglySorted Z.lt (week_col f)
  /\ (forall name col,
         In (name, col) (columns f) -> length col = length (week_col f))
  /\ (forall col n,
         column "adds" (columns f) = Some col
         \/ column "churn" (columns f) = Some col ->
         In n col -> (1 <= n)%nat).
Proof.
  unfold prepare_add_churn_driver_frames. intros E Hf. injection E as <- <- <- <-.
  assert (G : exists df tname cols,
             f = mk_frame (group_keys df) ((tname, nunique_keys df) :: cols)
             /\ (tname = "adds" \/ tname = "churn")
             /\ (forall name col, In (name, col) cols ->
                                  exists flag, col = count_rows flag df)
             /\ column "adds" cols = None /\ column "churn" cols = None).
  { destruct Hf as [<- | [<- | [<- | [<- | []]]]];
      eexists _, _, _; (split; [reflexivity|]); (split; [auto|]);
        (split; [|split; reflexivity]); simpl; intros name col H;
          repeat (destruct H as [H|H]; [inversion H; eexists; reflexivity|]);
          contradiction. }
  destruct G as (df & tname & cols & -> & Ht & Hcols & Na & Nc). simpl.
  split; [apply group_keys_increasing|]. split.
  - intros name col [H|H].
    + inversion H. apply nunique_keys_length.
    + destruct (Hcols name col H) as [flag ->]. apply count_rows_length.
  - intros col n H Hn. apply (nunique_keys_pos df).
    destruct Ht as [-> | ->]; simpl in H; rewrite ?Na, ?Nc in H;
      destruct H as [H|H]; try discriminate; now injection H as <-.
Qed.

(** X19.  When every order key occurs in one row of the orders table,
    no count column of a frame exceeds the frame's target column, week
    by week. *)
Theorem driver_counts_bounded
  (orders : list order) (a b c d f : frame) (tcol col : list nat)
  (name : string) :
  NoDup (map order_key orders) ->
  prepare_add_churn_driver_frames orders = (a, b, c, d) ->
  In f [a; b; c; d] ->
  column "adds" (columns f) = Some tcol
  \/ column "churn" (columns f) = Some tcol ->
  In (name, col) (columns f) ->
  Forall2 le col tcol.
Proof.
  intros N E Hf Ht Hc. unfold prepare_add_churn_driver_frames in E.
  injection E as <- <- <- <-.
  pose proof (selection_keys PostpaidAdds orders N) as N1.
  pose proof (selection_keys PostpaidChurn orders N) as N2.
  pose proof (selection_keys PrepaidAdds orders N) as N3.
  pose proof (selection_keys PrepaidChurn orders N) as N4.
  simpl in N1, N2, N3, N4.
  destruct Hf as [<- | [<- | [<- | [<- | []]]]]; simpl in Ht, Hc;
    destruct Ht as [Ht|Ht]; try discriminate; injection Ht as <-;
      repeat (destruct Hc as [Hc|Hc];
              [injection Hc as _ <-;
               first [apply Forall2_le_refl | now apply count_rows_le_nunique]|]);
      contradiction.
Qed.

Lemma prepared_frames_shape_witness :
  exists a b c d,
    prepare_add_churn_driver_frames sample_orders = (a, b, c, d)
    /\ StronglySorted Z.lt (week_col a)
    /\ (forall name col,
           In (name, col) (columns a) -> length col = length (week_col a))
    /\ (forall col n,
           column "adds" (columns a) = Some col
           \/ column "churn" (columns a) = Some col ->
           In n col -> (1 <= n)%nat).
Proof.
  eexists _, _, _, _. split; [reflexivity|].
  apply (prepared_frames_shape sample_orders _ _ _ _ _ eq_refl).
  left. reflexivity.
Defined.

Lemma sample_orders_keys : NoDup (map order_key sample_orders).
Proof.
  assert (E : nodup string_dec (map order_key sample_orders)
              = map order_key sample_orders) by (vm_compute; reflexivity).
  rewrite <- E. apply NoDup_nodup.
Qed.

Lemma driver_counts_bounded_witness :
  Forall2 le (count_rows is_retail (adds_postpaid sample_orders))
    (nunique_keys (adds_postpaid sample_orders)).
Proof.
  eapply (driver_counts_bounded sample_orders) with (name := "is_retail");
    [ exact sample_orders_keys | reflexivity | left; reflexivity
    | left; reflexivity | right; left; reflexivity ].
Defined.

(** Without that assumption the bound can fail: an order entered on two
    retail rows counts once in adds and twice in is_retail. *)
Example repeated_order_key_exceeds_target :
  let '(a, _, _, _) := prepare_add_churn_driver_frames two_row_order in
  column "adds" (columns a) = Some [1%nat]
  /\ column "is_retail" (columns a) = Some [2%nat].
Proof. split; reflexivity. Qed.

End PreparedFramesClaims.

Section Pipeline.

Import AddChurn FullAnalysis.

Lemma combine3_map {A B C : Type} (f : A -> B) (g : A -> C) (l : list A) :
  combine (combine l (map f l)) (map g l) = map (fun w => (w, f w, g w)) l.
Proof. induction l as [|a l IH]; simpl; [reflexivity | now rewrite IH]. Qed.

Lemma add_churn_drivers_unfold (orders : list order) :
  add_churn_drivers orders
  = detect_add_churn_drivers
      (weekly_rows is_retail (adds_postpaid orders))
      (weekly_rows is_competitive (churn_postpaid orders))
      (weekly_rows is_portin (adds_prepaid orders))
      (weekly_rows is_financial (churn_prepaid orders)).
Proof.
  unfold add_churn_drivers, prepare_add_churn_driver_frames.
  unfold rows_of. cbn [columns week_col column String.eqb Ascii.eqb Bool.eqb].
  unfold nunique_keys, count_rows, weekly_rows.
  now rewrite !combine3_map, !map_map.
Qed.

Lemma weekly_rows_length (flag : order -> bool) (df : list order) :
  length (weekly_rows flag df) = length (group_keys df).
Proof. unfold weekly_rows. apply length_map. Qed.

Lemma weekly_rows_counts (flag : order -> bool) (df : list order) (r : row) :
  In r (weekly_rows flag df) ->
  exists n k,
    target r = Fin (count n) /\ driver r = Fin (count k)
    /\ (1 <= n)%nat /\ (NoDup (map order_key df) -> (k <= n)%nat).
Proof.
  unfold weekly_rows. intros H. apply in_map_iff in H.
  destruct H as (w & <- & Hw). eexists _, _.
  split; [reflexivity|]. split; [reflexivity|]. split.
  - apply nodup_length_pos. pose proof (group_nonempty w df Hw).
    destruct (group w df); [contradiction | discriminate].
  - intros N. rewrite (nunique_is_rows w df N). apply filter_length_bound.
Qed.

Lemma count_le (k n : nat) : (k <= n)%nat -> count k <= count n.
Proof. intros H. unfold count. apply IZR_le. lia. Qed.

Lemma finite_rows (P : R -> R -> Prop) (l : list row) :
  (forall r, In r l ->
             exists t d, target r = Fin t /\ driver r = Fin d /\ P t d) ->
  exists Q : list (R * R),
    map target l = map (fun q => Fin (fst q)) Q
    /\ map driver l = map (fun q => Fin (snd q)) Q
    /\ length Q = length l
    /\ forall q, In q Q -> P (fst q) (snd q).
Proof.
  induction l as [|r l IH]; intros H.
  - exists []. repeat split. intros q [].
  - destruct IH as (Q & Ht & Hd & HL & Hq); [intros x Hx; apply H; now right|].
    destruct (H r) as (t & d & Et & Ed & Hp); [now left|].
    exists ((t, d) :: Q). simpl. rewrite Et, Ed, Ht, Hd, HL.
    split; [reflexivity|]. split; [reflexivity|]. split; [reflexivity|].
    intros q [<- | Hin]; [exact Hp | now apply Hq].
Qed.

Lemma smoothed_rows_exact (df : list row) :
  (forall r, In r df -> exists t d, target r = Fin t /\ driver r = Fin d) ->
  length (smoothed_rows df) = (length df - 3)%nat.
Proof.
  intros H.
  destruct (finite_rows (fun _ _ => True) (sort_values AddChurn.week_start df))
    as (Q & Ht & Hd & HL & _).
  { intros r Hr. apply sort_values_In in Hr.
    destruct (H r Hr) as (t & d & Et & Ed). now exists t, d. }
  rewrite sort_values_length in HL.
  unfold smoothed_rows, dropna_rw, roll_sum. rewrite Ht, Hd, rolling_pair.
  rewrite filter_map_comm, length_map, (filter_seq_from _ 3).
  - now rewrite length_seq, HL.
  - intros i Hi. unfold window_at.
    replace (ROLLING_WINDOW <=? i + 1)%nat with false
      by (symmetry; apply Nat.leb_gt; unfold ROLLING_WINDOW; lia).
    reflexivity.
  - intros i Hi. unfold window_at.
    replace (ROLLING_WINDOW <=? i + 1)%nat with true
      by (symmetry; apply Nat.leb_le; unfold ROLLING_WINDOW; lia).
    now rewrite !window_sum_reals.
Qed.

Lemma smoothed_rows_positive (df : list row) (p : float * float) :
  (forall r, In r df ->
             exists t d, target r = Fin t /\ driver r = Fin d
                         /\ 1 <= t /\ 0 <= d) ->
  In p (smoothed_rows df) ->
  exists T D, p = (Fin T, Fin D) /\ 4 <= T /\ 0 <= D.
Proof.
  intros H Hin. unfold smoothed_rows, dropna_rw in Hin.
  apply filter_In in Hin. destruct Hin as [Hin Hf].
  destruct (finite_rows (fun t d => 1 <= t /\ 0 <= d)
              (sort_values AddChurn.week_start df)) as (Q & Ht & Hd & _ & Hq).
  { intros r Hr. apply H. now apply sort_values_In in Hr. }
  unfold roll_sum in Hin. rewrite Ht, Hd, rolling_pair in Hin.
  apply in_map_iff in Hin. destruct Hin as (i & <- & Hi). apply in_seq in Hi.
  destruct (window_at ROLLING_WINDOW i Q) as [win|] eqn:W.
  - rewrite !window_sum_reals. eexists _, _. split; [reflexivity|].
    assert (L : length win = 4%nat)
      by (apply (window_at_length _ i Q); [lia | exact W]).
    split.
    + pose proof (rsum_lower 1 (map fst win)) as B.
      rewrite length_map, L in B. unfold count in B. simpl in B.
      rewrite Rmult_1_r in B. apply B. intros x Hx.
      apply in_map_iff in Hx. destruct Hx as (q & <- & Hq').
      apply Hq. exact (window_at_incl _ _ _ _ _ W Hq').
    + pose proof (rsum_lower 0 (map snd win)) as B.
      rewrite Rmult_0_r in B. apply B. intros x Hx.
      apply in_map_iff in Hx. destruct Hx as (q & <- & Hq').
      apply Hq. exact (window_at_incl _ _ _ _ _ W Hq').
  - discriminate.
Qed.

Lemma weekly_rows_finite (flag : order -> bool) (df : list order) (r : row) :
  In r (weekly_rows flag df) ->
  exists t d, target r = Fin t /\ driver r = Fin d.
Proof.
  intros H. destruct (weekly_rows_counts flag df r H) as (n & k & Et & Ed & _).
  now exists (count n), (count k).
Qed.

(** A check on the rows of a prepared frame: metrics exactly when the
    frame has at least fifteen weeks. *)
Lemma weekly_check_result (name : string) (flag : order -> bool)
  (df : list order) :
  exists r,
    detect_with name (weekly_rows flag df) = Some r
    /\ ((exists m, dict_get "metrics" r = Some (VDict m))
        <-> (15 <= length (group_keys df))%nat)
    /\ (dict_get "reason" r = Some (VStr "Insufficient data")
        <-> (length (group_keys df) < 15)%nat).
Proof.
  pose proof (smoothed_rows_exact (weekly_rows flag df)
                (weekly_rows_finite flag df)) as L.
  rewrite weekly_rows_length in L.
  destruct (Nat.lt_ge_cases (length (group_keys df)) 15) as [H|H].
  - eexists. split.
    { apply detect_with_insufficient. unfold MIN_POINTS. lia. }
    cbn [dict_get String.eqb Ascii.eqb Bool.eqb]. split; split.
    + intros [m Hm]. discriminate.
    + lia.
    + intros _. exact H.
    + reflexivity.
  - assert (Hs : exists s, _build_spine (weekly_rows flag df) = Some s).
    { eexists. apply build_spine_some. unfold MIN_POINTS. lia. }
    destruct Hs as [s Hs].
    destruct (detect_with_sufficient name _ s Hs) as (a & c & m & _ & ->).
    eexists. split; [reflexivity|].
    cbn [dict_get String.eqb Ascii.eqb Bool.eqb]. split; split.
    + intros _. exact H.
    + intros _. now exists m.
    + discriminate.
    + lia.
Qed.

Lemma add_churn_drivers_some (orders : list order) :
  exists pa pc ra,
    detect_with "retail_add_growth"
      (weekly_rows is_retail (adds_postpaid orders)) = Some pa
    /\ detect_with "competitive_churn_spike"
         (weekly_rows is_competitive (churn_postpaid orders)) = Some pc
    /\ detect_with "portin_add_growth"
         (weekly_rows is_portin (adds_prepaid orders)) = Some ra
    /\ add_churn_drivers orders
       = Some [ ("add_churn_driver_analysis",
                 VDict [ ("postpaid",
                          VDict [ ("adds", VDict pa); ("churn", VDict pc) ]);
                         ("prepaid",
                          VDict [ ("adds", VDict ra);
                                  ("churn", VDict no_driver_stub) ]) ]) ].
Proof.
  destruct (weekly_check_result "retail_add_growth" is_retail
              (adds_postpaid orders)) as (pa & Ea & _).
  destruct (weekly_check_result "competitive_churn_spike" is_competitive
              (churn_postpaid orders)) as (pc & Ec & _).
  destruct (weekly_check_result "portin_add_growth" is_portin
              (adds_prepaid orders)) as (ra & Er & _).
  exists pa, pc, ra. split; [exact Ea|]. split; [exact Ec|]. split; [exact Er|].
  rewrite add_churn_drivers_unfold. unfold detect_add_churn_drivers.
  unfold _detect_postpaid_add_driver, _detect_postpaid_churn_driver,
    _detect_prepaid_add_driver, _detect_prepaid_churn_driver.
  now rewrite Ea, Ec, Er.
Qed.

(** The entry of the result a path leads to is what the check of that
    name returns on the rows of its frame. *)
Lemma entry_of_result (orders : list order) (res r : dict)
  (c : add_churn_check) :
  add_churn_drivers orders = Some res ->
  dict_path (result_path c) (VDict res) = Some (VDict r) ->
  run_add_churn_check c (weekly_rows (driver_flag c) (selection c orders))
  = Some r.
Proof.
  destruct (add_churn_drivers_some orders) as (pa & pc & ra & Ea & Ec & Er & E).
  rewrite E. intros [= <-].
  destruct c; cbn [result_path dict_path dict_get String.eqb Ascii.eqb Bool.eqb];
    intros [= <-]; simpl; auto.
Qed.

End Pipeline.

Section PreparedShare.

Import AddChurn FullAnalysis.

Lemma series_mean_lower (a : R) (l : list float) :
  l <> [] ->
  (forall y, In y l -> exists x, y = Fin x /\ a <= x) ->
  exists m, series_mean l = Fin m /\ a <= m.
Proof.
  intros Hne H. unfold series_mean.
  destruct (skipna l) as [|y ys] eqn:E.
  - destruct l as [|y l]; [contradiction|].
    destruct (H y) as (x & -> & _); [now left|]. discriminate.
  - eexists. split; [reflexivity|]. apply rmean_lower; [discriminate|].
    intros x Hx. rewrite <- E in Hx. apply skipna_In in Hx.
    destruct (H _ Hx) as (x' & Ex & Hx'). now injection Ex as ->.
Qed.

Lemma safe_div_positive (T D : R) :
  4 <= T -> _safe_div (Fin D) (Fin T) = Fin (D / T).
Proof.
  intros H. unfold _safe_div. simpl. now rewrite R_eqb_neq by lra.
Qed.

Lemma quotient_nonneg (T D : R) : 4 <= T -> 0 <= D -> 0 <= D / T.
Proof.
  intros HT HD. apply Rmult_le_reg_r with T; [lra|].
  unfold Rdiv. rewrite Rmult_assoc, Rinv_l by lra. lra.
Qed.

Lemma quotient_le_1 (T D : R) : 4 <= T -> D <= T -> D / T <= 1.
Proof.
  intros HT HD. apply Rmult_le_reg_r with T; [lra|].
  unfold Rdiv. rewrite Rmult_assoc, Rinv_l by lra. lra.
Qed.

Lemma tail_nonempty {A : Type} (n : nat) (l : list A) :
  (0 < n)%nat -> l <> [] -> tail n l <> [].
Proof.
  intros Hn Hl. apply length_pos_nonnil. unfold tail. rewrite length_skipn.
  destruct l; [contradiction | cbn [length]; lia].
Qed.

(** The share a check reports on the rows of a prepared frame. *)
Lemma weekly_share (check : list row -> option dict) (flag : order -> bool)
  (df : list order) (r m : dict) :
  In check spine_checks ->
  check (weekly_rows flag df) = Some r ->
  dict_get "metrics" r = Some (VDict m) ->
  exists x,
    dict_get "share_recent_avg" m = Some (VFloat (Fin x))
    /\ 0 <= x
    /\ (NoDup (map order_key df) -> x <= 1).
Proof.
  intros Hc Hr Hm.
  destruct (check_with_metrics check _ r m Hc Hr Hm)
    as (s & name & Hs & _ & _ & Hshare & _).
  destruct (build_spine_inv _ _ Hs) as (_ & Ht & Hd & Hsh & _).
  destruct (build_spine_lengths _ _ Hs) as (Hn & _ & Lsh & _).
  rewrite Hd, Ht, map2_map_map in Hsh.
  assert (Hrows : forall p, In p (smoothed_rows (weekly_rows flag df)) ->
                   exists T D, p = (Fin T, Fin D) /\ 4 <= T /\ 0 <= D).
  { intros p Hp. apply (smoothed_rows_positive (weekly_rows flag df)); [|exact Hp].
    intros w Hw. destruct (weekly_rows_counts flag df w Hw)
      as (n & k & Et & Ed & Hn1 & _).
    exists (count n), (count k). split; [exact Et|]. split; [exact Ed|].
    split; [|apply count_nonneg].
    change 1 with (count 1). now apply count_le. }
  assert (Hne : tail CORR_WINDOW (driver_share s) <> []).
  { apply tail_nonempty; [unfold CORR_WINDOW; lia|].
    apply length_pos_nonnil. rewrite Lsh. unfold MIN_POINTS in Hn. lia. }
  destruct (series_mean_lower 0 _ Hne) as (x & Ex & Hx).
  { intros y Hy. apply tail_incl in Hy. rewrite Hsh in Hy.
    apply in_map_iff in Hy. destruct Hy as (p & <- & Hp).
    destruct (Hrows p Hp) as (T & D & -> & HT & HD). simpl fst. simpl snd.
    rewrite safe_div_positive by exact HT.
    eexists. split; [reflexivity|]. now apply quotient_nonneg. }
  exists x. rewrite Ex in Hshare. split; [exact Hshare|]. split; [exact Hx|].
  intros N.
  apply (series_mean_bounds 0 1 (tail CORR_WINDOW (driver_share s)));
    [|exact Ex].
  intros y Hy. apply tail_incl in Hy. rewrite Hsh in Hy.
  apply in_map_iff in Hy. destruct Hy as (p & E & Hp).
  destruct (smoothed_rows_ordered (weekly_rows flag df) p) as (T & D & -> & Hb);
    [|exact Hp|].
  - intros w Hw. destruct (weekly_rows_counts flag df w Hw)
      as (n & k & Et & Ed & _ & Hkn).
    exists (count n), (count k). split; [exact Et|]. split; [exact Ed|].
    split; [apply count_nonneg | apply count_le, Hkn, N].
  - exact (safe_div_ordered T D y Hb E).
Qed.

End PreparedShare.

Section PipelineClaims.

Import AddChurn FullAnalysis.

(** X20.  The driver analysis of the pipeline always returns its four
    entries.  The prepaid churn entry is the constant stub; each of the
    other three carries metrics exactly when its selection of orders
    spans at least fifteen distinct weeks, and answers "Insufficient
    data" otherwise. *)
Theorem add_churn_drivers_entries (orders : list order) :
  exists res,
    add_churn_drivers orders = Some res
    /\ dict_path (result_path PrepaidChurn) (VDict res)
       = Some (VDict no_driver_stub)
    /\ forall c, c <> PrepaidChurn ->
         exists r,
           dict_path (result_path c) (VDict res) = Some (VDict r)
           /\ ((exists m, dict_get "metrics" r = Some (VDict m))
               <-> (15 <= length (group_keys (selection c orders)))%nat)
           /\ (dict_get "reason" r = Some (VStr "Insufficient data")
               <-> (length (group_keys (selection c orders)) < 15)%nat).
Proof.
  destruct (add_churn_drivers_some orders) as (pa & pc & ra & Ea & Ec & Er & E).
  eexists. split; [exact E|]. split; [reflexivity|].
  intros c Hc.
  destruct c; [exists pa | exists pc | exists ra | contradiction];
    (split; [reflexivity|]).
  - destruct (weekly_check_result "retail_add_growth" is_retail
                (adds_postpaid orders)) as (r & Hr & H).
    rewrite Ea in Hr. injection Hr as <-. exact H.
  - destruct (weekly_check_result "competitive_churn_spike" is_competitive
                (churn_postpaid orders)) as (r & Hr & H).
    rewrite Ec in Hr. injection Hr as <-. exact H.
  - destruct (weekly_check_result "portin_add_growth" is_portin
                (adds_prepaid orders)) as (r & Hr & H).
    rewrite Er in Hr. injection Hr as <-. exact H.
Qed.

(** X21.  In the pipeline the reported share_recent_avg is never null:
    every week of a frame has at least one order, so no rolling target
    is zero.  It is never negative, and at most 1 when every order key
    occurs in one row of the orders table. *)
Theorem prepared_share_is_a_number
  (orders : list order) (res r m : dict) (c : add_churn_check) :
  add_churn_drivers orders = Some res ->
  dict_path (result_path c) (VDict res) = Some (VDict r) ->
  c <> PrepaidChurn ->
  dict_get "metrics" r = Some (VDict m) ->
  exists x,
    dict_get "share_recent_avg" m = Some (VFloat (Fin x))
    /\ 0 <= x
    /\ (NoDup (map order_key orders) -> x <= 1).
Proof.
  intros E Hp Hc Hm. pose proof (entry_of_result orders res r c E Hp) as Hr.
  destruct (weekly_share (run_add_churn_check c) (driver_flag c)
              (selection c orders) r m) as (x & Hx & H0 & H1);
    [|exact Hr | exact Hm|].
  - destruct c; simpl; auto.
  - exists x. split; [exact Hx|]. split; [exact H0|].
    intros N. apply H1. now apply selection_keys.
Qed.

Lemma sample_orders_weeks :
  (15 <= length (group_keys (adds_postpaid sample_orders)))%nat.
Proof. vm_compute. lia. Qed.

Lemma prepared_share_is_a_number_witness :
  exists res r m x,
    add_churn_drivers sample_orders = Some res
    /\ dict_path (result_path PostpaidAdds) (VDict res) = Some (VDict r)
    /\ dict_get "metrics" r = Some (VDict m)
    /\ dict_get "share_recent_avg" m = Some (VFloat (Fin x))
    /\ 0 <= x
    /\ (NoDup (map order_key sample_orders) -> x <= 1).
Proof.
  destruct (add_churn_drivers_some sample_orders)
    as (pa & pc & ra & Ea & _ & _ & E).
  destruct (weekly_check_result "retail_add_growth" is_retail
              (adds_postpaid sample_orders)) as (r & Hr & Hiff & _).
  assert (Hm : exists m, dict_get "metrics" r = Some (VDict m))
    by (apply Hiff; exact sample_orders_weeks).
  destruct Hm as [m Hm].
  assert (Epa : pa = r) by congruence. subst pa.
  destruct (prepared_share_is_a_number sample_orders _ r m PostpaidAdds
              E eq_refl) as (x & H); [discriminate | exact Hm |].
  eexists. exists r, m, x. split; [exact E|]. split; [reflexivity|].
  split; [exact Hm | exact H].
Defined.

End PipelineClaims.

Section FrameInputs.

Import FullAnalysis.

Lemma week_values_app (a b : list order) :
  week_values (a ++ b)%list = (week_values a ++ week_values b)%list.
Proof.
  induction a as [|o a IH]; simpl; [reflexivity|].
  destruct (week_start o); simpl; now rewrite IH.
Qed.

Lemma week_values_weekless (e : list order) :
  (forall o, In o e -> week_start o = None) -> week_values e = [].
Proof.
  induction e as [|o e IH]; intros H; simpl; [reflexivity|].
  rewrite (H o) by now left. apply IH. intros x Hx. apply H. now right.
Qed.

Lemma group_weekless (w : Z) (e : list order) :
  (forall o, In o e -> week_start o = None) -> group w e = [].
Proof.
  intros H. unfold group. apply filter_none. intros o Ho.
  unfold in_week. now rewrite (H o Ho).
Qed.

Lemma week_values_perm (a b : list order) :
  Permutation a b -> Permutation (week_values a) (week_values b).
Proof.
  induction 1 as [|o a b P IH|o o' a|a b c P1 IH1 P2 IH2]; simpl.
  - constructor.
  - destruct (week_start o); [now constructor | exact IH].
  - destruct (week_start o), (week_start o'); try reflexivity. constructor.
  - now transitivity (week_values b).
Qed.

Lemma filter_permutation {A : Type} (f : A -> bool) (a b : list A) :
  Permutation a b -> Permutation (filter f a) (filter f b).
Proof.
  induction 1 as [|x a b P IH|x y a|a b c P1 IH1 P2 IH2]; simpl.
  - constructor.
  - destruct (f x); [now constructor | exact IH].
  - destruct (f x), (f y); try reflexivity. constructor.
  - now transitivity (filter f b).
Qed.

Lemma nodup_permutation {A : Type} (dec : forall x y : A, {x = y} + {x <> y})
  (a b : list A) :
  Permutation a b -> Permutation (nodup dec a) (nodup dec b).
Proof.
  intros P. apply NoDup_Permutation; try apply NoDup_nodup.
  intros x. rewrite !nodup_In. split; apply Permutation_in; [|symmetry]; exact P.
Qed.

(** The columns of a frame depend on the selection only through its
    weeks and the rows of each week, up to their order. *)
Lemma frame_columns_ext (df df' : list order) :
  Permutation (week_values df) (week_values df') ->
  (forall w, Permutation (group w df) (group w df')) ->
  group_keys df' = group_keys df
  /\ nunique_keys df' = nunique_keys df
  /\ forall flag, count_rows flag df' = count_rows flag df.
Proof.
  intros Pw Pg.
  assert (K : group_keys df' = group_keys df).
  { unfold group_keys. apply sort_values_permutation.
    - rewrite map_id. apply NoDup_nodup.
    - now apply nodup_permutation. }
  split; [exact K|]. unfold nunique_keys, count_rows. rewrite K. split.
  - apply map_ext. intros w. apply Permutation_length, nodup_permutation.
    apply Permutation_map. symmetry. apply Pg.
  - intros flag. apply map_ext. intros w. apply Permutation_length.
    apply filter_permutation. symmetry. apply Pg.
Qed.

Lemma prepare_ext (o1 o2 : list order) :
  (forall c, Permutation (week_values (selection c o1))
               (week_values (selection c o2))
             /\ forall w, Permutation (group w (selection c o1))
                            (group w (selection c o2))) ->
  prepare_add_churn_driver_frames o2 = prepare_add_churn_driver_frames o1.
Proof.
  intros H. unfold prepare_add_churn_driver_frames.
  destruct (frame_columns_ext _ _ (proj1 (H PostpaidAdds)) (proj2 (H PostpaidAdds)))
    as (K1 & U1 & C1).
  destruct (frame_columns_ext _ _ (proj1 (H PostpaidChurn)) (proj2 (H PostpaidChurn)))
    as (K2 & U2 & C2).
  destruct (frame_columns_ext _ _ (proj1 (H PrepaidAdds)) (proj2 (H PrepaidAdds)))
    as (K3 & U3 & C3).
  destruct (frame_columns_ext _ _ (proj1 (H PrepaidChurn)) (proj2 (H PrepaidChurn)))
    as (K4 & U4 & C4).
  simpl in *.
  now rewrite K1, U1, !C1, K2, U2, !C2, K3, U3, !C3, K4, U4, !C4.
Qed.

Lemma add_churn_drivers_ext (o1 o2 : list order) :
  prepare_add_churn_driver_frames o2 = prepare_add_churn_driver_frames o1 ->
  add_churn_drivers o2 = add_churn_drivers o1.
Proof. intros H. unfold add_churn_drivers. now rewrite H. Qed.

Lemma selection_app (c : add_churn_check) (a b : list order) :
  selection c (a ++ b)%list = (selection c a ++ selection c b)%list.
Proof. destruct c; apply filter_app. Qed.

Lemma selection_permutation (c : add_churn_check) (a b : list order) :
  Permutation a b -> Permutation (selection c a) (selection c b).
Proof. destruct c; apply filter_permutation. Qed.

(** What every selection asks of an order. *)
Lemma selected_order (c : add_churn_check) (orders : list order) (o : order) :
  In o (selection c orders) ->
  In o orders
  /\ eq_str (segment__c o) "B2C" = true
  /\ isin (vlocity_cmt__accountpaymenttype__c o) ["Postpaid"; "Prepaid"] = true
  /\ isin (type o) ["Sales"; "Add"; "Disconnect"] = true.
Proof.
  intros H.
  assert (G : In o orders
              /\ eq_str (segment__c o) "B2C" = true
              /\ (eq_str (vlocity_cmt__accountpaymenttype__c o) "Postpaid" = true
                  \/ eq_str (vlocity_cmt__accountpaymenttype__c o) "Prepaid" = true)
              /\ (isin (type o) ["Sales"; "Add"] = true
                  \/ eq_str (type o) "Disconnect" = true)).
  { destruct c; apply filter_In in H; destruct H as [Hin H];
      rewrite !andb_true_iff in H; tauto. }
  destruct G as (Hin & Hs & Hp & Ht). split; [exact Hin|]. split; [exact Hs|].
  unfold isin, eq_str in *. split.
  - destruct (vlocity_cmt__accountpaymenttype__c o) as [s|];
      [|destruct Hp; discriminate].
    cbn [existsb]. destruct Hp as [-> | ->]; now rewrite ?orb_true_r.
  - destruct (type o) as [s|]; [|destruct Ht; discriminate].
    cbn [existsb] in *. destruct Ht as [Ht | ->]; [|now rewrite !orb_true_r].
    apply orb_true_iff in Ht. destruct Ht as [-> | Ht]; [reflexivity|].
    apply orb_true_iff in Ht. destruct Ht as [-> | Ht]; [|discriminate].
    now rewrite orb_true_r.
Qed.

End FrameInputs.

Section FrameInputsClaims.

Import FullAnalysis.

(** X22.  Orders that cannot count are ignored: an order without a
    week, or not of segment B2C, or whose payment type is neither
    Postpaid nor Prepaid, or whose type is none of Sales, Add and
    Disconnect, changes no frame and no result, whether it is added
    before or after the table. *)
Theorem unqualified_orders_are_ignored (orders extra : list order) :
  (forall o, In o extra ->
             week_start o = None
             \/ eq_str (segment__c o) "B2C" = false
             \/ isin (vlocity_cmt__accountpaymenttype__c o)
                  ["Postpaid"; "Prepaid"] = false
             \/ isin (type o) ["Sales"; "Add"; "Disconnect"] = false) ->
  prepare_add_churn_driver_frames (orders ++ extra)%list
  = prepare_add_churn_driver_frames orders
  /\ prepare_add_churn_driver_frames (extra ++ orders)%list
     = prepare_add_churn_driver_frames orders
  /\ add_churn_drivers (orders ++ extra)%list = add_churn_drivers orders
  /\ add_churn_drivers (extra ++ orders)%list = add_churn_drivers orders.
Proof.
  intros H.
  assert (W : forall c o, In o (selection c extra) -> week_start o = None).
  { intros c o Ho. destruct (selected_order c extra o Ho) as (Hin & Hs & Hp & Ht).
    destruct (H o Hin) as [E | [E | [E | E]]]; [exact E | congruence ..]. }
  assert (A : prepare_add_churn_driver_frames (orders ++ extra)%list
              = prepare_add_churn_driver_frames orders).
  { apply prepare_ext. intros c. rewrite selection_app, week_values_app.
    rewrite (week_values_weekless _ (W c)), app_nil_r. split; [reflexivity|].
    intros w. unfold group at 2. rewrite filter_app. fold (group w (selection c orders)).
    fold (group w (selection c extra)).
    now rewrite (group_weekless w _ (W c)), app_nil_r. }
  assert (B : prepare_add_churn_driver_frames (extra ++ orders)%list
              = prepare_add_churn_driver_frames orders).
  { apply prepare_ext. intros c. rewrite selection_app, week_values_app.
    rewrite (week_values_weekless _ (W c)). split; [reflexivity|].
    intros w. unfold group at 2. rewrite filter_app. fold (group w (selection c orders)).
    fold (group w (selection c extra)).
    now rewrite (group_weekless w _ (W c)). }
  split; [exact A|]. split; [exact B|].
  split; now apply add_churn_drivers_ext.
Qed.

(** X23.  The frames, and so the driver analysis, do not depend on the
    order of the rows of the orders table. *)
Theorem order_of_orders_is_irrelevant (orders orders' : list order) :
  Permutation orders orders' ->
  prepare_add_churn_driver_frames orders'
  = prepare_add_churn_driver_frames orders
  /\ add_churn_drivers orders' = add_churn_drivers orders.
Proof.
  intros P.
  assert (A : prepare_add_churn_driver_frames orders'
              = prepare_add_churn_driver_frames orders).
  { apply prepare_ext. intros c.
    pose proof (selection_permutation c _ _ P) as Ps. split.
    - now apply week_values_perm.
    - intros w. now apply filter_permutation. }
  split; [exact A | now apply add_churn_drivers_ext].
Qed.

Lemma unqualified_orders_are_ignored_witness :
  prepare_add_churn_driver_frames (sample_orders ++ [undated_order])%list
  = prepare_add_churn_driver_frames sample_orders
  /\ prepare_add_churn_driver_frames ([undated_order] ++ sample_orders)%list
     = prepare_add_churn_driver_frames sample_orders
  /\ add_churn_drivers (sample_orders ++ [undated_order])%list
     = add_churn_drivers sample_orders
  /\ add_churn_drivers ([undated_order] ++ sample_orders)%list
     = add_churn_drivers sample_orders.
Proof.
  apply (unqualified_orders_are_ignored sample_orders [undated_order]).
  intros o [<- | []]. left. reflexivity.
Defined.

Lemma order_of_orders_is_irrelevant_witness :
  prepare_add_churn_driver_frames (rev sample_orders)
  = prepare_add_churn_driver_frames sample_orders
  /\ add_churn_drivers (rev sample_orders) = add_churn_drivers sample_orders.
Proof.
  apply (order_of_orders_is_irrelevant sample_orders). apply Permutation_rev.
Defined.

End FrameInputsClaims.

(** * Properties of the forecast runners *)

Section ForecastHorizon.

Import Forecast.

Lemma date_range_length (start : Z) (n : nat) : length (date_range start n) = n.
Proof. unfold date_range. now rewrite length_map, length_seq. Qed.

Lemma date_range_nth (start : Z) (n i : nat) :
  (i < n)%nat -> nth_error (date_range start n) i = Some (start + Z.of_nat i)%Z.
Proof.
  intros H. unfold date_range.
  rewrite nth_error_map, nth_error_nth' with (d := 0%nat)
    by (rewrite length_seq; exact H).
  now rewrite seq_nth.
Qed.

Lemma tail_nth_error {A : Type} (n i : nat) (l : list A) :
  (n <= length l)%nat ->
  nth_error (tail n l) i = nth_error l (length l - n + i).
Proof. intros H. unfold tail. now rewrite nth_error_skipn. Qed.

Lemma nth_error_combine {A B : Type} (l : list A) (l' : list B) (i : nat)
  (a : A) (b : B) :
  nth_error l i = Some a -> nth_error l' i = Some b ->
  nth_error (combine l l') i = Some (a, b).
Proof.
  revert l' i. induction l as [|x l IH]; intros [|y l'] [|i]; simpl;
    try discriminate.
  - now intros [= ->] [= ->].
  - apply IH.
Qed.

Lemma nth_error_default {A : Type} (l : list A) (i : nat) (d : A) :
  (i < length l)%nat -> nth_error l i = Some (nth i l d).
Proof. intros H. now apply nth_error_nth'. Qed.

Lemma gap_days_spec (last today : Z) :
  Z.of_nat (gap_days last today) = (Z.max today last - last)%Z.
Proof.
  unfold gap_days. destruct (Z.ltb_spec (today - last) 0); lia.
Qed.

(** X24.  When both models return as many values as steps are asked,
    the subscription forecast has exactly [horizon_days] rows, one per
    day from the day after today (after the last training date when
    that lies in the future); row [i] holds the models' values for step
    gap + i + 1, and its total is the sum of the two. *)
Theorem subscription_forecast_horizon
  (payload : subscription_payload) (today : Z) (horizon_days : nat) :
  length (prepaid_model payload
            (gap_days (sub_last_train_date payload) today + horizon_days)%nat)
  = (gap_days (sub_last_train_date payload) today + horizon_days)%nat ->
  length (postpaid_model payload
            (gap_days (sub_last_train_date payload) today + horizon_days)%nat)
  = (gap_days (sub_last_train_date payload) today + horizon_days)%nat ->
  exists rows,
    run_subscription_forecast payload today horizon_days = Some rows
    /\ length rows = horizon_days
    /\ forall i, (i < horizon_days)%nat ->
         exists r,
           nth_error rows i = Some r
           /\ sub_date r
              = (Z.max today (sub_last_train_date payload) + 1 + Z.of_nat i)%Z
           /\ prepaid_forecast r
              = nth (gap_days (sub_last_train_date payload) today + i)%nat
                  (prepaid_model payload
                     (gap_days (sub_last_train_date payload) today
                      + horizon_days)%nat)
                  NaN
           /\ postpaid_forecast r
              = nth (gap_days (sub_last_train_date payload) today + i)%nat
                  (postpaid_model payload
                     (gap_days (sub_last_train_date payload) today
                      + horizon_days)%nat)
                  NaN
           /\ total_forecast r = fadd (prepaid_forecast r) (postpaid_forecast r).
Proof.
  unfold run_subscription_forecast.
  set (last := sub_last_train_date payload).
  set (g := gap_days last today).
  set (steps := (g + horizon_days)%nat).
  set (pre := prepaid_model payload steps).
  set (post := postpaid_model payload steps).
  intros Lpre Lpost.
  rewrite date_range_length, Lpre, Lpost, Nat.eqb_refl. simpl.
  set (df := combine (combine (date_range (last + 1) steps) pre) post).
  assert (Ldf : length df = steps).
  { unfold df. rewrite !length_combine, date_range_length, Lpre, Lpost. lia. }
  eexists. split; [reflexivity|]. split.
  - unfold tail. rewrite length_skipn, length_map, Ldf. unfold steps. lia.
  - intros i Hi.
    rewrite tail_nth_error by (rewrite length_map, Ldf; unfold steps; lia).
    rewrite length_map, Ldf, nth_error_map.
    replace (steps - horizon_days + i)%nat with (g + i)%nat
      by (unfold steps; lia).
    assert (Hlt : (g + i < steps)%nat) by (unfold steps; lia).
    unfold df.
    rewrite (nth_error_combine _ _ _
               (last + 1 + Z.of_nat (g + i), nth (g + i) pre NaN)%Z
               (nth (g + i) post NaN)).
    + simpl. eexists. split; [reflexivity|]. simpl. split; [|auto].
      pose proof (gap_days_spec last today) as G. fold g in G. lia.
    + apply nth_error_combine.
      * now apply date_range_nth.
      * apply nth_error_default. now rewrite Lpre.
    + apply nth_error_default. now rewrite Lpost.
Qed.

(** X25.  When the four models return as many values as steps are
    asked, the add/churn forecast has exactly [horizon_days] rows, one
    per day from the day after today (after the last training date when
    that lies in the future); row [i] holds the models' values for step
    gap + i + 1. *)
Theorem add_churn_forecast_horizon
  (payload : add_churn_payload) (today : Z) (horizon_days : nat) :
  (forall m,
      In m [ prepaid_adds_model payload; prepaid_churn_model payload;
             postpaid_adds_model payload; postpaid_churn_model payload ] ->
      length (m (gap_days (ac_last_train_date payload) today + horizon_days)%nat)
      = (gap_days (ac_last_train_date payload) today + horizon_days)%nat) ->
  exists rows,
    run_add_churn_forecast payload today horizon_days = Some rows
    /\ length rows = horizon_days
    /\ forall i, (i < horizon_days)%nat ->
         exists r,
           nth_error rows i = Some r
           /\ ac_date r
              = (Z.max today (ac_last_train_date payload) + 1 + Z.of_nat i)%Z
           /\ let step := (gap_days (ac_last_train_date payload) today + i)%nat in
              let steps :=
                (gap_days (ac_last_train_date payload) today
                 + horizon_days)%nat in
              prepaid_adds_forecast r
              = nth step (prepaid_adds_model payload steps) NaN
              /\ prepaid_churn_forecast r
                 = nth step (prepaid_churn_model payload steps) NaN
              /\ postpaid_adds_forecast r
                 = nth step (postpaid_adds_model payload steps) NaN
              /\ postpaid_churn_forecast r
                 = nth step (postpaid_churn_model payload steps) NaN.
Proof.
  unfold run_add_churn_forecast.
  set (last := ac_last_train_date payload).
  set (g := gap_days last today).
  set (steps := (g + horizon_days)%nat).
  set (m1 := prepaid_adds_model payload steps).
  set (m2 := prepaid_churn_model payload steps).
  set (m3 := postpaid_adds_model payload steps).
  set (m4 := postpaid_churn_model payload steps).
  intros H.
  assert (L1 : length m1 = steps) by (apply H; simpl; auto).
  assert (L2 : length m2 = steps) by (apply H; simpl; auto).
  assert (L3 : length m3 = steps) by (apply H; simpl; auto).
  assert (L4 : length m4 = steps) by (apply H; simpl; auto).
  rewrite date_range_length, L1, L2, L3, L4, Nat.eqb_refl. simpl.
  set (df := combine (combine (combine (combine (date_range (last + 1) steps) m1)
                                 m2) m3) m4).
  assert (Ldf : length df = steps).
  { unfold df. rewrite !length_combine, date_range_length, L1, L2, L3, L4. lia. }
  eexists. split; [reflexivity|]. split.
  - unfold tail. rewrite length_skipn, length_map, Ldf. unfold steps. lia.
  - intros i Hi.
    rewrite tail_nth_error by (rewrite length_map, Ldf; unfold steps; lia).
    rewrite length_map, Ldf, nth_error_map.
    replace (steps - horizon_days + i)%nat with (g + i)%nat
      by (unfold steps; lia).
    assert (Hlt : (g + i < steps)%nat) by (unfold steps; lia).
    unfold df.
    rewrite (nth_error_combine _ _ _
               (last + 1 + Z.of_nat (g + i), nth (g + i) m1 NaN,
                nth (g + i) m2 NaN, nth (g + i) m3 NaN)%Z
               (nth (g + i) m4 NaN)).
    + simpl. eexists. split; [reflexivity|]. simpl. split; [|auto].
      pose proof (gap_days_spec last today) as G. fold g in G. lia.
    + repeat apply nth_error_combine.
      * now apply date_range_nth.
      * apply nth_error_default. now rewrite L1.
      * apply nth_error_default. now rewrite L2.
      * apply nth_error_default. now rewrite L3.
    + apply nth_error_default. now rewrite L4.
Qed.

Lemma subscription_forecast_horizon_witness :
  exists rows r,
    run_subscription_forecast sample_subscription_payload 103 7 = Some rows
    /\ length rows = 7%nat
    /\ nth_error rows 0 = Some r
    /\ sub_date r = 104%Z
    /\ total_forecast r = fadd (prepaid_forecast r) (postpaid_forecast r).
Proof.
  destruct (subscription_forecast_horizon sample_subscription_payload 103 7)
    as (rows & E & L & H); [reflexivity | reflexivity |].
  destruct (H 0%nat) as (r & Hr & Hd & _ & _ & Ht); [lia|].
  exists rows, r. split; [exact E|]. split; [exact L|]. split; [exact Hr|].
  split; [exact Hd | exact Ht].
Defined.

Lemma add_churn_forecast_horizon_witness :
  exists rows r,
    run_add_churn_forecast sample_add_churn_payload 103 7 = Some rows
    /\ length rows = 7%nat
    /\ nth_error rows 0 = Some r
    /\ ac_date r = 104%Z.
Proof.
  destruct (add_churn_forecast_horizon sample_add_churn_payload 103 7)
    as (rows & E & L & H).
  { intros m [<- | [<- | [<- | [<- | []]]]]; reflexivity. }
  destruct (H 0%nat) as (r & Hr & Hd & _); [lia|].
  exists rows, r. split; [exact E|]. split; [exact L|]. split; [exact Hr|].
  exact Hd.
Defined.

End ForecastHorizon.

(** * Properties of the keys *)

Section Keys.

Import FullAnalysis.

Lemma split_unique (c : ascii) (a a' b b' : string) :
  occurs c a = false -> occurs c a' = false ->
  (a ++ String c b)%string = (a' ++ String c b')%string ->
  a = a' /\ b = b'.
Proof.
  revert a'. induction a as [|x a IH]; intros [|y a'] Ha Ha' E; simpl in *.
  - injection E as <-. auto.
  - injection E as <- _. rewrite Ascii.eqb_refl in Ha'. discriminate.
  - injection E as -> _. rewrite Ascii.eqb_refl in Ha. discriminate.
  - injection E as <- E. apply orb_false_iff in Ha, Ha'.
    destruct (IH a' (proj2 Ha) (proj2 Ha') E) as [-> ->]. auto.
Qed.

(** X26.  Order keys tell orders apart: when no order id contains an
    underscore, two rows have the same order key exactly when they
    agree on [orderid] and on [ordernumber]. *)
Theorem order_key_injective
  (orderid ordernumber orderid' ordernumber' : string) :
  occurs "_" orderid = false ->
  occurs "_" orderid' = false ->
  (make_order_key orderid ordernumber = make_order_key orderid' ordernumber'
   <-> orderid = orderid' /\ ordernumber = ordernumber').
Proof.
  intros H H'. split.
  - unfold make_order_key. intros E.
    exact (split_unique "_" _ _ _ _ H H' E).
  - now intros [-> ->].
Qed.

Lemma order_key_injective_witness :
  make_order_key "801" "A_1" = make_order_key "801" "A_1"
  <-> "801" = "801" /\ "A_1" = "A_1".
Proof. apply order_key_injective; reflexivity. Defined.

(** An underscore in an order id can merge two orders. *)
Example order_key_collision :
  make_order_key "8_0" "1" = make_order_key "8" "0_1".
Proof. reflexivity. Qed.

(** X27.  Subscription ids tell subscriptions apart: when no bar occurs
    in the first three id columns, two rows have the same
    unique_subscription_id exactly when they agree on the four id
    columns. *)
Theorem unique_subscription_id_injective
  (asset_msisdn asset_id account_id subscription_id : string)
  (asset_msisdn' asset_id' account_id' subscription_id' : string) :
  (forall x, In x [ asset_msisdn; asset_id; account_id;
                    asset_msisdn'; asset_id'; account_id' ] ->
             occurs "|" x = false) ->
  (make_unique_subscription_id asset_msisdn asset_id account_id subscription_id
   = make_unique_subscription_id asset_msisdn' asset_id' account_id'
       subscription_id'
   <-> asset_msisdn = asset_msisdn' /\ asset_id = asset_id'
       /\ account_id = account_id' /\ subscription_id = subscription_id').
Proof.
  intros H. split.
  - unfold make_unique_subscription_id. cbn [String.concat]. intros E.
    apply split_unique in E; [|apply H; simpl; auto ..].
    destruct E as [-> E].
    apply split_unique in E; [|apply H; simpl; auto 7 ..].
    destruct E as [-> E].
    apply split_unique in E; [|apply H; simpl; auto 7 ..].
    destruct E as [-> ->]. auto.
  - now intros (-> & -> & -> & ->).
Qed.

Lemma unique_subscription_id_injective_witness :
  make_unique_subscription_id "0470" "a1" "acc9" "s|1"
  = make_unique_subscription_id "0470" "a1" "acc9" "s|1"
  <-> "0470" = "0470" /\ "a1" = "a1" /\ "acc9" = "acc9" /\ "s|1" = "s|1".
Proof.
  apply unique_subscription_id_injective.
  intros x [<- | [<- | [<- | [<- | [<- | [<- | []]]]]]]; reflexivity.
Defined.

End Keys.

(** * The correlation of the regime checks *)

Section RegimeCorrelation.

Import Subscription.






End RegimeCorrelation.

(** * A change of unit *)

Section UnitChange.

Import AddChurn.

Variable k : R.
Hypothesis k_pos : 0 < k.














End UnitChange.

Section UnitChangeClaims.

Import AddChurn.



End UnitChangeClaims.

(** * The order of the master table *)

Section MasterOrder.

Import Subscription.

Lemma weekly_nunique_permutation (df df' : list record) :
  Permutation df df' -> weekly_nunique df' = weekly_nunique df.
Proof.
  intros P. unfold weekly_nunique.
  assert (K : group_weeks df' = group_weeks df).
  { unfold group_weeks. apply sort_values_permutation.
    - rewrite map_id. apply NoDup_nodup.
    - apply nodup_permutation. now apply Permutation_map. }
  rewrite K. apply map_ext. intros w. f_equal. unfold nunique.
  apply Permutation_length, nodup_permutation, Permutation_map.
  apply filter_permutation. now symmetry.
Qed.

Lemma weekly_spine_permutation (flag : record -> bool) (df df' : list record) :
  Permutation df df' -> weekly_spine flag df' = weekly_spine flag df.
Proof.
  intros P. unfold weekly_spine.
  rewrite (weekly_nunique_permutation df df' P).
  now rewrite (weekly_nunique_permutation (filter flag df) (filter flag df')
                 (filter_permutation flag _ _ P)).
Qed.

(** A regime check reads its segment through the spine, and through
    whether the segment is empty. *)
Lemma regime_check_by_spine (v : variant) (m1 m2 : list record) :
  (segment_rows (segment_of v) m1 = [] <-> segment_rows (segment_of v) m2 = []) ->
  (forall flag, weekly_spine flag (segment_rows (segment_of v) m1)
                = weekly_spine flag (segment_rows (segment_of v) m2)) ->
  regime_check v m1 = regime_check v m2.
Proof.
  intros He Hs.
  destruct v; cbn [regime_check segment_of] in *;
    unfold _detect_prepaid_driver, _detect_postpaid_driver,
      high_spine, value_spine; rewrite Hs;
    destruct (segment_rows _ m1) as [|a l1], (segment_rows _ m2) as [|b l2];
    try reflexivity;
    try (exfalso; destruct He as [He1 He2];
         first [ specialize (He1 eq_refl) | specialize (He2 eq_refl) ];
         discriminate).
Qed.

(** X30.  The regime checks do not depend on the order of the rows of
    the master table. *)
Theorem master_row_order_is_irrelevant
  (v : variant) (master_df master_df' : list record) :
  Permutation master_df master_df' ->
  regime_check v master_df' = regime_check v master_df.
Proof.
  intros P.
  assert (Ps : Permutation (segment_rows (segment_of v) master_df')
                 (segment_rows (segment_of v) master_df)).
  { unfold segment_rows. apply filter_permutation. now symmetry. }
  apply regime_check_by_spine.
  - split; intros E; rewrite E in Ps.
    + now apply Permutation_nil.
    + apply Permutation_sym in Ps. now apply Permutation_nil.
  - intros flag. apply weekly_spine_permutation. now symmetry.
Qed.

Lemma master_row_order_is_irrelevant_witness :
  regime_check Premium (rev premium_weeks) = regime_check Premium premium_weeks.
Proof.
  apply (master_row_order_is_irrelevant Premium premium_weeks).
  apply Permutation_rev.
Defined.

End MasterOrder.
